(** * The guest-side vring engine of drivers/virtio-vring.cc

    A shallow embedding of [virtio::vring] (constructor, [get_size],
    [need_event], [add_buf], [get_buf] and the other methods) and the
    properties of the layout computation, of descriptor-chain submission
    and of reclamation that the specification states about it.

    Conventions.
    - Machine integers are [Z] with their wrap-around written out: [u16],
      [u32] and [ulong] reduce modulo 2^16, 2^32 and 2^64 ([unsigned] is
      32 bits wide and [unsigned long] and [size_t] 64 bits wide, the LP64
      model of the x86-64 target); [int_] is the 32-bit two's complement
      range of [int].
    - The backing region is read in two ways. Inside the descriptor table
      it is its three sub-structures (descriptor table, available ring,
      used ring), arrays of [_num] entries each, as the layout of
      [get_size] places them; an index outside its array ends this
      reading ([None]). Module [flat] reads the code on the block that
      [malloc] returned, byte by byte: there a descriptor index at or
      past [_num] addresses the bytes behind the table, as it does in the
      code, and an access has no defined result ([None]) only outside the
      block. The two readings agree as long as every index stays inside
      the table ([vring_ctor_refines], [add_buf_refines]).
    - A read past the end of the scatter/gather list and an access
      through the null pointer have no defined result in either reading. *)

From stdpp Require Import base option list numbers strings gmap.
From Stdlib Require Import ZArith Lia Ascii.

Local Open Scope Z_scope.

(** ** Machine integers *)

Definition u16 (x : Z) : Z := x mod 2 ^ 16.
Definition u32 (x : Z) : Z := x mod 2 ^ 32.
Definition ulong (x : Z) : Z := x mod 2 ^ 64.

(** [int]: 32-bit two's complement. *)
Definition int_ (x : Z) : Z := (x + 2 ^ 31) mod 2 ^ 32 - 2 ^ 31.

Definition is_u16 (x : Z) : Prop := 0 <= x < 2 ^ 16.
Definition is_u32 (x : Z) : Prop := 0 <= x < 2 ^ 32.

(** [sizeof(u16)] *)
Definition sizeof_u16 : Z := 2.

(** ** Declarations the sources take from headers

    drivers/virtio-vring.hh and drivers/virtio.hh are not part of the
    sources at hand: the sizes of the two wire structures, the two
    descriptor flag bits, the ring alignment and the [VIRTIO_ALIGN] macro
    are parameters of the development. *)

Record virtio_hh : Type := {
  sizeof_vring_desc : Z;
  sizeof_vring_used_elem : Z;
  VRING_DESC_F_NEXT : Z;
  VRING_DESC_F_WRITE : Z;
  VIRTIO_PCI_VRING_ALIGN : Z;
  VIRTIO_ALIGN : Z -> Z
}.

(** What the development assumes of those declarations: the structure
    sizes are positive and below 2^16, the two flags are nonzero values
    of a 16-bit word. *)
Record wf_hh (hh : virtio_hh) : Prop := {
  wf_sizeof_desc : 1 <= sizeof_vring_desc hh < 2 ^ 16;
  wf_sizeof_used_elem : 1 <= sizeof_vring_used_elem hh < 2 ^ 16;
  wf_next : 1 <= VRING_DESC_F_NEXT hh < 2 ^ 16;
  wf_write : 1 <= VRING_DESC_F_WRITE hh < 2 ^ 16
}.

(** The values of the virtio ring protocol, used for concrete runs:
    a 16-byte descriptor (u64 address, u32 length, u16 flags, u16 next),
    an 8-byte used element (u32 id, u32 len), NEXT = 1, WRITE = 2 and
    page alignment. *)
Definition virtio_std : virtio_hh := {|
  sizeof_vring_desc := 16;
  sizeof_vring_used_elem := 8;
  VRING_DESC_F_NEXT := 1;
  VRING_DESC_F_WRITE := 2;
  VIRTIO_PCI_VRING_ALIGN := 4096;
  VIRTIO_ALIGN := fun x => Z.land (x + 4095) (Z.lnot 4095)
|}.

(** ** [vring::need_event] *)

(** The [u16] arguments are promoted to [int]; both differences are cast
    back to [u16] before the comparison, whose [int] result is returned. *)
Definition need_event (event_idx new_idx old : Z) : Z :=
  Z.b2z (u16 (int_ (int_ (new_idx - event_idx) - 1)) <? u16 (int_ (new_idx - old))).

(** ** [vring::get_size] *)

Section Layout.
Variable hh : virtio_hh.

(** The rounded-up prefix of [get_size]: descriptor table and available
    ring, padded to [align]. [num] is [unsigned int], [align] is
    [unsigned long]; [3 + num] is computed in [unsigned int], everything
    else in [size_t]. *)
Definition used_offset (num align : Z) : Z :=
  Z.land
    (ulong (ulong (ulong (ulong (sizeof_vring_desc hh * num)
                          + ulong (sizeof_u16 * u32 (3 + num)))
                   + align) - 1))
    (ulong (Z.lnot (ulong (align - 1)))).

(** The [size_t] sum is converted to the [unsigned] return type. *)
Definition get_size (num align : Z) : Z :=
  u32 (ulong (ulong (used_offset num align + ulong (sizeof_u16 * 3))
              + ulong (sizeof_vring_used_elem hh * num))).

(** *** The layout formula in the specification's words *)

Definition round_up (x align : Z) : Z := (x + align - 1) / align * align.
Definition desc_bytes (num : Z) : Z := sizeof_vring_desc hh * num.
Definition avail_bytes (num : Z) : Z := sizeof_u16 * (3 + num).
Definition used_bytes (num : Z) : Z :=
  sizeof_u16 * 3 + sizeof_vring_used_elem hh * num.
Definition layout_size (num align : Z) : Z :=
  round_up (desc_bytes num + avail_bytes num) align + used_bytes num.
End Layout.

(** Powers of two that an [unsigned long] holds. *)
Definition pow2_ulong (a : Z) : Prop := exists k, 0 <= k < 64 /\ a = 2 ^ k.

(** ** Memory: the three sub-structures of the backing region

    The reading of the region inside the descriptor table. *)

(** [a[i]] on an array of the region: defined inside the array only. *)
Definition load {A} (a : list A) (i : Z) : option A :=
  if bool_decide (0 <= i) then a !! Z.to_nat i else None.

Definition store {A} (a : list A) (i : Z) (x : A) : option (list A) :=
  if bool_decide (0 <= i < Z.of_nat (length a))
  then Some (<[Z.to_nat i := x]> a) else None.

(** The classes of the ring come from drivers/virtio-vring.hh; their
    fields are those the code reads and writes, with the widths of the
    specification's data model. *)

(** [class vring_desc]: u64 address, u32 length, u16 flags, u16 next. *)
Module vring_desc.
Record t : Type := mk { _paddr : Z; _len : Z; _flags : Z; _next : Z }.
Definition zero : t := mk 0 0 0 0.
Definition set_paddr (x : Z) (d : t) : t := mk x (_len d) (_flags d) (_next d).
Definition set_len (x : Z) (d : t) : t := mk (_paddr d) x (_flags d) (_next d).
Definition set_flags (x : Z) (d : t) : t := mk (_paddr d) (_len d) x (_next d).
Definition set_next (x : Z) (d : t) : t := mk (_paddr d) (_len d) (_flags d) x.
End vring_desc.

(** [class vring_avail]: u16 flags, u16 idx, u16 ring[]. *)
Module vring_avail.
Record t : Type := mk { _flags : Z; _idx : Z; _ring : list Z }.
Definition set_idx (x : Z) (a : t) : t := mk (_flags a) x (_ring a).
End vring_avail.

(** [class vring_used_elem]: u32 id, u32 len. *)
Module vring_used_elem.
Record t : Type := mk { _id : Z; _len : Z }.
Definition zero : t := mk 0 0.
End vring_used_elem.

(** [class vring_used]: u16 flags, u16 idx, vring_used_elem ring[]. *)
Module vring_used.
Record t : Type := mk { _flags : Z; _idx : Z; _ring : list vring_used_elem.t }.
End vring_used.

(** [sglist] of kern/sglist.hh: the list of segments, physical address
    and length each. *)
Module sglist.
Record sg_node : Type := mk_node { _paddr : Z; _len : Z }.
Record t : Type := mk { _nodes : list sg_node }.
End sglist.

Definition nullptr : Z := 0.

(** [class vring]: the members and, with them, what the three pointers
    [_desc], [_avail] and [_used] point to. *)
Record vring : Type := mk_vring {
  _drv : Z;
  _q_index : Z;
  _vring_ptr : Z;
  _num : Z;
  _desc : Z;
  _avail : Z;
  _used : Z;
  desc_mem : list vring_desc.t;
  avail_mem : vring_avail.t;
  used_mem : vring_used.t
}.

Definition set_desc_mem (m : list vring_desc.t) (v : vring) : vring :=
  mk_vring (_drv v) (_q_index v) (_vring_ptr v) (_num v) (_desc v) (_avail v)
           (_used v) m (avail_mem v) (used_mem v).
Definition set_avail_mem (m : vring_avail.t) (v : vring) : vring :=
  mk_vring (_drv v) (_q_index v) (_vring_ptr v) (_num v) (_desc v) (_avail v)
           (_used v) (desc_mem v) m (used_mem v).
Definition set_used_mem (m : vring_used.t) (v : vring) : vring :=
  mk_vring (_drv v) (_q_index v) (_vring_ptr v) (_num v) (_desc v) (_avail v)
           (_used v) (desc_mem v) (avail_mem v) m.

(** ** The constructor *)

(** [for (int i=0;i<num;i++) _avail->_ring[i] = i+1;] on [n] remaining
    iterations, [i = num - n]. *)
Fixpoint init_ring (n : nat) (i : Z) (ring : list Z) : option (list Z) :=
  match n with
  | O => Some ring
  | S n' => ring' ← store ring i (u16 (int_ (i + 1))); init_ring n' (i + 1) ring'
  end.

Section Vring.
Variable hh : virtio_hh.

(** [malloc] is the allocator of mempool.hh: [None] is the null
    pointer, on which [memset] has no defined result. [num] and
    [q_index] are [u16]. [ring_end] is [&_avail->_ring[num]], the ring
    array lying behind the two [u16] fields [_flags] and [_idx]. The
    arrays are what [memset] leaves of the three sub-structures where
    they lie inside the block, one behind the other;
    [flat.vring_ctor] has the block and [memset] themselves. *)
Definition vring_ctor (malloc : Z -> option Z) (drv num q_index : Z)
  : option vring :=
  let sz := u32 (VIRTIO_ALIGN hh (get_size hh num (VIRTIO_PCI_VRING_ALIGN hh))) in
  p ← malloc sz;
  let n := Z.to_nat num in
  let avail_p := ulong (p + ulong (num * sizeof_vring_desc hh)) in
  let ring_end := ulong (avail_p + 2 * sizeof_u16 + sizeof_u16 * num) in
  let used_p :=
    Z.land (ulong (ulong (ulong (ring_end + sizeof_u16)
                          + VIRTIO_PCI_VRING_ALIGN hh) - 1))
           (ulong (Z.lnot (VIRTIO_PCI_VRING_ALIGN hh - 1))) in
  ring ← init_ring n 0 (replicate n 0);
  Some {| _drv := drv; _q_index := q_index; _vring_ptr := p; _num := num;
          _desc := p; _avail := avail_p; _used := used_p;
          desc_mem := replicate n vring_desc.zero;
          avail_mem := vring_avail.mk 0 0 ring;
          used_mem := vring_used.mk 0 0 (replicate n vring_used_elem.zero) |}.

(** ** [vring::add_buf] *)

(** [VRING_DESC_F_NEXT | (i>in)? VRING_DESC_F_WRITE:0]: the conditional
    operator binds weaker than [|], so the condition is
    [VRING_DESC_F_NEXT | (i>in)]. *)
Definition desc_flags_expr (i in_ : Z) : Z :=
  if bool_decide (Z.lor (VRING_DESC_F_NEXT hh) (Z.b2z (in_ <? i)) = 0)
  then 0 else VRING_DESC_F_WRITE hh.

(** The body of the [for] loop, on the descriptor [desc] points to and
    the node [*ii]. It yields the next value of [desc]. An index outside
    the table ends the reading on arrays ([None]); [flat.add_buf_body]
    follows the code into the bytes behind the table. *)
Definition add_buf_body (node : sglist.sg_node) (i in_ desc : Z) (v : vring)
  : option (Z * vring) :=
  d ← load (desc_mem v) desc;
  let d := vring_desc.set_flags (u16 (desc_flags_expr i in_)) d in
  let d := vring_desc.set_paddr (ulong (sglist._paddr node)) d in
  let d := vring_desc.set_len (u32 (sglist._len node)) d in
  r ← load (vring_avail._ring (avail_mem v)) (vring_avail._idx (avail_mem v));
  let d := vring_desc.set_next r d in
  m ← store (desc_mem v) desc d;
  let v := set_desc_mem m v in
  let v := set_avail_mem
             (vring_avail.set_idx (u16 (vring_avail._idx (avail_mem v) + 1))
                                  (avail_mem v)) v in
  nxt ← load (vring_avail._ring (avail_mem v)) (vring_desc._next d);
  Some (nxt, v).

(** [for (auto ii = sg->_nodes.begin(); i<in+out; ii++) { ... i++; }]:
    every iteration dereferences [ii], so the recursion is on the nodes
    left; dereferencing the end of the list is not defined. *)
Fixpoint add_buf_loop (ii : list sglist.sg_node) (i in_ out desc : Z)
         (v : vring) : option (Z * vring) :=
  if bool_decide (i < in_ + out) then
    match ii with
    | [] => None
    | node :: ii' =>
        '(desc', v') ← add_buf_body node i in_ desc v;
        add_buf_loop ii' (i + 1) in_ out desc' v'
    end
  else Some (desc, v).

(** [out] and [in] are [u16]; [cookie] is not used by the body. The
    final [desc->_flags &= ~VRING_DESC_F_NEXT] is on the slot behind the
    chain: with the chain in the last slot of the table it lies behind
    the table, where only [flat.add_buf] follows. *)
Definition add_buf (v : vring) (sg : sglist.t) (out in_ : Z) (cookie : Z)
  : option (bool * vring) :=
  h ← load (vring_avail._ring (avail_mem v)) (vring_avail._idx (avail_mem v));
  '(desc, v) ← add_buf_loop (sglist._nodes sg) 0 in_ out h v;
  d ← load (desc_mem v) desc;
  let d := vring_desc.set_flags
             (u16 (Z.land (vring_desc._flags d) (Z.lnot (VRING_DESC_F_NEXT hh)))) d in
  m ← store (desc_mem v) desc d;
  Some (true, set_desc_mem m v).
End Vring.

(** ** [vring::get_buf] *)

(** [return nullptr;]: the returned cookie, the [int] that [len] points
    to after the call, and the vring after the call. *)
Definition get_buf (v : vring) (len : Z) : Z * Z * vring := (nullptr, len, v).

(** ** Free slots, outstanding chains and runs of calls *)

(** The constructor lays "the next pointer" of the free slots out in the
    ring array of the available ring. [add_buf] takes its first slot from
    [_ring[_idx]] and goes from a slot to the next through the ring
    array; the list ends at the first index outside the table. *)
Fixpoint free_walk (fuel : nat) (ring : list Z) (num s : Z) : list Z :=
  match fuel with
  | O => []
  | S fuel' =>
      if bool_decide (0 <= s < num) then
        s :: match load ring s with
             | Some s' => free_walk fuel' ring num s'
             | None => []
             end
      else []
  end.

Definition free_list (v : vring) : list Z :=
  match load (vring_avail._ring (avail_mem v)) (vring_avail._idx (avail_mem v)) with
  | Some h => free_walk (length (vring_avail._ring (avail_mem v)))
                        (vring_avail._ring (avail_mem v)) (_num v) h
  | None => []
  end.

Definition free_count (v : vring) : Z := Z.of_nat (length (free_list v)).

(** The calls a driver makes on a queue. *)
Inductive call : Type :=
| AddBuf (sg : sglist.t) (out in_ : Z) (cookie : Z)
| GetBuf (len : Z).

(** Arguments as a caller can pass them: [u16] counts. *)
Definition wf_call (c : call) : Prop :=
  match c with
  | AddBuf _ out in_ _ => is_u16 out /\ is_u16 in_
  | GetBuf _ => True
  end.

(** Chains submitted and not reclaimed, oldest first: the cookie and the
    slots of each. *)
Definition chains : Type := list (Z * list Z).

Definition chain_slots (cs : chains) : list Z := concat (snd <$> cs).

Section Runs.
Variable hh : virtio_hh.

(** One call on the vring; next to it, the bookkeeping of outstanding
    chains. A submitted chain owns the first [out + in] slots of the
    free list; a chain leaves when [get_buf] hands its cookie back. *)
Definition step (st : vring * chains) (c : call) : option (vring * chains) :=
  let '(v, cs) := st in
  match c with
  | AddBuf sg out in_ cookie =>
      '(_, v') ← add_buf hh v sg out in_ cookie;
      Some (v', cs ++ [(cookie, take (Z.to_nat (out + in_)) (free_list v))])
  | GetBuf len =>
      let '(cookie, _, v') := get_buf v len in
      Some (v', if bool_decide (cookie = nullptr) then cs
                else filter (fun ch => ch.1 <> cookie) cs)
  end.

Fixpoint run (st : vring * chains) (calls : list call) : option (vring * chains) :=
  match calls with
  | [] => Some st
  | c :: calls' => st' ← step st c; run st' calls'
  end.
End Runs.

(** ** The device side of the end-to-end scenario

    The device is no part of the sources. As the scenario of the
    specification has it, it completes a chain by writing its head and
    byte count to [used.ring[used.idx mod num]] and incrementing
    [used.idx]. *)
Definition device_complete (head len : Z) (v : vring) : option vring :=
  let u := used_mem v in
  ring ← store (vring_used._ring u) (vring_used._idx u `mod` _num v)
               (vring_used_elem.mk (u32 head) (u32 len));
  Some (set_used_mem (vring_used.mk (vring_used._flags u)
                                    (u16 (vring_used._idx u + 1)) ring) v).

(** ** Fixtures of the scenarios *)

(** An allocator that succeeds, returning [base]. *)
Definition malloc_ok (base : Z) : Z -> option Z := fun _ => Some base.

(** A two-segment list (one device-readable, one device-writable segment)
    and a single-segment list. *)
Definition sg2 : sglist.t :=
  sglist.mk [sglist.mk_node 0x1000 16; sglist.mk_node 0x2000 32].
Definition sg1 : sglist.t := sglist.mk [sglist.mk_node 0x1000 16].

(** A power of two, as the specification asks of the queue size. *)
Definition is_power_of_two (n : Z) : bool := (0 <? n) && (Z.land n (n - 1) =? 0).

(** The descriptor that one turn of the loop of [add_buf] leaves in
    [slot] for segment [i] of the list. *)
Definition chain_desc (hh : virtio_hh) (in_ i slot : Z) (node : sglist.sg_node)
  : vring_desc.t :=
  vring_desc.mk (ulong (sglist._paddr node)) (u32 (sglist._len node))
                (u16 (desc_flags_expr hh i in_)) slot.

(** The available ring as the constructor left it, with [_idx] at [k]. *)
Record cur_inv (num k : Z) (v : vring) : Prop := {
  ci_num : _num v = num;
  ci_ring : vring_avail._ring (avail_mem v) = seqZ 1 num;
  ci_desc : Z.of_nat (length (desc_mem v)) = num;
  ci_idx : vring_avail._idx (avail_mem v) = k
}.

(** What holds of every vring the constructor makes and the calls keep:
    the ring array still is the free list the constructor wrote, and
    [_idx] has not passed the last slot. *)
Record ring_inv (v : vring) : Prop := {
  inv_num : is_u16 (_num v);
  inv_ring : vring_avail._ring (avail_mem v) = seqZ 1 (_num v);
  inv_desc : Z.of_nat (length (desc_mem v)) = _num v;
  inv_idx : 0 <= vring_avail._idx (avail_mem v) /\
            (vring_avail._idx (avail_mem v) = 0 \/
             vring_avail._idx (avail_mem v) + 1 < _num v)
}.

(** The sum of the lengths of the outstanding chains, and the sum of
    [out + in] over the submissions of a sequence of calls. *)
Fixpoint outstanding_total (cs : chains) : Z :=
  match cs with
  | [] => 0
  | ch :: cs' => Z.of_nat (length ch.2) + outstanding_total cs'
  end.

Fixpoint submitted_total (calls : list call) : Z :=
  match calls with
  | [] => 0
  | AddBuf _ out in_ _ :: calls' => out + in_ + submitted_total calls'
  | GetBuf _ :: calls' => submitted_total calls'
  end.

(** A five-segment list, and the cookie of the end-to-end scenario. *)
Definition sg5 : sglist.t :=
  sglist.mk [sglist.mk_node 0x1000 16; sglist.mk_node 0x2000 16;
             sglist.mk_node 0x3000 16; sglist.mk_node 0x4000 16;
             sglist.mk_node 0x5000 16].

Definition cookie_A : Z := 0xA11CE.

(** Whether a descriptor carries the flag [f]. *)
Definition has_flag (d : vring_desc.t) (f : Z) : bool :=
  negb (Z.land (vring_desc._flags d) f =? 0).

(** The vring the constructor makes for queue size 4 on a region at
    0x100000. *)
Definition queue4 : vring :=
  {| _drv := 7; _q_index := 0; _vring_ptr := 0x100000; _num := 4;
     _desc := 0x100000; _avail := 0x100040; _used := 0x101000;
     desc_mem := replicate 4 vring_desc.zero;
     avail_mem := vring_avail.mk 0 0 [1; 2; 3; 4];
     used_mem := vring_used.mk 0 0 (replicate 4 vring_used_elem.zero) |}.

(** Constructing the queue and making a sequence of calls on it. *)
Definition session (hh : virtio_hh) (malloc : Z -> option Z) (drv num q_index : Z)
           (calls : list call) : option (vring * chains) :=
  v0 ← vring_ctor hh malloc drv num q_index; run hh (v0, []) calls.

(** [queue4] after the submission of [sg1] (out = 1, in = 0) and after
    the submission of [sg2] (out = 1, in = 1). *)
Definition queue4_after_sg1 : vring :=
  Eval vm_compute in
    default queue4 (snd <$> add_buf virtio_std queue4 sg1 1 0 cookie_A).

Definition queue4_after_sg2 : vring :=
  Eval vm_compute in
    default queue4 (snd <$> add_buf virtio_std queue4 sg2 1 1 cookie_A).

(** ** The methods of a vring *)

(** The calls of the methods of a vring. *)
Inductive method : Type :=
| M_add_buf (sg : sglist.t) (out in_ : Z) (cookie : Z)
| M_get_buf (len : Z)
| M_kick
| M_disable_callback
| M_enable_callback.

Fixpoint kick_count (ms : list method) : nat :=
  match ms with
  | [] => O
  | M_kick :: ms' => S (kick_count ms')
  | _ :: ms' => kick_count ms'
  end.

(** Descriptors behind the cursor have not been written. *)
Definition fresh_past (v : vring) : Prop :=
  forall s, s = 0 \/ vring_avail._idx (avail_mem v) < s -> 0 <= s < _num v ->
            load (desc_mem v) s = Some vring_desc.zero.


(** * The backing region as one block of bytes

    The constructor takes the three sub-structures from one [malloc]'ed
    block, and [add_buf] follows indices it reads from that block: a
    descriptor index at or past [_num] addresses the bytes behind the
    descriptor table, which are the available ring. This part reads the
    code on the block itself: every access is an address and a width, and
    is defined wherever it lies inside the block. The arrays of the
    previous part are what this reading comes to as long as every index
    stays inside the descriptor table ([add_buf_refines]). *)

Module flat.

(** The block that [malloc] returned: its address and its bytes. A byte
    is kept as a number; what is read of it is its value modulo 256. *)
Record block : Type := mk_block { base : Z; bytes : list Z }.

Definition size (b : block) : Z := Z.of_nat (length (bytes b)).

(** The [n] bytes at address [a] lie inside the block. *)
Definition inside (b : block) (a : Z) (n : nat) : Prop :=
  base b <= a /\ a + Z.of_nat n <= base b + size b.

(** Integers are stored with the least significant byte first (x86-64). *)
Fixpoint get (bs : list Z) (off n : nat) : Z :=
  match n with
  | O => 0
  | S n' => default 0 (bs !! off) `mod` 256 + 256 * get bs (S off) n'
  end.

Fixpoint put (bs : list Z) (off n : nat) (x : Z) : list Z :=
  match n with
  | O => bs
  | S n' => <[off := x `mod` 256]> (put bs (S off) n' (x / 256))
  end.

Definition read (b : block) (a : Z) (n : nat) : option Z :=
  if bool_decide (inside b a n)
  then Some (get (bytes b) (Z.to_nat (a - base b)) n) else None.

Definition write (b : block) (a : Z) (n : nat) (x : Z) : option block :=
  if bool_decide (inside b a n)
  then Some (mk_block (base b) (put (bytes b) (Z.to_nat (a - base b)) n x))
  else None.

(** Modelled from the spec: the classes of drivers/virtio-vring.hh are
    not among the sources. Their fields are laid out as the data model
    has them: a descriptor is a u64 address, a u32 length and the u16
    flags and next; the available ring is the u16 flags and idx and the
    u16 ring entries; the used ring is the u16 flags and idx and the
    used elements, a u32 id and a u32 length each. *)
Definition desc_paddr : Z := 0.
Definition desc_len : Z := 8.
Definition desc_flags : Z := 12.
Definition desc_next : Z := 14.
Definition avail_flags_off : Z := 0.
Definition avail_idx_off : Z := 2.
Definition avail_ring_off : Z := 4.
Definition used_flags_off : Z := 0.
Definition used_idx_off : Z := 2.
Definition used_ring_off : Z := 4.
Definition elem_id : Z := 0.
Definition elem_len : Z := 4.

(** [class vring]: the members, and the block [_vring_ptr] points to. *)
Record vring : Type := mk_vring {
  _drv : Z;
  _q_index : Z;
  _vring_ptr : Z;
  _num : Z;
  _desc : Z;
  _avail : Z;
  _used : Z;
  mem : block
}.

Definition set_mem (m : block) (v : vring) : vring :=
  mk_vring (_drv v) (_q_index v) (_vring_ptr v) (_num v) (_desc v) (_avail v)
           (_used v) m.

Section Vring.
Variable hh : virtio_hh.

(** [&_desc[s]], [&_avail->_idx], [&_avail->_ring[k]] and
    [&_used->_used_elements[k]]. *)
Definition desc_at (v : vring) (s : Z) : Z := _desc v + sizeof_vring_desc hh * s.
Definition idx_at (v : vring) : Z := _avail v + avail_idx_off.
Definition ring_at (avail k : Z) : Z := avail + avail_ring_off + sizeof_u16 * k.
Definition elem_at (v : vring) (k : Z) : Z :=
  _used v + used_ring_off + sizeof_vring_used_elem hh * k.

(** ** The constructor *)

(** [for (int i=0;i<num;i++) _avail->_ring[i] = i+1;] on [n] remaining
    iterations. *)
Fixpoint init_ring (n : nat) (i : Z) (avail : Z) (m : block) : option block :=
  match n with
  | O => Some m
  | S n' =>
      m' ← write m (ring_at avail i) 2 (u16 (int_ (i + 1)));
      init_ring n' (i + 1) avail m'
  end.

(** [malloc(sz)] gives a block of [sz] bytes, which [memset] fills with
    zeros, or the null pointer ([None]), on which [memset] is not
    defined. The three pointers are computed as written. *)
Definition vring_ctor (malloc : Z -> option Z) (drv num q_index : Z)
  : option vring :=
  let sz := u32 (VIRTIO_ALIGN hh (get_size hh num (VIRTIO_PCI_VRING_ALIGN hh))) in
  p ← malloc sz;
  let m := mk_block p (replicate (Z.to_nat sz) 0) in
  let avail_p := ulong (p + ulong (num * sizeof_vring_desc hh)) in
  let ring_end := ulong (avail_p + 2 * sizeof_u16 + sizeof_u16 * num) in
  let used_p :=
    Z.land (ulong (ulong (ulong (ring_end + sizeof_u16)
                          + VIRTIO_PCI_VRING_ALIGN hh) - 1))
           (ulong (Z.lnot (VIRTIO_PCI_VRING_ALIGN hh - 1))) in
  m ← init_ring (Z.to_nat num) 0 avail_p m;
  Some {| _drv := drv; _q_index := q_index; _vring_ptr := p; _num := num;
          _desc := p; _avail := avail_p; _used := used_p; mem := m |}.

(** ** [vring::add_buf] *)

(** The body of the [for] loop; [desc] is the pointer. The statements
    are taken in their order, every operand read from the block when its
    statement is reached. It yields the next value of [desc]. *)
Definition add_buf_body (node : sglist.sg_node) (i in_ desc : Z) (v : vring)
  : option (Z * vring) :=
  m ← write (mem v) (desc + desc_flags) 2 (u16 (desc_flags_expr hh i in_));
  m ← write m (desc + desc_paddr) 8 (ulong (sglist._paddr node));
  m ← write m (desc + desc_len) 4 (u32 (sglist._len node));
  idx ← read m (idx_at v) 2;
  r ← read m (ring_at (_avail v) idx) 2;
  m ← write m (desc + desc_next) 2 r;
  idx ← read m (idx_at v) 2;
  m ← write m (idx_at v) 2 (u16 (idx + 1));
  nxt ← read m (desc + desc_next) 2;
  r' ← read m (ring_at (_avail v) nxt) 2;
  Some (desc_at v r', set_mem m v).

Fixpoint add_buf_loop (ii : list sglist.sg_node) (i in_ out desc : Z)
         (v : vring) : option (Z * vring) :=
  if bool_decide (i < in_ + out) then
    match ii with
    | [] => None
    | node :: ii' =>
        '(desc', v') ← add_buf_body node i in_ desc v;
        add_buf_loop ii' (i + 1) in_ out desc' v'
    end
  else Some (desc, v).

Definition add_buf (v : vring) (sg : sglist.t) (out in_ : Z) (cookie : Z)
  : option (bool * vring) :=
  idx ← read (mem v) (idx_at v) 2;
  h ← read (mem v) (ring_at (_avail v) idx) 2;
  '(desc, v) ← add_buf_loop (sglist._nodes sg) 0 in_ out (desc_at v h) v;
  f ← read (mem v) (desc + desc_flags) 2;
  m ← write (mem v) (desc + desc_flags) 2
            (u16 (Z.land f (Z.lnot (VRING_DESC_F_NEXT hh))));
  Some (true, set_mem m v).

(** ** The other methods *)

(** [return nullptr;]: the returned cookie, the [int] that [len] points
    to after the call, and the vring after the call. *)
Definition get_buf (v : vring) (len : Z) : Z * Z * vring := (nullptr, len, v).

(** [_drv->kick(_q_index); return true;]: the driver's [kick] is outside
    the sources; the calls made to it are kept, driver and queue index
    each. *)
Definition kick (v : vring) (kicks : list (Z * Z)) : bool * list (Z * Z) :=
  (true, kicks ++ [(_drv v, _q_index v)]).

(** The empty body of [disable_callback] and [return true;] of
    [enable_callback]. *)
Definition disable_callback (v : vring) : vring := v.
Definition enable_callback (v : vring) : bool * vring := (true, v).

(** [mmu::virt_to_phys] is outside the sources. *)
Definition get_paddr (virt_to_phys : Z -> Z) (v : vring) : Z :=
  virt_to_phys (_vring_ptr v).

(** The calls of the methods, in sequence; the calls made to the
    driver's [kick] are kept. *)
Definition invoke (st : vring * list (Z * Z)) (m : method)
  : option (vring * list (Z * Z)) :=
  let '(v, kicks) := st in
  match m with
  | M_add_buf sg out in_ cookie =>
      '(_, v') ← add_buf v sg out in_ cookie; Some (v', kicks)
  | M_get_buf len => Some ((get_buf v len).2, kicks)
  | M_kick => Some (v, (kick v kicks).2)
  | M_disable_callback => Some (disable_callback v, kicks)
  | M_enable_callback => Some ((enable_callback v).2, kicks)
  end.

Fixpoint invoke_all (st : vring * list (Z * Z)) (ms : list method)
  : option (vring * list (Z * Z)) :=
  match ms with
  | [] => Some st
  | m :: ms' => st' ← invoke st m; invoke_all st' ms'
  end.

(** ** What the block holds at the three pointers *)

Definition desc (v : vring) (s : Z) : option vring_desc.t :=
  pa ← read (mem v) (desc_at v s + desc_paddr) 8;
  le ← read (mem v) (desc_at v s + desc_len) 4;
  fl ← read (mem v) (desc_at v s + desc_flags) 2;
  nx ← read (mem v) (desc_at v s + desc_next) 2;
  Some (vring_desc.mk pa le fl nx).

Definition avail_flags (v : vring) : option Z :=
  read (mem v) (_avail v + avail_flags_off) 2.
Definition avail_idx (v : vring) : option Z := read (mem v) (idx_at v) 2.
Definition avail_ring (v : vring) (k : Z) : option Z :=
  read (mem v) (ring_at (_avail v) k) 2.

Definition used_flags (v : vring) : option Z :=
  read (mem v) (_used v + used_flags_off) 2.
Definition used_idx (v : vring) : option Z :=
  read (mem v) (_used v + used_idx_off) 2.
Definition used_elem (v : vring) (k : Z) : option vring_used_elem.t :=
  id ← read (mem v) (elem_at v k + elem_id) 4;
  le ← read (mem v) (elem_at v k + elem_len) 4;
  Some (vring_used_elem.mk id le).

(** ** Runs of calls *)

Definition step (v : vring) (c : call) : option vring :=
  match c with
  | AddBuf sg out in_ cookie => '(_, v') ← add_buf v sg out in_ cookie; Some v'
  | GetBuf len => Some (get_buf v len).2
  end.

Fixpoint run (v : vring) (calls : list call) : option vring :=
  match calls with
  | [] => Some v
  | c :: calls' => v' ← step v c; run v' calls'
  end.

Definition session (malloc : Z -> option Z) (drv num q_index : Z)
           (calls : list call) : option vring :=
  v0 ← vring_ctor malloc drv num q_index; run v0 calls.
End Vring.
End flat.

(** ** The arrays against the block

    A vring of arrays and a vring on a block that hold the same: the
    block contains the three sub-structures at the three pointers, one
    behind the other, and reads at their places what the arrays hold.
    The descriptor is the 16 bytes and the used element the 8 bytes of
    the protocol here. *)
Record table_ok (hh : virtio_hh) (f : flat.vring) : Prop := {
  tk_num : 0 <= flat._num f;
  tk_desc : flat.base (flat.mem f) <= flat._desc f;
  tk_avail : flat._desc f + sizeof_vring_desc hh * flat._num f <= flat._avail f;
  tk_used : flat._avail f + flat.avail_ring_off + sizeof_u16 * flat._num f
            <= flat._used f;
  tk_end : flat._used f + flat.used_ring_off + sizeof_vring_used_elem hh * flat._num f
           <= flat.base (flat.mem f) + flat.size (flat.mem f)
}.

Record sim (hh : virtio_hh) (f : flat.vring) (v : vring) : Prop := {
  sim_table : table_ok hh f;
  sim_drv : flat._drv f = _drv v;
  sim_q_index : flat._q_index f = _q_index v;
  sim_vring_ptr : flat._vring_ptr f = _vring_ptr v;
  sim_num : flat._num f = _num v;
  sim_desc_p : flat._desc f = _desc v;
  sim_avail_p : flat._avail f = _avail v;
  sim_used_p : flat._used f = _used v;
  sim_desc_len : Z.of_nat (length (desc_mem v)) = flat._num f;
  sim_desc : forall s d, load (desc_mem v) s = Some d -> flat.desc hh f s = Some d;
  sim_ring_len : Z.of_nat (length (vring_avail._ring (avail_mem v))) = flat._num f;
  sim_aflags : flat.avail_flags f = Some (vring_avail._flags (avail_mem v));
  sim_aidx : flat.avail_idx f = Some (vring_avail._idx (avail_mem v));
  sim_ring : forall k x, load (vring_avail._ring (avail_mem v)) k = Some x ->
                         flat.avail_ring f k = Some x;
  sim_used_len : Z.of_nat (length (vring_used._ring (used_mem v))) = flat._num f;
  sim_uflags : flat.used_flags f = Some (vring_used._flags (used_mem v));
  sim_uidx : flat.used_idx f = Some (vring_used._idx (used_mem v));
  sim_uelem : forall k e, load (vring_used._ring (used_mem v)) k = Some e ->
                          flat.used_elem hh f k = Some e
}.

(** The structure sizes of the protocol. *)
Definition std_sizes (hh : virtio_hh) : Prop :=
  sizeof_vring_desc hh = 16 /\ sizeof_vring_used_elem hh = 8.

(** What the constructor needs of its surroundings to lay the ring out
    as [get_size] does: [malloc] returns a block (not the null
    pointer) at a multiple of the ring alignment, [VIRTIO_ALIGN] does
    not round down, and neither the layout nor the addresses wrap. *)
Record block_env (hh : virtio_hh) (malloc : Z -> option Z) (num p : Z) : Prop := {
  env_wf : wf_hh hh;
  env_sizes : std_sizes hh;
  env_num : is_u16 num;
  env_align : pow2_ulong (VIRTIO_PCI_VRING_ALIGN hh);
  env_base : 0 <= p /\ (VIRTIO_PCI_VRING_ALIGN hh | p);
  env_fit : layout_size hh num (VIRTIO_PCI_VRING_ALIGN hh) < 2 ^ 32;
  env_sz : get_size hh num (VIRTIO_PCI_VRING_ALIGN hh)
           <= u32 (VIRTIO_ALIGN hh (get_size hh num (VIRTIO_PCI_VRING_ALIGN hh)));
  env_addr : p + layout_size hh num (VIRTIO_PCI_VRING_ALIGN hh)
             + VIRTIO_PCI_VRING_ALIGN hh < 2 ^ 64;
  env_malloc : malloc (u32 (VIRTIO_ALIGN hh (get_size hh num (VIRTIO_PCI_VRING_ALIGN hh))))
               = Some p
}.

(** A call whose counts are [u16] and whose list holds the segments it
    names. *)
Definition fits_call (c : call) : Prop :=
  match c with
  | AddBuf sg out in_ _ =>
      is_u16 out /\ is_u16 in_ /\ out + in_ <= Z.of_nat (length (sglist._nodes sg))
  | GetBuf _ => True
  end.


(** Every byte of the block is a byte. *)
Definition norm (m : flat.block) : Prop :=
  Forall (fun b => 0 <= b < 256) (flat.bytes m).

(** The methods that write to the block: [add_buf] alone. *)
Definition writes_block (m : method) : bool :=
  match m with
  | M_add_buf _ _ _ _ => true
  | _ => false
  end.

(** The same without the alignment of the block: what the constructor
    needs to complete and to have the descriptor table and the available
    ring inside the block. *)
Record ctor_env (hh : virtio_hh) (malloc : Z -> option Z) (num p : Z) : Prop := {
  cenv_wf : wf_hh hh;
  cenv_sizes : std_sizes hh;
  cenv_num : is_u16 num;
  cenv_align : pow2_ulong (VIRTIO_PCI_VRING_ALIGN hh);
  cenv_base : 0 <= p;
  cenv_fit : layout_size hh num (VIRTIO_PCI_VRING_ALIGN hh) < 2 ^ 32;
  cenv_sz : get_size hh num (VIRTIO_PCI_VRING_ALIGN hh)
            <= u32 (VIRTIO_ALIGN hh (get_size hh num (VIRTIO_PCI_VRING_ALIGN hh)));
  cenv_addr : p + layout_size hh num (VIRTIO_PCI_VRING_ALIGN hh)
              + VIRTIO_PCI_VRING_ALIGN hh < 2 ^ 64;
  cenv_malloc : malloc (u32 (VIRTIO_ALIGN hh (get_size hh num (VIRTIO_PCI_VRING_ALIGN hh))))
                = Some p
}.

(** ** Fixtures on the block *)

Definition flat_null : flat.vring :=
  flat.mk_vring 0 0 0 0 0 0 0 (flat.mk_block 0 []).

Definition single : call := AddBuf sg1 1 0 cookie_A.

(** The queue of size 2 of the queue-full scenario, fresh and after one,
    two and three single-segment submissions. *)
Definition fqueue2 : flat.vring :=
  Eval vm_compute in
    default flat_null (flat.session virtio_std (malloc_ok 0x100000) 7 2 0 []).
Definition fqueue2_1 : flat.vring :=
  Eval vm_compute in
    default flat_null (flat.session virtio_std (malloc_ok 0x100000) 7 2 0 [single]).
Definition fqueue2_2 : flat.vring :=
  Eval vm_compute in
    default flat_null
      (flat.session virtio_std (malloc_ok 0x100000) 7 2 0 [single; single]).
Definition fqueue2_3 : flat.vring :=
  Eval vm_compute in
    default flat_null
      (flat.session virtio_std (malloc_ok 0x100000) 7 2 0 [single; single; single]).

(** The queue of size 4, fresh, after the single-segment, after the
    two-segment and after the five-segment submission. *)
Definition fqueue4 : flat.vring :=
  Eval vm_compute in
    default flat_null (flat.session virtio_std (malloc_ok 0x100000) 7 4 0 []).
Definition fqueue4_sg1 : flat.vring :=
  Eval vm_compute in
    default flat_null (snd <$> flat.add_buf virtio_std fqueue4 sg1 1 0 cookie_A).
Definition fqueue4_sg5 : flat.vring :=
  Eval vm_compute in
    default flat_null (snd <$> flat.add_buf virtio_std fqueue4 sg5 3 2 cookie_A).


(** * The device registry of fs/devfs/device.c *)

(** What a routine of the registry comes to: a result, a call of
    [sys_panic] or a failed [assert] (neither returns), or an access
    through a pointer to no device. *)
Inductive outcome (A : Type) : Type :=
| Done (a : A)
| Panic (msg : string)
| Wild.
Arguments Done {A} a.
Arguments Panic {A} msg.
Arguments Wild {A}.

Module devfs.

(** [MAXDEVNAME] of device.h. *)
Definition MAXDEVNAME : Z := 12.

(** The error numbers of errno.h, which the sources do not hold. *)
Record errno_h : Type := { ENXIO : Z; ESRCH : Z; ENODEV : Z }.

(** Error numbers are positive. *)
Record wf_errno (eh : errno_h) : Prop := {
  wf_ENXIO : 0 < ENXIO eh;
  wf_ESRCH : 0 < ESRCH eh;
  wf_ENODEV : 0 < ENODEV eh
}.

Definition errno_std : errno_h := {| ENXIO := 6; ESRCH := 3; ENODEV := 19 |}.

(** A C string is the list of its characters before the terminating
    NUL. *)
Definition strnlen (s : list ascii) (maxlen : Z) : Z :=
  Z.min (Z.of_nat (length s)) maxlen.

(** [strncmp(a, b, n) == 0]. *)
Definition strncmp_eq (a b : list ascii) (n : Z) : bool :=
  bool_decide (take (Z.to_nat n) a = take (Z.to_nat n) b).

(** What [strlcpy(dst, src, size)] leaves in [dst]. *)
Definition strlcpy (src : list ascii) (size : Z) : list ascii :=
  take (Z.to_nat (size - 1)) src.

(** [struct devops]: the routines of a driver, null pointers or
    functions of the device and the arguments. The routines are the
    drivers' and are taken to leave the device list alone; [read] and
    [write] also give the count they store through [count]. *)
Record devops : Type := {
  open : option (Z -> Z -> Z);
  close : option (Z -> Z);
  read : option (Z -> Z -> Z -> Z -> Z * Z);
  write : option (Z -> Z -> Z -> Z -> Z * Z);
  ioctl : option (Z -> Z -> Z -> Z);
  devctl : option (Z -> Z -> Z -> Z)
}.

(** [struct driver]. *)
Record driver : Type := {
  drv_name : list ascii;
  drv_devops : devops;
  devsz : Z;
  drv_flags : Z
}.

(** [struct device], without [next]: the list of all devices is the
    list of the device objects with their addresses, head first. *)
Record device : Type := mk_device {
  dev_driver : driver;
  name : list ascii;
  flags : Z;
  active : Z;
  refcnt : Z;
  private : option Z
}.

Definition set_refcnt (n : Z) (d : device) : device :=
  mk_device (dev_driver d) (name d) (flags d) (active d) n (private d).

Abbreviation device_list_t := (list (Z * device)).

(** [struct devinfo]. *)
Record devinfo : Type := mk_devinfo {
  cookie : Z;
  info_id : option Z;
  info_flags : Z;
  info_name : list ascii
}.

(** [enodev] and [nullop], and the [no_*] routines device.h makes of
    them. *)
Definition enodev (eh : errno_h) : Z := ENODEV eh.
Definition nullop : Z := 0.
Definition no_open : Z -> Z -> Z := fun _ _ => nullop.
Definition no_close : Z -> Z := fun _ => nullop.
Definition no_read (eh : errno_h) : Z -> Z -> Z -> Z -> Z * Z :=
  fun _ _ count _ => (enodev eh, count).
Definition no_write (eh : errno_h) : Z -> Z -> Z -> Z -> Z * Z :=
  fun _ _ count _ => (enodev eh, count).
Definition no_ioctl (eh : errno_h) : Z -> Z -> Z -> Z := fun _ _ _ => enodev eh.
Definition no_devctl : Z -> Z -> Z -> Z := fun _ _ _ => nullop.

(** The device object at address [dev], and an assignment to it. *)
Fixpoint deref (l : device_list_t) (dev : Z) : option device :=
  match l with
  | [] => None
  | (p, d) :: l' => if bool_decide (p = dev) then Some d else deref l' dev
  end.

Fixpoint assign (l : device_list_t) (dev : Z) (d' : device) : device_list_t :=
  match l with
  | [] => []
  | (p, d) :: l' =>
      if bool_decide (p = dev) then (p, d') :: l' else (p, d) :: assign l' dev d'
  end.

(** [device_lookup]: the first device whose name agrees with [name] in
    the first [MAXDEVNAME] characters, or [NULL]. *)
Fixpoint device_lookup (l : device_list_t) (nm : list ascii) : option Z :=
  match l with
  | [] => None
  | (p, d) :: l' =>
      if strncmp_eq (name d) nm MAXDEVNAME then Some p else device_lookup l' nm
  end.

(** [device_create]. [drv] is [None] for a null pointer; [new_dev] and
    [new_private] are what the two calls of [malloc] return. *)
Definition device_create (l : device_list_t) (drv : option driver)
           (nm : list ascii) (fl : Z) (new_dev new_private : option Z)
  : outcome (option Z * device_list_t) :=
  match drv with
  | None => Panic "assert"
  | Some drv =>
      let len := strnlen nm MAXDEVNAME in
      if bool_decide (len = 0 \/ MAXDEVNAME <= len) then Done (None, l)
      else if bool_decide (device_lookup l nm <> None) then Panic "duplicate device"
      else
        match new_dev with
        | None => Panic "device_create"
        | Some dev =>
            let finish (priv : option Z) :=
              Done (Some dev,
                    (dev, {| dev_driver := drv; name := strlcpy nm (len + 1);
                             flags := fl; active := 1; refcnt := 1;
                             private := priv |}) :: l) in
            if bool_decide (devsz drv <> 0) then
              match new_private with
              | None => Panic "devsz"
              | Some priv => finish (Some priv)
              end
            else finish None
        end
  end.

(** [device_valid]: [dev] is on the list and active. *)
Fixpoint on_list (l : device_list_t) (dev : Z) : bool :=
  match l with
  | [] => false
  | (p, _) :: l' => if bool_decide (p = dev) then true else on_list l' dev
  end.

Definition device_valid (l : device_list_t) (dev : Z) : bool :=
  on_list l dev &&
  match deref l dev with
  | Some d => negb (bool_decide (active d = 0))
  | None => false
  end.

(** [device_reference]: the error and the list. *)
Definition device_reference (eh : errno_h) (l : device_list_t) (dev : Z)
  : Z * device_list_t :=
  if device_valid l dev then
    match deref l dev with
    | Some d => (0, assign l dev (set_refcnt (int_ (refcnt d + 1)) d))
    | None => (ENODEV eh, l)
    end
  else (ENODEV eh, l).

(** The unlinking loop of [device_release]: the first entry at [dev]
    leaves the list. *)
Fixpoint unlink (l : device_list_t) (dev : Z) : device_list_t :=
  match l with
  | [] => []
  | (p, d) :: l' => if bool_decide (p = dev) then l' else (p, d) :: unlink l' dev
  end.

(** [device_release]. It reads [dev->refcnt] unchecked. *)
Definition device_release (l : device_list_t) (dev : Z) : outcome device_list_t :=
  match deref l dev with
  | None => Wild
  | Some d =>
      let n := int_ (refcnt d - 1) in
      if bool_decide (0 < n) then Done (assign l dev (set_refcnt n d))
      else Done (unlink l dev)
  end.

(** The common course of [device_open], [device_close], [device_read],
    [device_write] and [device_ioctl] once the reference is taken:
    [assert] that the routine is there, call it, release the
    reference. *)
Definition with_routine {R A : Type} (l : device_list_t) (dev : Z)
           (routine : devops -> option R) (call : R -> A)
  : outcome (A * device_list_t) :=
  match deref l dev with
  | None => Wild
  | Some d =>
      match routine (drv_devops (dev_driver d)) with
      | None => Panic "assert"
      | Some f =>
          let a := call f in
          match device_release l dev with
          | Done l' => Done (a, l')
          | Panic msg => Panic msg
          | Wild => Wild
          end
      end
  end.

(** [device_open]: the error, what [*devp] holds afterwards, the list. *)
Definition device_open (eh : errno_h) (l : device_list_t) (nm : list ascii)
           (mode : Z) (devp : option Z)
  : outcome (Z * option Z * device_list_t) :=
  match device_lookup l nm with
  | None => Done (ENXIO eh, devp, l)
  | Some dev =>
      let '(error, l1) := device_reference eh l dev in
      if bool_decide (error <> 0) then Done (error, devp, l1)
      else
        match with_routine l1 dev open (fun f => f dev mode) with
        | Done (error, l2) => Done (error, Some dev, l2)
        | Panic msg => Panic msg
        | Wild => Wild
        end
  end.

(** [device_close]. *)
Definition device_close (eh : errno_h) (l : device_list_t) (dev : Z)
  : outcome (Z * device_list_t) :=
  let '(error, l1) := device_reference eh l dev in
  if bool_decide (error <> 0) then Done (error, l1)
  else with_routine l1 dev close (fun f => f dev).

(** [device_read] and [device_write]: the error with the count behind
    [count], and the list. *)
Definition device_read (eh : errno_h) (l : device_list_t) (dev buf count blkno : Z)
  : outcome (Z * Z * device_list_t) :=
  let '(error, l1) := device_reference eh l dev in
  if bool_decide (error <> 0) then Done (error, count, l1)
  else with_routine l1 dev read (fun f => f dev buf count blkno).

Definition device_write (eh : errno_h) (l : device_list_t) (dev buf count blkno : Z)
  : outcome (Z * Z * device_list_t) :=
  let '(error, l1) := device_reference eh l dev in
  if bool_decide (error <> 0) then Done (error, count, l1)
  else with_routine l1 dev write (fun f => f dev buf count blkno).

(** [device_ioctl]. *)
Definition device_ioctl (eh : errno_h) (l : device_list_t) (dev cmd arg : Z)
  : outcome (Z * device_list_t) :=
  let '(error, l1) := device_reference eh l dev in
  if bool_decide (error <> 0) then Done (error, l1)
  else with_routine l1 dev ioctl (fun f => f dev cmd arg).

(** The loop of [device_info], at the device counted [i]. *)
Fixpoint device_info_loop (eh : errno_h) (l : device_list_t) (i target : Z)
         (info : devinfo) : Z * devinfo :=
  match l with
  | [] => (ESRCH eh, info)
  | (p, d) :: l' =>
      if bool_decide (i = target)
      then (0, mk_devinfo (ulong (i + 1)) (Some p) (flags d)
                          (strlcpy (name d) MAXDEVNAME))
      else device_info_loop eh l' (ulong (i + 1)) target info
  end.

(** [device_info]: the error and [*info] afterwards. *)
Definition device_info (eh : errno_h) (l : device_list_t) (info : devinfo)
  : Z * devinfo :=
  device_info_loop eh l 0 (cookie info) info.
(** Device names as [device_create] stores them: 1 to 11 characters. *)
Definition names_ok (l : device_list_t) : Prop :=
  Forall (fun pd => 1 <= Z.of_nat (length (name pd.2)) < MAXDEVNAME) l.

(** Devices as [device_create] makes them and the public routines keep
    them: active, with a reference count that can go up and down by
    one. *)
Definition counts_ok (l : device_list_t) : Prop :=
  Forall (fun pd => active pd.2 <> 0 /\ 1 <= refcnt pd.2 < 2 ^ 31 - 1) l.

End devfs.


(** * The directory streams of libc/dir.cc *)

Module dir.

(** [struct __dirstream]. *)
Record DIR : Type := mk_DIR { fd : Z }.

(** The [static] variables of [readdir] and [errno]. *)
Record readdir_state (dirent : Type) : Type := mk_state {
  entry : dirent;
  result : bool;
  errno : Z
}.
Arguments mk_state {dirent} entry result errno.
Arguments entry {dirent} r.
Arguments result {dirent} r.
Arguments errno {dirent} r.

(** The streams that [new] made and [delete] has not taken, by address,
    and the descriptors handed to [close], in order. *)
Record world : Type := mk_world {
  streams : gmap Z DIR;
  closed : list Z
}.

Section Dir.
(** Outside the sources: [struct dirent]; [ll_readdir], which gives its
    return value and what it leaves in [*d]; [open], which gives a
    descriptor or a negative value; the flag [O_RDONLY]. *)
Variable dirent : Type.
Variable ll_readdir : Z -> dirent -> Z * dirent.
Variable open : list ascii -> Z -> Z.
Variable O_RDONLY : Z.

(** [opendir]. [new DIR] gives the address [dir]; it does not return
    null. The stream or [NULL], and the world. *)
Definition opendir (dir : Z) (path : list ascii) (w : world) : option Z * world :=
  let fd := int_ (open path O_RDONLY) in
  let w1 := mk_world (<[dir := mk_DIR fd]> (streams w)) (closed w) in
  if bool_decide (fd < 0)
  then (None, mk_world (delete dir (streams w1)) (closed w1))
  else (Some dir, w1).

(** [closedir]: [None] where [dir] is no stream. *)
Definition closedir (dir : Z) (w : world) : option (Z * world) :=
  d ← streams w !! dir;
  Some (0, mk_world (delete dir (streams w)) (closed w ++ [fd d])).

(** [readdir_r]: the return value, [*entry] afterwards, and whether
    [*result] is [entry] (or [NULL]). *)
Definition readdir_r (dir : DIR) (e : dirent) : Z * dirent * bool :=
  let '(ret, e') := ll_readdir (fd dir) e in
  (0, e', bool_decide (int_ ret = 0)).

(** [readdir]: the entry behind the pointer returned, [None] for
    [NULL], and the static variables and [errno] afterwards.
    [libc_error_ptr] of libc.hh stores the error in [errno] and gives
    [NULL]. *)
Definition readdir (dir : DIR) (st : readdir_state dirent)
  : option dirent * readdir_state dirent :=
  let '(ret, e', res) := readdir_r dir (entry st) in
  if bool_decide (ret <> 0) then (None, mk_state e' res ret)
  else ((if res then Some e' else None), mk_state e' res 0).
End Dir.
End dir.


(** * Fixtures of the further properties *)

(** The segment of [sg1]. *)
Definition node1 : sglist.sg_node := sglist.mk_node 0x1000 16.

Module devfs_fixtures.
Import devfs.

(** A driver without routines of its own, a device name, and a list
    that holds one device of this name at address 0x2000. *)
Definition ops0 : devops :=
  {| open := Some no_open; close := Some no_close;
     read := Some (no_read errno_std); write := Some (no_write errno_std);
     ioctl := Some (no_ioctl errno_std); devctl := Some no_devctl |}.

Definition drv0 : driver :=
  {| drv_name := String.list_ascii_of_string "null"; drv_devops := ops0; devsz := 0;
     drv_flags := 0 |}.

Definition vblk0 : list ascii := String.list_ascii_of_string "vblk0".
Definition vblk1 : list ascii := String.list_ascii_of_string "vblk1".

Definition dev0 : device :=
  {| dev_driver := drv0; name := vblk0; flags := 2; active := 1; refcnt := 1;
     private := None |}.

Definition devs1 : device_list_t := [(0x2000, dev0)].
End devfs_fixtures.


(** * Properties *)

(** ** Machine arithmetic *)

Lemma int_small x : - 2 ^ 31 <= x < 2 ^ 31 -> int_ x = x.
Proof. intros H. unfold int_. rewrite Z.mod_small; lia. Qed.

Lemma ulong_small x : 0 <= x < 2 ^ 64 -> ulong x = x.
Proof. apply Z.mod_small. Qed.

Lemma u32_small x : 0 <= x < 2 ^ 32 -> u32 x = x.
Proof. apply Z.mod_small. Qed.

Lemma u16_small x : 0 <= x < 2 ^ 16 -> u16 x = x.
Proof. apply Z.mod_small. Qed.

Lemma u16_range x : is_u16 (u16 x).
Proof. unfold is_u16, u16. pose proof (Z.mod_pos_bound x (2 ^ 16)). lia. Qed.

Lemma pow2_ulong_bounds a : pow2_ulong a -> 1 <= a <= 2 ^ 63.
Proof.
  intros (k & Hk & ->). split.
  - pose proof (Z.pow_pos_nonneg 2 k). lia.
  - apply Z.pow_le_mono_r; lia.
Qed.

(** [y & ~(align - 1)] in [unsigned long] clears the bits below a power
    of two [align]. *)
Lemma land_not_pow2 y k :
  0 <= y < 2 ^ 64 -> 0 <= k < 64 ->
  Z.land y (ulong (Z.lnot (ulong (2 ^ k - 1)))) = y / 2 ^ k * 2 ^ k.
Proof.
  intros Hy Hk.
  assert (Hp : 1 <= 2 ^ k <= 2 ^ 63).
  { apply pow2_ulong_bounds. exists k. split; [lia | reflexivity]. }
  rewrite (ulong_small (2 ^ k - 1)) by lia.
  unfold ulong. rewrite <- (Z.land_ones _ 64) by lia.
  rewrite Z.land_assoc, (Z.land_comm y), <- Z.land_assoc.
  rewrite Z.land_ones by lia.
  rewrite (Z.mod_small y) by lia.
  replace (2 ^ k - 1) with (Z.ones k) by (rewrite Z.ones_equiv; lia).
  rewrite Z.land_comm, <- Z.ldiff_land, Z.ldiff_ones_r by lia.
  rewrite Z.shiftr_div_pow2, Z.shiftl_mul_pow2 by lia. reflexivity.
Qed.

Lemma round_down_bounds y a : 0 < a -> y - a < y / a * a <= y.
Proof.
  intros Ha. pose proof (Z.div_mod y a). pose proof (Z.mod_pos_bound y a). lia.
Qed.

Section LayoutFacts.
Variable hh : virtio_hh.
Hypothesis Hwf : wf_hh hh.

Local Ltac sizes :=
  pose proof (wf_sizeof_desc hh Hwf); pose proof (wf_sizeof_used_elem hh Hwf).

Lemma round_up_ge x a : 0 < a -> x <= round_up x a < x + a.
Proof. intros Ha. unfold round_up. pose proof (round_down_bounds (x + a - 1) a Ha). lia. Qed.

Lemma round_up_mono x1 x2 a : 0 < a -> x1 <= x2 -> round_up x1 a <= round_up x2 a.
Proof.
  intros Ha Hx. unfold round_up.
  apply Z.mul_le_mono_nonneg_r; [lia |]. apply Z.div_le_mono; lia.
Qed.

Lemma layout_size_mono num1 num2 a :
  0 < a -> 0 <= num1 <= num2 -> layout_size hh num1 a <= layout_size hh num2 a.
Proof.
  intros Ha Hn. sizes.
  unfold layout_size, used_bytes, desc_bytes, avail_bytes, sizeof_u16.
  pose proof (round_up_mono (sizeof_vring_desc hh * num1 + 2 * (3 + num1))
                (sizeof_vring_desc hh * num2 + 2 * (3 + num2)) a Ha).
  nia.
Qed.

(** Where the layout fits the [unsigned] return type, no intermediate
    result of [get_size] wraps. *)
Lemma used_offset_exact num a :
  0 <= num -> pow2_ulong a -> layout_size hh num a < 2 ^ 32 ->
  used_offset hh num a = round_up (desc_bytes hh num + avail_bytes num) a.
Proof.
  intros Hn Ha Hfit. sizes. pose proof (pow2_ulong_bounds a Ha) as Hab.
  destruct Ha as (k & Hk & ->).
  unfold layout_size, used_bytes, desc_bytes, avail_bytes, sizeof_u16 in *.
  pose proof (round_up_ge (sizeof_vring_desc hh * num + 2 * (3 + num)) (2 ^ k)
                ltac:(lia)) as Hr.
  assert (Hnum : num < 2 ^ 32 - 6) by nia.
  unfold used_offset, sizeof_u16.
  rewrite (u32_small (3 + num)) by lia.
  rewrite (ulong_small (sizeof_vring_desc hh * num)) by nia.
  rewrite (ulong_small (2 * (3 + num))) by lia.
  rewrite (ulong_small (sizeof_vring_desc hh * num + _)) by nia.
  rewrite (ulong_small (_ + 2 ^ k)) by nia.
  rewrite (ulong_small (_ - 1)) by nia.
  rewrite land_not_pow2 by nia.
  unfold round_up. repeat f_equal; lia.
Qed.

Lemma get_size_exact num a :
  0 <= num -> pow2_ulong a -> layout_size hh num a < 2 ^ 32 ->
  get_size hh num a = layout_size hh num a.
Proof.
  intros Hn Ha Hfit. sizes. unfold get_size.
  rewrite used_offset_exact by assumption.
  pose proof (pow2_ulong_bounds a Ha) as Hab.
  unfold layout_size, used_bytes, desc_bytes, avail_bytes, sizeof_u16 in *.
  pose proof (round_up_ge (sizeof_vring_desc hh * num + 2 * (3 + num)) a
                ltac:(lia)) as Hr.
  assert (0 <= sizeof_vring_desc hh * num) by nia.
  assert (0 <= sizeof_vring_used_elem hh * num) by nia.
  rewrite (ulong_small (2 * 3)) by lia.
  rewrite (ulong_small (sizeof_vring_used_elem hh * num)) by lia.
  rewrite (ulong_small (_ + 2 * 3)) by lia.
  rewrite (ulong_small (_ + sizeof_vring_used_elem hh * num)) by lia.
  rewrite u32_small by lia. lia.
Qed.
End LayoutFacts.

Lemma wf_virtio_std : wf_hh virtio_std.
Proof. split; cbn; lia. Qed.

Lemma queue4_constructed :
  vring_ctor virtio_std (malloc_ok 0x100000) 7 4 0 = Some queue4.
Proof. vm_compute. reflexivity. Qed.

(** ** Notification suppression *)

(** C1: for all 16-bit [event_idx], [new_idx] and [old], [need_event]
    is nonzero exactly when (new_idx - event_idx - 1) mod 2^16 is below
    (new_idx - old) mod 2^16, the [int] promotions of the C expression
    changing nothing; at event_idx = 0xFFFE, old = 0xFFFE, new_idx = 1,
    across the 16-bit boundary, it answers 1 (2 < 3). *)
Theorem need_event_wraparound (event_idx new_idx old : Z) :
  is_u16 event_idx -> is_u16 new_idx -> is_u16 old ->
  (need_event event_idx new_idx old <> 0 <->
   (new_idx - event_idx - 1) mod 2 ^ 16 < (new_idx - old) mod 2 ^ 16) /\
  (need_event event_idx new_idx old = 0 \/ need_event event_idx new_idx old = 1) /\
  need_event 0xFFFE 0x0001 0xFFFE = 1.
Proof.
  unfold is_u16. intros He Hn Ho. unfold need_event, u16.
  rewrite (int_small (new_idx - event_idx)) by lia.
  rewrite (int_small (new_idx - event_idx - 1)) by lia.
  rewrite (int_small (new_idx - old)) by lia.
  split; [| split; [| reflexivity]].
  - destruct (Z.ltb_spec ((new_idx - event_idx - 1) mod 2 ^ 16)
                         ((new_idx - old) mod 2 ^ 16)); cbn; lia.
  - destruct (_ <? _); cbn; lia.
Qed.

Lemma need_event_wraparound_witness :
  is_u16 0xFFFE /\ is_u16 0x0001 /\
  (need_event 0xFFFE 0x0001 0xFFFE <> 0 <->
   (0x0001 - 0xFFFE - 1) mod 2 ^ 16 < (0x0001 - 0xFFFE) mod 2 ^ 16).
Proof.
  assert (H1 : is_u16 0xFFFE) by (unfold is_u16; lia).
  assert (H2 : is_u16 0x0001) by (unfold is_u16; lia).
  split; [exact H1 |]. split; [exact H2 |].
  exact (proj1 (need_event_wraparound 0xFFFE 0x0001 0xFFFE H1 H2 H1)).
Defined.

(** ** Layout *)

(** C5 (as stated) fails where the layout does not fit the 32-bit return
    type: for num = 1 and align = 2^32 the formula gives 2^32 + 14 and
    [get_size] 14. *)
Lemma get_size_formula_counterexample :
  wf_hh virtio_std /\ is_u32 1 /\ pow2_ulong (2 ^ 32) /\
  get_size virtio_std 1 (2 ^ 32) = 14 /\
  layout_size virtio_std 1 (2 ^ 32) = 2 ^ 32 + 14 /\
  get_size virtio_std 1 (2 ^ 32) <> layout_size virtio_std 1 (2 ^ 32).
Proof.
  split; [exact wf_virtio_std |]. split; [unfold is_u32; lia |].
  split; [exists 32; split; [lia | reflexivity] |].
  split; [reflexivity |]. split; [reflexivity |].
  vm_compute. discriminate.
Qed.

(** C5 (amended): for every queue size [num] and power-of-two [align]
    whose layout round_up(desc_bytes + avail_bytes, align) + used_bytes is
    below 2^32, [get_size num align] is that number; desc_bytes is [num]
    descriptors, avail_bytes (3 + num) u16 fields, used_bytes 3 u16 fields
    and [num] used elements. *)
Theorem get_size_formula (hh : virtio_hh) (num align : Z) :
  wf_hh hh -> is_u32 num -> pow2_ulong align ->
  layout_size hh num align < 2 ^ 32 ->
  get_size hh num align
  = round_up (desc_bytes hh num + avail_bytes num) align + used_bytes hh num /\
  desc_bytes hh num = sizeof_vring_desc hh * num /\
  avail_bytes num = sizeof_u16 * (3 + num) /\
  used_bytes hh num = sizeof_u16 * 3 + sizeof_vring_used_elem hh * num.
Proof.
  intros Hwf [Hn _] Ha Hfit. split; [| repeat split].
  rewrite get_size_exact by assumption. reflexivity.
Qed.

Lemma get_size_formula_witness :
  wf_hh virtio_std /\ is_u32 256 /\ pow2_ulong 4096 /\
  layout_size virtio_std 256 4096 < 2 ^ 32 /\
  get_size virtio_std 256 4096 = 10246.
Proof.
  assert (Hn : is_u32 256) by (unfold is_u32; lia).
  assert (Ha : pow2_ulong 4096) by (exists 12; split; [lia | reflexivity]).
  assert (Hfit : layout_size virtio_std 256 4096 < 2 ^ 32) by (vm_compute; reflexivity).
  split; [exact wf_virtio_std |]. split; [exact Hn |]. split; [exact Ha |].
  split; [exact Hfit |].
  exact (eq_trans (proj1 (get_size_formula virtio_std 256 4096 wf_virtio_std Hn Ha Hfit))
                  eq_refl).
Defined.

(** ** Arrays of the region *)

Lemma load_Some_bounds {A} (a : list A) i x :
  load a i = Some x -> 0 <= i < Z.of_nat (length a).
Proof.
  unfold load. case_bool_decide as Hi; [| discriminate].
  intros Hx%lookup_lt_Some. lia.
Qed.

Lemma load_None_ge {A} (a : list A) i : Z.of_nat (length a) <= i -> load a i = None.
Proof.
  intros H. unfold load. case_bool_decide; [| reflexivity].
  apply lookup_ge_None_2. lia.
Qed.

Lemma load_seqZ m n i : 0 <= i < n -> load (seqZ m n) i = Some (m + i).
Proof.
  intros H. unfold load. rewrite bool_decide_eq_true_2 by lia.
  rewrite lookup_seqZ_lt by lia. f_equal. lia.
Qed.

Lemma load_replicate {A} n (x : A) i :
  0 <= i < Z.of_nat n -> load (replicate n x) i = Some x.
Proof.
  intros H. unfold load. rewrite bool_decide_eq_true_2 by lia.
  apply lookup_replicate_2. lia.
Qed.

Lemma store_in_range {A} (a : list A) i x :
  0 <= i < Z.of_nat (length a) -> store a i x = Some (<[Z.to_nat i := x]> a).
Proof. intros H. unfold store. rewrite bool_decide_eq_true_2 by lia. reflexivity. Qed.

Lemma store_Some_inv {A} (a a' : list A) i x :
  store a i x = Some a' ->
  0 <= i < Z.of_nat (length a) /\ a' = <[Z.to_nat i := x]> a.
Proof.
  unfold store. case_bool_decide; [| discriminate]. intros [= <-]. auto.
Qed.

Lemma load_insert {A} (a : list A) i j x :
  0 <= i < Z.of_nat (length a) ->
  load (<[Z.to_nat i := x]> a) j = if decide (j = i) then Some x else load a j.
Proof.
  intros Hi. unfold load. case_decide as Hj.
  - subst j. rewrite bool_decide_eq_true_2 by lia.
    apply list_lookup_insert_eq. lia.
  - case_bool_decide; [| reflexivity].
    apply list_lookup_insert_ne. lia.
Qed.

Lemma load_is_Some {A} (a : list A) i :
  0 <= i < Z.of_nat (length a) -> exists x, load a i = Some x.
Proof.
  intros H. unfold load. rewrite bool_decide_eq_true_2 by lia.
  apply lookup_lt_is_Some_2. lia.
Qed.

(** ** The constructor *)

(** The loop of the constructor turns the zero-filled ring array into
    1, 2, ..., num. *)
Lemma init_ring_seqZ (n i : nat) :
  Z.of_nat (i + n) < 2 ^ 16 ->
  init_ring n (Z.of_nat i) (seqZ 1 (Z.of_nat i) ++ replicate n 0)
  = Some (seqZ 1 (Z.of_nat (i + n))).
Proof.
  revert i. induction n as [| n IH]; intros i Hlt.
  - cbn. rewrite app_nil_r, Nat.add_0_r. reflexivity.
  - cbn [init_ring].
    rewrite store_in_range
      by (rewrite length_app, length_seqZ, length_replicate; lia).
    cbn [mbind option_bind].
    rewrite int_small, u16_small by lia.
    replace (Z.to_nat (Z.of_nat i))
      with (length (seqZ 1 (Z.of_nat i)) + 0)%nat
      by (rewrite length_seqZ; lia).
    rewrite insert_app_r. cbn [replicate insert list_insert].
    replace (Z.of_nat i + 1) with (Z.of_nat (S i)) by lia.
    rewrite cons_middle, app_assoc.
    replace (seqZ 1 (Z.of_nat i) ++ [Z.of_nat (S i)]) with (seqZ 1 (Z.of_nat (S i)))
      by (rewrite seqZ_S; f_equal; f_equal; lia).
    rewrite IH by lia. do 2 f_equal. lia.
Qed.

Lemma init_ring_zeroed (num : Z) :
  is_u16 num ->
  init_ring (Z.to_nat num) 0 (replicate (Z.to_nat num) 0) = Some (seqZ 1 num).
Proof.
  intros [H0 H1].
  pose proof (init_ring_seqZ (Z.to_nat num) 0) as H.
  change (Z.of_nat 0) with 0 in H. rewrite (seqZ_nil 1 0) in H by lia.
  cbn [app Nat.add] in H. rewrite H by lia. do 2 f_equal. lia.
Qed.

(** With the allocation done, the constructor completes, whatever [num]. *)
Lemma vring_ctor_Some hh malloc drv num q_index p :
  is_u16 num ->
  malloc (u32 (VIRTIO_ALIGN hh (get_size hh num (VIRTIO_PCI_VRING_ALIGN hh)))) = Some p ->
  exists v,
    vring_ctor hh malloc drv num q_index = Some v /\
    _num v = num /\
    desc_mem v = replicate (Z.to_nat num) vring_desc.zero /\
    avail_mem v = vring_avail.mk 0 0 (seqZ 1 num) /\
    used_mem v = vring_used.mk 0 0 (replicate (Z.to_nat num) vring_used_elem.zero).
Proof.
  intros Hnum Hm. unfold vring_ctor. rewrite Hm. cbn [mbind option_bind].
  rewrite init_ring_zeroed by assumption. cbn [mbind option_bind].
  eexists. split; [reflexivity |]. cbn. auto.
Qed.

(** C8 (as stated) fails: the constructor accepts the queue sizes 0 and
    3, neither a power of two; the vring of size 3 it makes takes a
    submission. *)
Lemma vring_ctor_validation_counterexample :
  is_power_of_two 0 = false /\ is_power_of_two 3 = false /\
  (exists v, vring_ctor virtio_std (malloc_ok 0x100000) 7 0 0 = Some v /\ _num v = 0) /\
  (exists v v',
     vring_ctor virtio_std (malloc_ok 0x100000) 7 3 0 = Some v /\ _num v = 3 /\
     vring_avail._ring (avail_mem v) = [1; 2; 3] /\
     add_buf virtio_std v sg1 1 0 99 = Some (true, v')).
Proof.
  split; [reflexivity |]. split; [reflexivity |]. split.
  - eexists. split; vm_compute; reflexivity.
  - do 2 eexists. split; [vm_compute; reflexivity |].
    split; [reflexivity |]. split; vm_compute; reflexivity.
Qed.

(** C8 (amended): the constructor does not examine [num]: for every
    16-bit queue size, zero and the sizes that are no power of two among
    them, it completes once the backing region is allocated, and yields a
    vring of that size on that region. *)
Theorem vring_ctor_any_num hh malloc drv num q_index p :
  is_u16 num ->
  malloc (u32 (VIRTIO_ALIGN hh (get_size hh num (VIRTIO_PCI_VRING_ALIGN hh)))) = Some p ->
  exists v,
    vring_ctor hh malloc drv num q_index = Some v /\
    _num v = num /\ _vring_ptr v = p /\ _desc v = p /\
    _drv v = drv /\ _q_index v = q_index /\
    Z.of_nat (length (desc_mem v)) = num /\
    Z.of_nat (length (vring_avail._ring (avail_mem v))) = num /\
    Z.of_nat (length (vring_used._ring (used_mem v))) = num.
Proof.
  intros Hnum Hm. pose proof Hnum as [H0 H1].
  unfold vring_ctor. rewrite Hm. cbn [mbind option_bind].
  rewrite init_ring_zeroed by assumption. cbn [mbind option_bind].
  eexists. split; [reflexivity |]. cbn.
  rewrite !length_replicate, length_seqZ. repeat split; lia.
Qed.

Lemma vring_ctor_any_num_witness :
  is_u16 3 /\
  exists v, vring_ctor virtio_std (malloc_ok 0x100000) 7 3 0 = Some v /\ _num v = 3.
Proof.
  assert (Hnum : is_u16 3) by (unfold is_u16; lia).
  split; [exact Hnum |].
  destruct (vring_ctor_any_num virtio_std (malloc_ok 0x100000) 7 3 0 0x100000
              Hnum eq_refl) as (v & Hv & Hn & _).
  exists v. split; [exact Hv | exact Hn].
Defined.

(** ** Submission *)




Section AddBufFacts.
Variable hh : virtio_hh.

Lemma add_buf_body_step num k v node i in_ :
  cur_inv num k v -> 0 <= k -> k + 1 < num -> num < 2 ^ 16 ->
  exists v1,
    add_buf_body hh node i in_ (k + 1) v = Some (k + 2, v1) /\
    cur_inv num (k + 1) v1 /\
    used_mem v1 = used_mem v /\
    desc_mem v1 = <[Z.to_nat (k + 1) := chain_desc hh in_ i (k + 1) node]> (desc_mem v).
Proof.
  intros [Hn Hr Hd Hk] H0 H1 H2. unfold add_buf_body.
  destruct (load_is_Some (desc_mem v) (k + 1) ltac:(lia)) as [d ->].
  cbn [mbind option_bind]. rewrite Hr, Hk, load_seqZ by lia.
  cbn [mbind option_bind]. rewrite store_in_range by lia.
  cbn [mbind option_bind]. cbn. rewrite Hr, load_seqZ by lia.
  cbn. replace (1 + (1 + k)) with (k + 2) by lia.
  replace (1 + k) with (k + 1) by lia.
  eexists. split; [reflexivity |]. split; [| split; reflexivity].
  split; cbn; rewrite ?length_insert, ?Hk; try assumption.
  rewrite u16_small; lia.
Qed.

Lemma add_buf_body_none num k v node i in_ :
  cur_inv num k v -> 0 <= k -> num <= k + 1 ->
  add_buf_body hh node i in_ (k + 1) v = None.
Proof.
  intros [Hn Hr Hd Hk] H0 H1. unfold add_buf_body.
  rewrite (load_None_ge (desc_mem v)) by lia. reflexivity.
Qed.

Lemma add_buf_loop_none num ii : forall i in_ out k v,
  cur_inv num k v -> 0 <= k -> num < 2 ^ 16 ->
  0 < in_ + out - i -> num <= k + (in_ + out - i) ->
  add_buf_loop hh ii i in_ out (k + 1) v = None.
Proof.
  induction ii as [| node ii IH]; intros i in_ out k v Hv H0 Hnum Hpos Hge;
    cbn [add_buf_loop]; rewrite bool_decide_eq_true_2 by lia; [reflexivity |].
  destruct (decide (k + 1 < num)) as [Hlt | Hlt].
  - destruct (add_buf_body_step num k v node i in_ Hv H0 Hlt Hnum)
      as (v1 & -> & Hv1 & _).
    cbn [mbind option_bind].
    replace (k + 2) with (k + 1 + 1) by lia. apply (IH _ _ _ _ _ Hv1); lia.
  - rewrite (add_buf_body_none num k v) by (assumption || lia). reflexivity.
Qed.

Lemma add_buf_loop_some num ii : forall i in_ out k v,
  cur_inv num k v -> 0 <= k -> num < 2 ^ 16 ->
  in_ + out - i <= Z.of_nat (length ii) ->
  in_ + out - i <= 0 \/ k + (in_ + out - i) < num ->
  exists v',
    add_buf_loop hh ii i in_ out (k + 1) v
    = Some (k + 1 + Z.max 0 (in_ + out - i), v') /\
    cur_inv num (k + Z.max 0 (in_ + out - i)) v' /\
    used_mem v' = used_mem v /\
    (forall j node, ii !! j = Some node -> Z.of_nat j < in_ + out - i ->
       load (desc_mem v') (k + 1 + Z.of_nat j)
       = Some (chain_desc hh in_ (i + Z.of_nat j) (k + 1 + Z.of_nat j) node)) /\
    (forall s, ~ k + 1 <= s <= k + (in_ + out - i) ->
       load (desc_mem v') s = load (desc_mem v) s).
Proof.
  induction ii as [| node ii IH]; intros i in_ out k v Hv H0 Hnum Hlen Hfit;
    cbn [add_buf_loop]; case_bool_decide as Hi.
  - cbn in Hlen. lia.
  - exists v. rewrite Z.max_l, !Z.add_0_r by lia.
    repeat split; try apply Hv. intros j node Hj. lia.
  - destruct (add_buf_body_step num k v node i in_ Hv H0 ltac:(lia) Hnum)
      as (v1 & -> & Hv1 & Hu1 & Hd1).
    cbn [mbind option_bind]. cbn [length] in Hlen.
    destruct (IH (i + 1) in_ out (k + 1) v1 Hv1 ltac:(lia) Hnum ltac:(lia) ltac:(lia))
      as (v' & Hl & Hv' & Hu' & Hch & Hoth).
    exists v'. replace (k + 2) with (k + 1 + 1) by lia. rewrite Hl.
    rewrite (Z.max_r 0 (in_ + out - i)) by lia.
    split; [do 2 f_equal; lia |].
    split; [replace (k + (in_ + out - i)) with (k + 1 + Z.max 0 (in_ + out - (i + 1))) by lia;
            exact Hv' |].
    split; [congruence |]. split.
    + intros [| j] nd Hj Hjn.
      * cbn in Hj. injection Hj as <-.
        rewrite Hoth by lia. rewrite Hd1, load_insert by (destruct Hv; lia).
        rewrite decide_True by lia. do 2 f_equal; lia.
      * cbn in Hj. specialize (Hch j nd Hj ltac:(lia)).
        replace (k + 1 + Z.of_nat (S j)) with (k + 1 + 1 + Z.of_nat j) by lia.
        rewrite Hch. do 2 f_equal; lia.
    + intros s Hs. rewrite Hoth by lia. rewrite Hd1, load_insert by (destruct Hv; lia).
      rewrite decide_False by lia. reflexivity.
  - exists v. rewrite Z.max_l, !Z.add_0_r by lia.
    repeat split; try apply Hv. intros j nd Hj. lia.
Qed.
End AddBufFacts.

Lemma ring_inv_cur v :
  ring_inv v -> cur_inv (_num v) (vring_avail._idx (avail_mem v)) v.
Proof. intros [? ? ? ?]. split; auto. Qed.

Lemma desc_flags_expr_write hh i in_ :
  wf_hh hh -> desc_flags_expr hh i in_ = VRING_DESC_F_WRITE hh.
Proof.
  intros Hwf. unfold desc_flags_expr. rewrite bool_decide_eq_false_2; [reflexivity |].
  intros [H _]%Z.lor_eq_0_iff. pose proof (wf_next hh Hwf). lia.
Qed.

Lemma free_walk_seqZ num fuel : forall s,
  0 <= s -> num - s <= Z.of_nat fuel ->
  free_walk fuel (seqZ 1 num) num s = seqZ s (num - s).
Proof.
  induction fuel as [| fuel IH]; intros s Hs Hf.
  - cbn. rewrite seqZ_nil by lia. reflexivity.
  - cbn [free_walk]. case_bool_decide as Hlt.
    + rewrite load_seqZ by lia. rewrite (seqZ_cons s) by lia. f_equal.
      rewrite IH by lia. f_equal; lia.
    + rewrite seqZ_nil by lia. reflexivity.
Qed.

Lemma free_list_inv v :
  ring_inv v ->
  free_list v = seqZ (vring_avail._idx (avail_mem v) + 1)
                     (_num v - 1 - vring_avail._idx (avail_mem v)).
Proof.
  intros [[Hn0 Hn1] Hr Hd [Hk0 Hk]]. unfold free_list. rewrite Hr.
  destruct (decide (vring_avail._idx (avail_mem v) < _num v)) as [Hlt | Hge].
  - rewrite load_seqZ by lia. rewrite length_seqZ, free_walk_seqZ by lia.
    f_equal; lia.
  - rewrite load_None_ge by (rewrite length_seqZ; lia).
    rewrite seqZ_nil by lia. reflexivity.
Qed.

Lemma free_count_inv v :
  ring_inv v ->
  free_count v = Z.max 0 (_num v - 1 - vring_avail._idx (avail_mem v)).
Proof.
  intros Hv. unfold free_count. rewrite free_list_inv, length_seqZ by assumption. lia.
Qed.

Lemma add_buf_loop_short hh ii : forall i in_ out desc v,
  Z.of_nat (length ii) < in_ + out - i ->
  add_buf_loop hh ii i in_ out desc v = None.
Proof.
  induction ii as [| node ii IH]; intros i in_ out desc v Hlen;
    cbn [add_buf_loop length] in *; rewrite bool_decide_eq_true_2 by lia;
    [reflexivity |].
  destruct (add_buf_body hh node i in_ desc v) as [[d1 v1] |]; [| reflexivity].
  cbn [mbind option_bind]. apply IH. lia.
Qed.

Section AddBufInv.
Variable hh : virtio_hh.

Lemma add_buf_inv_some v sg out in_ cookie :
  ring_inv v -> 0 <= out + in_ ->
  out + in_ <= Z.of_nat (length (sglist._nodes sg)) ->
  vring_avail._idx (avail_mem v) + (out + in_) + 1 < _num v ->
  exists v',
    add_buf hh v sg out in_ cookie = Some (true, v') /\
    ring_inv v' /\ _num v' = _num v /\ used_mem v' = used_mem v /\
    vring_avail._idx (avail_mem v') = vring_avail._idx (avail_mem v) + (out + in_) /\
    (forall j node, sglist._nodes sg !! j = Some node -> Z.of_nat j < out + in_ ->
       load (desc_mem v') (vring_avail._idx (avail_mem v) + 1 + Z.of_nat j)
       = Some (chain_desc hh in_ (Z.of_nat j)
                          (vring_avail._idx (avail_mem v) + 1 + Z.of_nat j) node)).
Proof.
  intros Hv Hn Hlen Hfit. pose proof (ring_inv_cur v Hv) as Hc.
  destruct Hv as [[Hn0 Hn1] Hr Hd [Hk0 Hk]].
  set (k := vring_avail._idx (avail_mem v)) in *.
  unfold add_buf. fold k. rewrite Hr, load_seqZ by lia. cbn [mbind option_bind].
  destruct (add_buf_loop_some hh (_num v) (sglist._nodes sg) 0 in_ out k v
              Hc Hk0 Hn1 ltac:(lia) ltac:(lia))
    as (v1 & Hl & [Hc1 Hc2 Hc3 Hc4] & Hu1 & Hch & Hoth).
  replace (1 + k) with (k + 1) by lia. rewrite Hl. cbn [mbind option_bind].
  rewrite Z.sub_0_r, Z.max_r in * by lia.
  destruct (load_is_Some (desc_mem v1) (k + 1 + (in_ + out)) ltac:(lia)) as [d Hd1].
  rewrite Hd1. cbn [mbind option_bind]. rewrite store_in_range by lia.
  cbn [mbind option_bind]. eexists. split; [reflexivity |]. cbn.
  split; [| split; [assumption | split; [assumption | split; [lia |]]]].
  - split; cbn; rewrite ?length_insert, ?Hc1, ?Hc4; try (assumption || lia).
    split; assumption.
  - intros j node Hj Hjn. rewrite load_insert by lia.
    rewrite decide_False by lia. rewrite (Hch j node Hj) by lia. reflexivity.
Qed.

Lemma add_buf_inv_none v sg out in_ cookie :
  ring_inv v -> 0 <= out + in_ ->
  ~ (out + in_ <= Z.of_nat (length (sglist._nodes sg)) /\
     vring_avail._idx (avail_mem v) + (out + in_) + 1 < _num v) ->
  add_buf hh v sg out in_ cookie = None.
Proof.
  intros Hv Hn Hnot. pose proof (ring_inv_cur v Hv) as Hc.
  destruct Hv as [[Hn0 Hn1] Hr Hd [Hk0 Hk]].
  set (k := vring_avail._idx (avail_mem v)) in *.
  unfold add_buf. fold k. rewrite Hr.
  destruct (decide (k < _num v)) as [Hlt | Hge];
    [| rewrite load_None_ge by (rewrite length_seqZ; lia); reflexivity].
  rewrite load_seqZ by lia. cbn [mbind option_bind].
  replace (1 + k) with (k + 1) by lia.
  destruct (decide (out + in_ <= Z.of_nat (length (sglist._nodes sg)))) as [Hlen | Hlen];
    [| rewrite add_buf_loop_short by lia; reflexivity].
  destruct (decide (0 < in_ + out - 0 /\ _num v <= k + (in_ + out - 0))) as [Hov | Hok].
  - rewrite (add_buf_loop_none hh (_num v)) by (assumption || lia). reflexivity.
  - destruct (add_buf_loop_some hh (_num v) (sglist._nodes sg) 0 in_ out k v
                Hc Hk0 Hn1 ltac:(lia) ltac:(lia))
      as (v1 & Hl & [Hc1 Hc2 Hc3 Hc4] & _).
    rewrite Hl. cbn [mbind option_bind].
    rewrite load_None_ge by lia. reflexivity.
Qed.

Lemma add_buf_inv_inv v sg out in_ cookie r v' :
  ring_inv v -> 0 <= out + in_ ->
  add_buf hh v sg out in_ cookie = Some (r, v') ->
  out + in_ <= Z.of_nat (length (sglist._nodes sg)) /\
  vring_avail._idx (avail_mem v) + (out + in_) + 1 < _num v /\
  r = true /\ ring_inv v' /\ _num v' = _num v /\
  vring_avail._idx (avail_mem v') = vring_avail._idx (avail_mem v) + (out + in_).
Proof.
  intros Hv Hn H.
  destruct (decide (out + in_ <= Z.of_nat (length (sglist._nodes sg)) /\
                    vring_avail._idx (avail_mem v) + (out + in_) + 1 < _num v))
    as [[Hlen Hfit] | Hnot].
  - destruct (add_buf_inv_some v sg out in_ cookie Hv Hn Hlen Hfit)
      as (v1 & Hs & Hv1 & Hn1 & _ & Hi1 & _).
    rewrite Hs in H. injection H as <- <-. auto 10.
  - rewrite add_buf_inv_none in H by assumption. discriminate.
Qed.
End AddBufInv.

Lemma outstanding_total_app cs1 cs2 :
  outstanding_total (cs1 ++ cs2) = outstanding_total cs1 + outstanding_total cs2.
Proof.
  induction cs1 as [| ch cs1 IH]; cbn [outstanding_total app]; [reflexivity |].
  rewrite IH. lia.
Qed.

Lemma outstanding_total_slots cs :
  outstanding_total cs = Z.of_nat (length (chain_slots cs)).
Proof.
  induction cs as [| ch cs IH]; [reflexivity |].
  unfold chain_slots in *. cbn [outstanding_total fmap list_fmap concat].
  rewrite length_app, IH. lia.
Qed.

Lemma chain_slots_snoc cs cookie slots :
  chain_slots (cs ++ [(cookie, slots)]) = chain_slots cs ++ slots.
Proof.
  unfold chain_slots. rewrite fmap_app, concat_app. cbn. rewrite app_nil_r. reflexivity.
Qed.

Lemma take_seqZ m n len :
  0 <= n <= len -> take (Z.to_nat n) (seqZ m len) = seqZ m n.
Proof.
  intros H. replace len with (n + (len - n)) by lia.
  rewrite seqZ_app by lia. apply take_app_length'. rewrite length_seqZ. reflexivity.
Qed.

Lemma vring_ctor_inv hh malloc drv num q_index p :
  is_u16 num ->
  malloc (u32 (VIRTIO_ALIGN hh (get_size hh num (VIRTIO_PCI_VRING_ALIGN hh)))) = Some p ->
  exists v, vring_ctor hh malloc drv num q_index = Some v /\
            ring_inv v /\ _num v = num /\ vring_avail._idx (avail_mem v) = 0.
Proof.
  intros Hnum Hm.
  destruct (vring_ctor_Some hh malloc drv num q_index p Hnum Hm)
    as (v & Hv & Hn & Hd & Ha & Hu).
  exists v. split; [exact Hv |]. split; [| split; [exact Hn | rewrite Ha; reflexivity]].
  destruct Hnum. split; rewrite ?Hn, ?Ha, ?Hd, ?length_replicate; cbn;
    try (unfold is_u16; lia); auto.
Qed.

Section RunFacts.
Variable hh : virtio_hh.

(** The invariant of runs: the ring array is as constructed and the
    outstanding chains hold the slots 1, ..., [_idx], in this order. *)
Lemma step_inv v cs c v' cs' :
  ring_inv v -> chain_slots cs = seqZ 1 (vring_avail._idx (avail_mem v)) ->
  wf_call c -> step hh (v, cs) c = Some (v', cs') ->
  ring_inv v' /\ _num v' = _num v /\
  chain_slots cs' = seqZ 1 (vring_avail._idx (avail_mem v')) /\
  outstanding_total cs' = outstanding_total cs + submitted_total [c].
Proof.
  intros Hv Hcs Hc H. destruct c as [sg out in_ cookie | len]; cbn [step] in H.
  - destruct Hc as [[Ho _] [Hi _]].
    destruct (add_buf hh v sg out in_ cookie) as [[r v1] |] eqn:Ha; [| discriminate].
    cbn in H. injection H as <- <-.
    apply add_buf_inv_inv in Ha as (Hlen & Hfit & _ & Hv1 & Hn1 & Hi1);
      [| assumption | lia].
    pose proof Hv as [_ _ _ [Hk0 _]].
    assert (Htake : take (Z.to_nat (out + in_)) (free_list v)
                    = seqZ (vring_avail._idx (avail_mem v) + 1) (out + in_)).
    { rewrite free_list_inv by assumption. apply take_seqZ. lia. }
    split; [exact Hv1 |]. split; [exact Hn1 |]. split.
    + rewrite chain_slots_snoc, Hcs, Hi1, Htake.
      rewrite (seqZ_app 1) by lia. do 2 f_equal. lia.
    + rewrite outstanding_total_app, Htake.
      cbn [outstanding_total submitted_total snd].
      rewrite length_seqZ, Z2Nat.id by lia. reflexivity.
  - cbn in H. injection H as <- <-.
    split; [exact Hv |]. split; [reflexivity |]. split; [exact Hcs |].
    cbn [submitted_total]. lia.
Qed.

Lemma run_inv calls : forall v cs v' cs',
  ring_inv v -> chain_slots cs = seqZ 1 (vring_avail._idx (avail_mem v)) ->
  Forall wf_call calls -> run hh (v, cs) calls = Some (v', cs') ->
  ring_inv v' /\ _num v' = _num v /\
  chain_slots cs' = seqZ 1 (vring_avail._idx (avail_mem v')) /\
  outstanding_total cs' = outstanding_total cs + submitted_total calls.
Proof.
  induction calls as [| c calls IH]; intros v cs v' cs' Hv Hcs Hwf H.
  - cbn in H. injection H as <- <-.
    split; [exact Hv |]. split; [reflexivity |]. split; [exact Hcs |].
    cbn [submitted_total]. lia.
  - cbn [run] in H. destruct (step hh (v, cs) c) as [[v1 cs1] |] eqn:Hs; [| discriminate].
    cbn [mbind option_bind] in H. apply Forall_cons_1 in Hwf as [Hc Hwf].
    destruct (step_inv v cs c v1 cs1 Hv Hcs Hc Hs) as (Hv1 & Hn1 & Hcs1 & Ho1).
    destruct (IH v1 cs1 v' cs' Hv1 Hcs1 Hwf H) as (Hv' & Hn' & Hcs' & Ho').
    split; [exact Hv' |]. split; [congruence |]. split; [exact Hcs' |].
    rewrite Ho', Ho1. destruct c; cbn [submitted_total]; lia.
Qed.
End RunFacts.

(** The slots a submission takes from the head of the free list are the
    slots it writes its segments to, in order. *)
Lemma add_buf_writes_free_slots hh v sg out in_ cookie :
  ring_inv v -> 0 <= out + in_ ->
  out + in_ <= Z.of_nat (length (sglist._nodes sg)) ->
  vring_avail._idx (avail_mem v) + (out + in_) + 1 < _num v ->
  exists v',
    add_buf hh v sg out in_ cookie = Some (true, v') /\
    forall j node s,
      sglist._nodes sg !! j = Some node ->
      take (Z.to_nat (out + in_)) (free_list v) !! j = Some s ->
      load (desc_mem v') s = Some (chain_desc hh in_ (Z.of_nat j) s node).
Proof.
  intros Hv Hn Hlen Hfit.
  destruct (add_buf_inv_some hh v sg out in_ cookie Hv Hn Hlen Hfit)
    as (v' & Ha & _ & _ & _ & _ & Hch).
  exists v'. split; [exact Ha |]. intros j node s Hj Hs.
  pose proof Hv as [_ _ _ [Hk0 _]].
  rewrite free_list_inv, take_seqZ in Hs by (assumption || lia).
  apply lookup_seqZ in Hs as [-> Hjn]. apply Hch; assumption.
Qed.

Lemma add_buf_returns_true hh v sg out in_ cookie r v' :
  add_buf hh v sg out in_ cookie = Some (r, v') -> r = true.
Proof.
  unfold add_buf. intros H.
  destruct (load _ _) as [h |] in H; [| discriminate]. cbn [mbind option_bind] in H.
  destruct (add_buf_loop _ _ _ _ _ _ _) as [[d1 v1] |] in H; [| discriminate].
  cbn [mbind option_bind] in H.
  destruct (load _ _) as [d |] in H; [| discriminate]. cbn [mbind option_bind] in H.
  destruct (store _ _ _) as [m |] in H; [| discriminate].
  cbn in H. congruence.
Qed.

(** Every descriptor of a submitted chain carries exactly the WRITE flag
    and its own slot as [_next]. *)
Lemma add_buf_chain_all_write hh v sg out in_ cookie :
  wf_hh hh -> ring_inv v -> 0 <= out + in_ ->
  out + in_ <= Z.of_nat (length (sglist._nodes sg)) ->
  vring_avail._idx (avail_mem v) + (out + in_) + 1 < _num v ->
  exists v',
    add_buf hh v sg out in_ cookie = Some (true, v') /\
    forall j node, sglist._nodes sg !! j = Some node -> Z.of_nat j < out + in_ ->
      load (desc_mem v') (vring_avail._idx (avail_mem v) + 1 + Z.of_nat j)
      = Some (vring_desc.mk (ulong (sglist._paddr node)) (u32 (sglist._len node))
                            (VRING_DESC_F_WRITE hh)
                            (vring_avail._idx (avail_mem v) + 1 + Z.of_nat j)).
Proof.
  intros Hwf Hv Hn Hlen Hfit.
  destruct (add_buf_inv_some hh v sg out in_ cookie Hv Hn Hlen Hfit)
    as (v' & Ha & _ & _ & _ & _ & Hch).
  exists v'. split; [exact Ha |]. intros j node Hj Hjn.
  rewrite (Hch j node Hj Hjn). unfold chain_desc.
  rewrite desc_flags_expr_write by assumption.
  rewrite u16_small by (pose proof (wf_write hh Hwf); lia). reflexivity.
Qed.

(** C2 (the code at a failing input): on a fresh queue of 4, submitting
    the two-segment list with out = 1 and in = 1 returns true and leaves
    in the two slots of the chain the segments' addresses and lengths, in
    order, but flags = WRITE in both: segment 0, which is device-readable
    and not the last, has DEVICE_WRITABLE set and HAS_NEXT clear. *)
Theorem add_buf_chain_flags_evaluation :
  exists d0 d1,
    vring_ctor virtio_std (malloc_ok 0x100000) 7 4 0 = Some queue4 /\
    add_buf virtio_std queue4 sg2 1 1 cookie_A = Some (true, queue4_after_sg2) /\
    load (desc_mem queue4_after_sg2) 1 = Some d0 /\
    load (desc_mem queue4_after_sg2) 2 = Some d1 /\
    d0 = vring_desc.mk 0x1000 16 2 1 /\ d1 = vring_desc.mk 0x2000 32 2 2 /\
    has_flag d0 (VRING_DESC_F_WRITE virtio_std) = true /\
    has_flag d0 (VRING_DESC_F_NEXT virtio_std) = false /\
    has_flag d1 (VRING_DESC_F_WRITE virtio_std) = true /\
    has_flag d1 (VRING_DESC_F_NEXT virtio_std) = false.
Proof.
  do 2 eexists. split; [exact queue4_constructed |].
  split; [vm_compute; reflexivity |].
  split; [vm_compute; reflexivity |]. split; [vm_compute; reflexivity |].
  repeat split.
Qed.

Lemma session_inv hh malloc drv num q_index p calls v cs :
  is_u16 num ->
  malloc (u32 (VIRTIO_ALIGN hh (get_size hh num (VIRTIO_PCI_VRING_ALIGN hh)))) = Some p ->
  Forall wf_call calls ->
  session hh malloc drv num q_index calls = Some (v, cs) ->
  ring_inv v /\ _num v = num /\
  chain_slots cs = seqZ 1 (vring_avail._idx (avail_mem v)) /\
  outstanding_total cs = submitted_total calls.
Proof.
  intros Hnum Hm Hwf H. unfold session in H.
  destruct (vring_ctor_inv hh malloc drv num q_index p Hnum Hm)
    as (v0 & Hv0 & Hinv0 & Hn0 & Hi0).
  rewrite Hv0 in H. cbn [mbind option_bind] in H.
  apply run_inv in H as (Hinv & Hn & Hcs & Ho);
    [| assumption | rewrite Hi0; reflexivity | assumption].
  split; [exact Hinv |]. split; [congruence |]. split; [exact Hcs |].
  rewrite Ho. reflexivity.
Qed.

(** C7 (as stated) fails: on a queue of 4, after one single-segment
    submission the free list holds the slots 2 and 3 and the outstanding
    chain the slot 1: 2 + 1 is not 4, and slot 0 is in neither. *)
Lemma free_list_conservation_counterexample :
  session virtio_std (malloc_ok 0x100000) 7 4 0 [AddBuf sg1 1 0 cookie_A]
  = Some (queue4_after_sg1, [(cookie_A, [1])]) /\
  free_list queue4_after_sg1 = [2; 3] /\
  free_count queue4_after_sg1 + outstanding_total [(cookie_A, [1])] = 3 /\
  free_count queue4_after_sg1 + outstanding_total [(cookie_A, [1])]
  <> _num queue4_after_sg1 /\
  0 ∉ free_list queue4_after_sg1 ++ chain_slots [(cookie_A, [1])].
Proof.
  split; [vm_compute; reflexivity |]. split; [reflexivity |]. split; [reflexivity |].
  split; [vm_compute; discriminate |].
  replace (free_list queue4_after_sg1 ++ chain_slots [(cookie_A, [1])])
    with [2; 3; 1] by reflexivity.
  rewrite !elem_of_cons, elem_of_nil. intros [H | [H | [H | []]]]; discriminate.
Qed.

(** C7 (amended): for every sequence of [add_buf] and [get_buf] calls on
    a freshly constructed vring of queue size [num] that stays inside the
    descriptor table, after every call free_count plus the sum of the
    lengths of the outstanding chains is num - 1 (0 for num = 0), the free
    count of the fresh vring: the outstanding chains followed by the free
    list are the slots 1, ..., num - 1, each once, so no slot is in more
    than one of them and slot 0 is in none; every chain has the length of
    its submission and [get_buf] returns none to the free list. *)
Theorem free_list_conservation hh malloc drv num q_index p calls v cs :
  is_u16 num ->
  malloc (u32 (VIRTIO_ALIGN hh (get_size hh num (VIRTIO_PCI_VRING_ALIGN hh)))) = Some p ->
  Forall wf_call calls ->
  session hh malloc drv num q_index calls = Some (v, cs) ->
  free_count v + outstanding_total cs = Z.max 0 (num - 1) /\
  outstanding_total cs = submitted_total calls /\
  chain_slots cs ++ free_list v = seqZ 1 (num - 1) /\
  NoDup (chain_slots cs ++ free_list v) /\
  (forall s, s ∈ chain_slots cs ++ free_list v <-> 1 <= s < num).
Proof.
  intros Hnum Hm Hwf Hs.
  destruct (session_inv hh malloc drv num q_index p calls v cs Hnum Hm Hwf Hs)
    as (Hinv & Hn & Hcs & Ho).
  pose proof (free_count_inv v Hinv) as Hfc.
  pose proof (free_list_inv v Hinv) as Hfl.
  destruct Hinv as [_ _ _ [Hk0 Hk]]. rewrite Hn in *.
  set (k := vring_avail._idx (avail_mem v)) in *.
  assert (Hall : chain_slots cs ++ free_list v = seqZ 1 (num - 1)).
  { rewrite Hcs, Hfl. destruct (decide (k + 1 < num)) as [Hlt | Hge].
    - replace (num - 1) with (k + (num - 1 - k)) by lia.
      rewrite (seqZ_app 1) by lia. f_equal; f_equal; lia.
    - assert (k = 0) as -> by lia.
      rewrite (seqZ_nil 1 0), (seqZ_nil _ (num - 1 - 0)), (seqZ_nil 1 (num - 1)) by lia.
      reflexivity. }
  split; [rewrite outstanding_total_slots, Hcs, length_seqZ; lia |].
  split; [exact Ho |]. split; [exact Hall |]. rewrite Hall.
  split; [apply NoDup_seqZ |]. intros s. rewrite elem_of_seqZ. lia.
Qed.

Lemma free_list_conservation_witness :
  is_u16 4 /\
  session virtio_std (malloc_ok 0x100000) 7 4 0
          [AddBuf sg1 1 0 cookie_A; GetBuf 0]
  = Some (queue4_after_sg1, [(cookie_A, [1])]) /\
  free_count queue4_after_sg1 + outstanding_total [(cookie_A, [1])] = Z.max 0 (4 - 1).
Proof.
  assert (H4 : is_u16 4) by (unfold is_u16; lia).
  assert (Hs : session virtio_std (malloc_ok 0x100000) 7 4 0
                       [AddBuf sg1 1 0 cookie_A; GetBuf 0]
               = Some (queue4_after_sg1, [(cookie_A, [1])]))
    by (vm_compute; reflexivity).
  assert (Hwf : Forall wf_call [AddBuf sg1 1 0 cookie_A; GetBuf 0])
    by (repeat constructor; unfold is_u16; lia).
  split; [exact H4 |]. split; [exact Hs |].
  exact (proj1 (free_list_conservation virtio_std (malloc_ok 0x100000) 7 4 0 0x100000
                  [AddBuf sg1 1 0 cookie_A; GetBuf 0]
                  queue4_after_sg1 [(cookie_A, [1])] H4 eq_refl Hwf Hs)).
Defined.

(** C4 (as stated) fails in the end-to-end scenario: queue of 4, the
    two-segment chain submitted with cookie A, the device completing head
    1 with 37 bytes. [get_buf] returns the null cookie, not A, stores no
    byte count and frees no slot: free_count stays 1, not 4. *)
Lemma get_buf_scenario_counterexample :
  exists v2,
    vring_ctor virtio_std (malloc_ok 0x100000) 7 4 0 = Some queue4 /\
    add_buf virtio_std queue4 sg2 1 1 cookie_A = Some (true, queue4_after_sg2) /\
    device_complete 1 37 queue4_after_sg2 = Some v2 /\
    vring_used._idx (used_mem v2) = 1 /\
    load (vring_used._ring (used_mem v2)) 0 = Some (vring_used_elem.mk 1 37) /\
    get_buf v2 0 = (nullptr, 0, v2) /\
    nullptr <> cookie_A /\ 0 <> 37 /\
    free_count v2 = 1 /\ free_count v2 <> 4.
Proof.
  eexists. split; [exact queue4_constructed |].
  split; [vm_compute; reflexivity |]. split; [vm_compute; reflexivity |].
  split; [reflexivity |]. split; [reflexivity |]. split; [reflexivity |].
  split; [vm_compute; discriminate |]. split; [discriminate |].
  split; [reflexivity |]. vm_compute. discriminate.
Qed.

(** C4 (amended): [get_buf] yields nothing on every call, whether or not
    the used ring holds new completions: it returns the null cookie,
    stores no byte count through [len] and leaves the vring as it is, the
    used ring, the free list and the outstanding chains included. *)
Theorem get_buf_yields_nothing (hh : virtio_hh) (v : vring) (cs : chains) (len : Z) :
  get_buf v len = (nullptr, len, v) /\
  step hh (v, cs) (GetBuf len) = Some (v, cs) /\
  free_count (get_buf v len).2 = free_count v /\
  used_mem (get_buf v len).2 = used_mem v.
Proof. repeat split. Qed.

(** * Further properties *)

(** ** Notification suppression, further *)

Lemma need_event_ltb event_idx new_idx old :
  is_u16 event_idx -> is_u16 new_idx -> is_u16 old ->
  need_event event_idx new_idx old
  = Z.b2z ((new_idx - event_idx - 1) mod 2 ^ 16 <? (new_idx - old) mod 2 ^ 16).
Proof.
  unfold is_u16. intros He Hn Ho. unfold need_event, u16.
  rewrite (int_small (new_idx - event_idx)) by lia.
  rewrite (int_small (new_idx - event_idx - 1)) by lia.
  rewrite (int_small (new_idx - old)) by lia. reflexivity.
Qed.

Lemma b2z_ltb_nonzero a b : Z.b2z (a <? b) <> 0 <-> a < b.
Proof. destruct (Z.ltb_spec a b); cbn; lia. Qed.

(** X1: [need_event] answers non-zero exactly when the event index lies
    among the entries published since [old]: its distance from [old],
    taken mod 2^16, is below the distance of [new_idx] from [old]. *)
Theorem need_event_window event_idx new_idx old :
  is_u16 event_idx -> is_u16 new_idx -> is_u16 old ->
  (need_event event_idx new_idx old <> 0 <->
   (event_idx - old) mod 2 ^ 16 < (new_idx - old) mod 2 ^ 16).
Proof.
  intros He Hn Ho. rewrite need_event_ltb, b2z_ltb_nonzero by assumption.
  unfold is_u16 in *. change (2 ^ 16) with 65536 in *.
  Z.div_mod_to_equations. lia.
Qed.

Lemma mod_sub_shift a b c d :
  ((a + d) mod 2 ^ 16 - (b + d) mod 2 ^ 16 - c) mod 2 ^ 16 = (a - b - c) mod 2 ^ 16.
Proof.
  change (2 ^ 16) with 65536. Z.div_mod_to_equations. lia.
Qed.

(** X2: [need_event] depends on the distances between the three indices
    only: adding one amount to all three, each wrapped to 16 bits, does
    not change the answer. *)
Theorem need_event_shift event_idx new_idx old d :
  is_u16 event_idx -> is_u16 new_idx -> is_u16 old ->
  need_event (u16 (event_idx + d)) (u16 (new_idx + d)) (u16 (old + d))
  = need_event event_idx new_idx old.
Proof.
  intros He Hn Ho. rewrite !need_event_ltb by (assumption || apply u16_range).
  unfold u16. rewrite (mod_sub_shift new_idx event_idx 1 d).
  pose proof (mod_sub_shift new_idx old 0 d) as H. rewrite !Z.sub_0_r in H.
  rewrite H. reflexivity.
Qed.

(** X3: with nothing published since [old] (new_idx = old) [need_event]
    answers 0, whatever the event index; after one more entry it answers
    non-zero exactly when the event index is [old]. *)
Theorem need_event_progress event_idx old :
  is_u16 event_idx -> is_u16 old ->
  need_event event_idx old old = 0 /\
  (need_event event_idx (u16 (old + 1)) old <> 0 <-> event_idx = old).
Proof.
  intros He Ho. split.
  - rewrite need_event_ltb by assumption. rewrite Z.sub_diag.
    change (0 mod 2 ^ 16) with 0.
    pose proof (Z.mod_pos_bound (old - event_idx - 1) (2 ^ 16) ltac:(lia)).
    destruct (Z.ltb_spec ((old - event_idx - 1) mod 2 ^ 16) 0); [lia | reflexivity].
  - rewrite need_event_ltb, b2z_ltb_nonzero by (assumption || apply u16_range).
    unfold u16, is_u16 in *. change (2 ^ 16) with 65536 in *.
    Z.div_mod_to_equations. lia.
Qed.

(** ** Layout, further *)

(** X4: where the layout fits the return type, the padding that
    [get_size] puts between the available ring and the used ring is
    shorter than [align]: the size is at least the three sub-structures
    together and less than that plus [align]. *)
Theorem get_size_padding hh num align :
  wf_hh hh -> 0 <= num -> pow2_ulong align ->
  layout_size hh num align < 2 ^ 32 ->
  desc_bytes hh num + avail_bytes num + used_bytes hh num <= get_size hh num align /\
  get_size hh num align < desc_bytes hh num + avail_bytes num + used_bytes hh num + align.
Proof.
  intros Hwf Hn Ha Hfit. rewrite get_size_exact by assumption.
  pose proof (pow2_ulong_bounds align Ha).
  pose proof (round_up_ge (desc_bytes hh num + avail_bytes num) align ltac:(lia)).
  unfold layout_size. lia.
Qed.

(** X5: with structure sizes up to 4096 bytes, every 16-bit queue size
    and every power-of-two alignment up to 2^30 has a layout below 2^32:
    [get_size] is the layout formula there. *)
Theorem get_size_u16_exact hh num align :
  wf_hh hh -> sizeof_vring_desc hh <= 4096 -> sizeof_vring_used_elem hh <= 4096 ->
  is_u16 num -> pow2_ulong align -> align <= 2 ^ 30 ->
  layout_size hh num align < 2 ^ 32 /\
  get_size hh num align = layout_size hh num align.
Proof.
  intros Hwf Hd Hu [Hn0 Hn1] Ha Hle.
  pose proof (wf_sizeof_desc hh Hwf). pose proof (wf_sizeof_used_elem hh Hwf).
  pose proof (pow2_ulong_bounds align Ha).
  assert (Hfit : layout_size hh num align < 2 ^ 32).
  { pose proof (round_up_ge (desc_bytes hh num + avail_bytes num) align ltac:(lia)).
    unfold layout_size, used_bytes, desc_bytes, avail_bytes, sizeof_u16 in *. nia. }
  split; [exact Hfit |]. apply get_size_exact; assumption || lia.
Qed.

Lemma land_not_pow2' y k :
  0 <= y < 2 ^ 64 -> 0 <= k < 64 ->
  Z.land y (ulong (Z.lnot (2 ^ k - 1))) = y / 2 ^ k * 2 ^ k.
Proof.
  intros Hy Hk. rewrite <- (land_not_pow2 y k) by assumption.
  rewrite (ulong_small (2 ^ k - 1)); [reflexivity |].
  pose proof (pow2_ulong_bounds (2 ^ k) (ex_intro _ k (conj Hk eq_refl))). lia.
Qed.

(** X6: on a region whose base is a multiple of the ring alignment, the
    constructor puts the descriptor table at the base, the available
    ring right behind the [num] descriptors and the used ring at the
    offset of [get_size]'s layout; the used ring ends [get_size] bytes
    behind the base. *)
Theorem vring_ctor_pointers hh malloc drv num q_index p v :
  wf_hh hh -> is_u16 num -> pow2_ulong (VIRTIO_PCI_VRING_ALIGN hh) ->
  0 <= p -> (VIRTIO_PCI_VRING_ALIGN hh | p) ->
  layout_size hh num (VIRTIO_PCI_VRING_ALIGN hh) < 2 ^ 32 ->
  p + layout_size hh num (VIRTIO_PCI_VRING_ALIGN hh) + VIRTIO_PCI_VRING_ALIGN hh < 2 ^ 64 ->
  malloc (u32 (VIRTIO_ALIGN hh (get_size hh num (VIRTIO_PCI_VRING_ALIGN hh)))) = Some p ->
  vring_ctor hh malloc drv num q_index = Some v ->
  _desc v = p /\
  _avail v = p + desc_bytes hh num /\
  _used v = p + used_offset hh num (VIRTIO_PCI_VRING_ALIGN hh) /\
  _avail v + avail_bytes num <= _used v /\
  _used v + used_bytes hh num = p + get_size hh num (VIRTIO_PCI_VRING_ALIGN hh).
Proof.
  intros Hwf Hnum Ha Hp [q Hq] Hfit Hfit64 Hm Hv.
  pose proof Hnum as [Hn0 Hn1].
  pose proof (wf_sizeof_desc hh Hwf) as Hsd.
  pose proof (wf_sizeof_used_elem hh Hwf) as Hsu.
  pose proof (pow2_ulong_bounds _ Ha) as Hab.
  rewrite get_size_exact, used_offset_exact by (assumption || lia).
  unfold vring_ctor in Hv. rewrite Hm in Hv. cbn [mbind option_bind] in Hv.
  rewrite init_ring_zeroed in Hv by assumption. cbn [mbind option_bind] in Hv.
  injection Hv as <-. cbn.
  set (A := VIRTIO_PCI_VRING_ALIGN hh) in *.
  pose proof (round_up_ge (desc_bytes hh num + avail_bytes num) A ltac:(lia)) as Hr.
  unfold layout_size, used_bytes, desc_bytes, avail_bytes, sizeof_u16 in *.
  assert (0 <= sizeof_vring_desc hh * num) by nia.
  assert (0 <= sizeof_vring_used_elem hh * num) by nia.
  rewrite (Z.mul_comm num).
  set (D := sizeof_vring_desc hh * num) in *.
  set (U := sizeof_vring_used_elem hh * num) in *.
  set (R := round_up (D + 2 * (3 + num)) A) in *.
  rewrite (ulong_small D) by lia.
  rewrite (ulong_small (p + D)) by lia.
  rewrite (ulong_small (p + D + _ + _)) by lia.
  rewrite (ulong_small (p + D + _ + _ + 2)) by lia.
  rewrite (ulong_small (p + D + _ + _ + 2 + A)) by lia.
  rewrite (ulong_small (p + D + _ + _ + 2 + A - 1)) by lia.
  assert (Hland : Z.land (p + D + 2 * 2 + 2 * num + 2 + A - 1) (ulong (Z.lnot (A - 1)))
                  = p + R).
  { destruct Ha as (k & Hk & HA).
    rewrite HA at 2. rewrite land_not_pow2' by (rewrite <- ?HA; lia). rewrite <- HA.
    unfold R, round_up. rewrite Hq.
    replace (q * A + D + 2 * 2 + 2 * num + 2 + A - 1)
      with (q * A + (D + 2 * (3 + num) + A - 1)) by lia.
    rewrite Z.div_add_l by lia. apply Z.mul_add_distr_r. }
  rewrite !Hland. repeat split; lia.
Qed.



Section AddBufReached.
Variable hh : virtio_hh.

(** The descriptor table after a submission on a vring as the
    constructor and earlier calls leave it. *)
Lemma add_buf_inv_frame v sg out in_ cookie r v' :
  ring_inv v -> 0 <= out + in_ ->
  add_buf hh v sg out in_ cookie = Some (r, v') ->
  (forall s, ~ vring_avail._idx (avail_mem v) + 1 <= s
               <= vring_avail._idx (avail_mem v) + (out + in_) + 1 ->
             load (desc_mem v') s = load (desc_mem v) s) /\
  load (desc_mem v') (vring_avail._idx (avail_mem v) + (out + in_) + 1)
  = vring_desc.set_flags
      (u16 (Z.land (vring_desc._flags
                      (default vring_desc.zero
                         (load (desc_mem v)
                               (vring_avail._idx (avail_mem v) + (out + in_) + 1))))
                   (Z.lnot (VRING_DESC_F_NEXT hh))))
      <$> load (desc_mem v) (vring_avail._idx (avail_mem v) + (out + in_) + 1).
Proof.
  intros Hv Hn Ha.
  destruct (add_buf_inv_inv hh v sg out in_ cookie r v' Hv Hn Ha)
    as (Hlen & Hfit & _).
  pose proof (ring_inv_cur v Hv) as Hc.
  destruct Hv as [[Hn0 Hn1] Hr Hd [Hk0 Hk]].
  set (k := vring_avail._idx (avail_mem v)) in *.
  unfold add_buf in Ha. fold k in Ha. rewrite Hr, load_seqZ in Ha by lia.
  cbn [mbind option_bind] in Ha.
  destruct (add_buf_loop_some hh (_num v) (sglist._nodes sg) 0 in_ out k v
              Hc Hk0 Hn1 ltac:(lia) ltac:(lia))
    as (v1 & Hl & [Hc1 Hc2 Hc3 Hc4] & Hu1 & Hch & Hoth).
  replace (1 + k) with (k + 1) in Ha by lia. rewrite Hl in Ha.
  cbn [mbind option_bind] in Ha.
  rewrite Z.sub_0_r, Z.max_r in * by lia.
  replace (k + 1 + (in_ + out)) with (k + (out + in_) + 1) in Ha by lia.
  destruct (load_is_Some (desc_mem v1) (k + (out + in_) + 1) ltac:(lia)) as [d Hd1].
  rewrite Hd1 in Ha. cbn [mbind option_bind] in Ha.
  rewrite store_in_range in Ha by lia. cbn in Ha. injection Ha as <- <-. cbn.
  assert (Hsame : load (desc_mem v) (k + (out + in_) + 1) = Some d)
    by (rewrite <- Hoth by lia; exact Hd1).
  split.
  - intros s Hs. rewrite load_insert by lia. rewrite decide_False by lia.
    apply Hoth. lia.
  - rewrite load_insert by lia. rewrite decide_True by reflexivity.
    rewrite Hsame. reflexivity.
Qed.

Lemma add_buf_fresh_past v sg out in_ cookie r v' :
  ring_inv v -> fresh_past v -> 0 <= out + in_ ->
  add_buf hh v sg out in_ cookie = Some (r, v') ->
  fresh_past v' /\
  forall s, ~ vring_avail._idx (avail_mem v) + 1 <= s
              <= vring_avail._idx (avail_mem v) + (out + in_) ->
            load (desc_mem v') s = load (desc_mem v) s.
Proof.
  intros Hv Hf Hn Ha.
  destruct (add_buf_inv_inv hh v sg out in_ cookie r v' Hv Hn Ha)
    as (Hlen & Hfit & _ & Hv' & Hn' & Hi').
  destruct (add_buf_inv_frame v sg out in_ cookie r v' Hv Hn Ha) as [Hoth Hnext].
  pose proof Hv as [_ _ _ [Hk0 _]].
  assert (Hz : load (desc_mem v') (vring_avail._idx (avail_mem v) + (out + in_) + 1)
               = load (desc_mem v) (vring_avail._idx (avail_mem v) + (out + in_) + 1)).
  { rewrite Hnext, Hf by lia. reflexivity. }
  assert (Hall : forall s, ~ vring_avail._idx (avail_mem v) + 1 <= s
                             <= vring_avail._idx (avail_mem v) + (out + in_) ->
                           load (desc_mem v') s = load (desc_mem v) s).
  { intros s Hs.
    destruct (decide (s = vring_avail._idx (avail_mem v) + (out + in_) + 1)) as [-> | Hne];
      [exact Hz | apply Hoth; lia]. }
  split; [| exact Hall].
  intros s Hs Hb. rewrite Hi' in Hs. rewrite Hn' in Hb.
  rewrite Hall by lia. apply Hf; lia.
Qed.
End AddBufReached.

Lemma vring_ctor_fresh_past hh malloc drv num q_index p v :
  is_u16 num ->
  malloc (u32 (VIRTIO_ALIGN hh (get_size hh num (VIRTIO_PCI_VRING_ALIGN hh)))) = Some p ->
  vring_ctor hh malloc drv num q_index = Some v -> fresh_past v.
Proof.
  intros Hnum Hm Hv.
  destruct (vring_ctor_Some hh malloc drv num q_index p Hnum Hm)
    as (v0 & Hv0 & Hn & Hd & Ha & _).
  rewrite Hv0 in Hv. injection Hv as <-.
  intros s Hs Hb. rewrite Hd, Hn in *. apply load_replicate. lia.
Qed.

Lemma run_fresh_past hh calls : forall v cs v' cs',
  ring_inv v -> chain_slots cs = seqZ 1 (vring_avail._idx (avail_mem v)) ->
  fresh_past v -> Forall wf_call calls ->
  run hh (v, cs) calls = Some (v', cs') -> fresh_past v'.
Proof.
  induction calls as [| c calls IH]; intros v cs v' cs' Hv Hcs Hf Hwf H.
  - cbn in H. injection H as <- <-. exact Hf.
  - cbn [run] in H. destruct (step hh (v, cs) c) as [[v1 cs1] |] eqn:Hs; [| discriminate].
    cbn [mbind option_bind] in H. apply Forall_cons_1 in Hwf as [Hc Hwf].
    destruct (step_inv hh v cs c v1 cs1 Hv Hcs Hc Hs) as (Hv1 & _ & Hcs1 & _).
    refine (IH v1 cs1 v' cs' Hv1 Hcs1 _ Hwf H).
    destruct c as [sg out in_ cookie | len]; cbn [step] in Hs.
    + destruct Hc as [[Ho _] [Hi _]].
      destruct (add_buf hh v sg out in_ cookie) as [[r v2] |] eqn:Ha; [| discriminate].
      cbn in Hs. injection Hs as <- <-.
      exact (proj1 (add_buf_fresh_past hh v sg out in_ cookie r v2 Hv Hf ltac:(lia) Ha)).
    + cbn in Hs. injection Hs as <- <-. exact Hf.
Qed.

Lemma session_reached hh malloc drv num q_index p calls v cs :
  is_u16 num ->
  malloc (u32 (VIRTIO_ALIGN hh (get_size hh num (VIRTIO_PCI_VRING_ALIGN hh)))) = Some p ->
  Forall wf_call calls ->
  session hh malloc drv num q_index calls = Some (v, cs) ->
  ring_inv v /\ fresh_past v /\ _num v = num.
Proof.
  intros Hnum Hm Hwf H.
  destruct (session_inv hh malloc drv num q_index p calls v cs Hnum Hm Hwf H)
    as (Hinv & Hn & _).
  split; [exact Hinv |]. split; [| exact Hn].
  unfold session in H.
  destruct (vring_ctor_inv hh malloc drv num q_index p Hnum Hm)
    as (v0 & Hv0 & Hinv0 & Hn0 & Hi0).
  rewrite Hv0 in H. cbn [mbind option_bind] in H.
  eapply (run_fresh_past hh calls v0 [] v cs); try eassumption.
  - rewrite Hi0. reflexivity.
  - eapply vring_ctor_fresh_past; eassumption.
Qed.

Lemma set_desc_mem_id v : set_desc_mem (desc_mem v) v = v.
Proof. destruct v. reflexivity. Qed.

Lemma clear_next_zero hh :
  vring_desc.set_flags
    (u16 (Z.land (vring_desc._flags vring_desc.zero) (Z.lnot (VRING_DESC_F_NEXT hh))))
    vring_desc.zero = vring_desc.zero.
Proof. reflexivity. Qed.

Section AddBufCompose.
Variable hh : virtio_hh.

(** On a vring as the constructor and earlier calls leave it, the final
    [desc->_flags &= ~VRING_DESC_F_NEXT] finds a zero descriptor:
    [add_buf] is its loop. *)
Lemma add_buf_is_loop v sg out in_ cookie v' :
  ring_inv v -> fresh_past v -> 0 <= out + in_ ->
  (exists r, add_buf hh v sg out in_ cookie = Some (r, v')) <->
  add_buf_loop hh (sglist._nodes sg) 0 in_ out (vring_avail._idx (avail_mem v) + 1) v
  = Some (vring_avail._idx (avail_mem v) + (out + in_) + 1, v') /\
  vring_avail._idx (avail_mem v) + (out + in_) + 1 < _num v.
Proof.
  intros Hv Hf Hn. pose proof (ring_inv_cur v Hv) as Hc.
  pose proof Hv as [[Hn0 Hn1] Hr Hd [Hk0 Hk]].
  set (k := vring_avail._idx (avail_mem v)) in *.
  assert (Hclear : forall v1,
    add_buf_loop hh (sglist._nodes sg) 0 in_ out (k + 1) v = Some (k + (out + in_) + 1, v1) ->
    k + (out + in_) + 1 < _num v ->
    add_buf hh v sg out in_ cookie = Some (true, v1)).
  { intros v1 Hl Hfit. unfold add_buf. fold k. rewrite Hr, load_seqZ by lia.
    cbn [mbind option_bind]. replace (1 + k) with (k + 1) by lia. rewrite Hl.
    cbn [mbind option_bind].
    destruct (decide (out + in_ <= Z.of_nat (length (sglist._nodes sg)))) as [Hlen | Hlen];
      [| rewrite add_buf_loop_short in Hl by lia; discriminate].
    destruct (add_buf_loop_some hh (_num v) (sglist._nodes sg) 0 in_ out k v
                Hc Hk0 Hn1 ltac:(lia) ltac:(lia))
      as (v2 & Hl2 & [Hc1 Hc2 Hc3 Hc4] & _ & _ & Hoth).
    rewrite Hl in Hl2. injection Hl2 as _ <-.
    assert (Hz : load (desc_mem v1) (k + (out + in_) + 1) = Some vring_desc.zero)
      by (rewrite Hoth by lia; apply Hf; lia).
    rewrite Hz. cbn [mbind option_bind]. rewrite clear_next_zero.
    rewrite store_in_range by lia. cbn [mbind option_bind].
    rewrite list_insert_id, set_desc_mem_id; [reflexivity |].
    unfold load in Hz. rewrite bool_decide_eq_true_2 in Hz by lia. exact Hz. }
  split.
  - intros [r Ha].
    destruct (add_buf_inv_inv hh v sg out in_ cookie r v' Hv Hn Ha)
      as (Hlen & Hfit & _).
    split; [| exact Hfit].
    destruct (add_buf_loop_some hh (_num v) (sglist._nodes sg) 0 in_ out k v
                Hc Hk0 Hn1 ltac:(lia) ltac:(lia)) as (v2 & Hl2 & _).
    rewrite Z.sub_0_r, Z.max_r in Hl2 by lia.
    replace (k + 1 + (in_ + out)) with (k + (out + in_) + 1) in Hl2 by lia.
    rewrite (Hclear v2 Hl2 Hfit) in Ha. injection Ha as _ <-. exact Hl2.
  - intros [Hl Hfit]. exists true. apply Hclear; assumption.
Qed.

Hypothesis Hwf : wf_hh hh.

Lemma add_buf_body_count node i in_ i' in_' desc v :
  add_buf_body hh node i in_ desc v = add_buf_body hh node i' in_' desc v.
Proof. unfold add_buf_body. rewrite !desc_flags_expr_write by assumption. reflexivity. Qed.

(** The loop depends on [i], [in] and [out] through the number of turns
    left only. *)
Lemma add_buf_loop_count ii : forall i in_ out desc v,
  add_buf_loop hh ii i in_ out desc v
  = add_buf_loop hh ii 0 0 (in_ + out - i) desc v.
Proof.
  induction ii as [| node ii IH]; intros i in_ out desc v; cbn [add_buf_loop].
  - repeat case_bool_decide; first [reflexivity | lia].
  - rewrite (add_buf_body_count node i in_ 0 0).
    repeat case_bool_decide; try reflexivity; try lia.
    destruct (add_buf_body hh node 0 0 desc v) as [[d1 v1] |]; [| reflexivity].
    cbn [mbind option_bind]. rewrite IH, (IH (0 + 1)). f_equal. lia.
Qed.

Lemma add_buf_loop_app l1 l2 m desc v :
  0 <= m ->
  add_buf_loop hh (l1 ++ l2) 0 0 (Z.of_nat (length l1) + m) desc v
  = '(d1, v1) ← add_buf_loop hh l1 0 0 (Z.of_nat (length l1)) desc v;
    add_buf_loop hh l2 0 0 m d1 v1.
Proof.
  intros Hm. revert desc v. induction l1 as [| node l1 IH]; intros desc v.
  - cbn [app length]. change (Z.of_nat 0) with 0. rewrite Z.add_0_l.
    cbn [add_buf_loop]. rewrite (bool_decide_eq_false_2 (0 < 0 + 0)) by lia.
    reflexivity.
  - cbn [app length add_buf_loop]. rewrite !bool_decide_eq_true_2 by lia.
    destruct (add_buf_body hh node 0 0 desc v) as [[d1 v1] |]; [| reflexivity].
    cbn [mbind option_bind]. rewrite add_buf_loop_count, (add_buf_loop_count l1).
    replace (0 + (Z.of_nat (S (length l1)) + m) - (0 + 1))
      with (Z.of_nat (length l1) + m) by lia.
    replace (0 + Z.of_nat (S (length l1)) - (0 + 1)) with (Z.of_nat (length l1)) by lia.
    apply IH.
Qed.
End AddBufCompose.

(** ** Instances of the vring properties *)

Lemma need_event_window_witness :
  is_u16 0xFFFE /\ is_u16 0x0001 /\
  (need_event 0xFFFE 0x0001 0xFFFE <> 0 <->
   (0xFFFE - 0xFFFE) mod 2 ^ 16 < (0x0001 - 0xFFFE) mod 2 ^ 16).
Proof.
  assert (H1 : is_u16 0xFFFE) by (unfold is_u16; lia).
  assert (H2 : is_u16 0x0001) by (unfold is_u16; lia).
  split; [exact H1 |]. split; [exact H2 |].
  exact (need_event_window 0xFFFE 0x0001 0xFFFE H1 H2 H1).
Defined.

Lemma need_event_shift_witness :
  is_u16 5 /\ is_u16 7 /\ is_u16 3 /\
  need_event (u16 (5 + 65530)) (u16 (7 + 65530)) (u16 (3 + 65530)) = need_event 5 7 3.
Proof.
  assert (H5 : is_u16 5) by (unfold is_u16; lia).
  assert (H7 : is_u16 7) by (unfold is_u16; lia).
  assert (H3 : is_u16 3) by (unfold is_u16; lia).
  split; [exact H5 |]. split; [exact H7 |]. split; [exact H3 |].
  exact (need_event_shift 5 7 3 65530 H5 H7 H3).
Defined.

Lemma need_event_progress_witness :
  is_u16 0xFFFF /\ need_event 0xFFFF 0xFFFF 0xFFFF = 0 /\
  (need_event 0xFFFF (u16 (0xFFFF + 1)) 0xFFFF <> 0 <-> 0xFFFF = 0xFFFF).
Proof.
  assert (H : is_u16 0xFFFF) by (unfold is_u16; lia).
  split; [exact H |]. exact (need_event_progress 0xFFFF 0xFFFF H H).
Defined.

Lemma get_size_padding_witness :
  wf_hh virtio_std /\ 0 <= 256 /\ pow2_ulong 4096 /\
  layout_size virtio_std 256 4096 < 2 ^ 32 /\
  desc_bytes virtio_std 256 + avail_bytes 256 + used_bytes virtio_std 256
  <= get_size virtio_std 256 4096 /\
  get_size virtio_std 256 4096
  < desc_bytes virtio_std 256 + avail_bytes 256 + used_bytes virtio_std 256 + 4096.
Proof.
  assert (Hn : 0 <= 256) by lia.
  assert (Ha : pow2_ulong 4096) by (exists 12; split; [lia | reflexivity]).
  assert (Hfit : layout_size virtio_std 256 4096 < 2 ^ 32) by (vm_compute; reflexivity).
  split; [exact wf_virtio_std |]. split; [exact Hn |]. split; [exact Ha |].
  split; [exact Hfit |].
  exact (get_size_padding virtio_std 256 4096 wf_virtio_std Hn Ha Hfit).
Defined.

Lemma get_size_u16_exact_witness :
  wf_hh virtio_std /\ is_u16 65535 /\ pow2_ulong 4096 /\
  layout_size virtio_std 65535 4096 < 2 ^ 32 /\
  get_size virtio_std 65535 4096 = layout_size virtio_std 65535 4096.
Proof.
  assert (Hn : is_u16 65535) by (unfold is_u16; lia).
  assert (Ha : pow2_ulong 4096) by (exists 12; split; [lia | reflexivity]).
  assert (Hd : sizeof_vring_desc virtio_std <= 4096) by (cbn; lia).
  assert (Hu : sizeof_vring_used_elem virtio_std <= 4096) by (cbn; lia).
  assert (Hle : 4096 <= 2 ^ 30) by lia.
  split; [exact wf_virtio_std |]. split; [exact Hn |]. split; [exact Ha |].
  exact (get_size_u16_exact virtio_std 65535 4096 wf_virtio_std Hd Hu Hn Ha Hle).
Defined.

Lemma vring_ctor_pointers_witness :
  wf_hh virtio_std /\ is_u16 4 /\
  vring_ctor virtio_std (malloc_ok 0x100000) 7 4 0 = Some queue4 /\
  _desc queue4 = 0x100000 /\
  _avail queue4 = 0x100000 + desc_bytes virtio_std 4 /\
  _used queue4 = 0x100000 + used_offset virtio_std 4 4096.
Proof.
  assert (Hn : is_u16 4) by (unfold is_u16; lia).
  assert (Ha : pow2_ulong (VIRTIO_PCI_VRING_ALIGN virtio_std))
    by (exists 12; split; [lia | reflexivity]).
  assert (Hp : 0 <= 0x100000) by lia.
  assert (Hdiv : (VIRTIO_PCI_VRING_ALIGN virtio_std | 0x100000))
    by (exists 256; reflexivity).
  assert (Hfit : layout_size virtio_std 4 (VIRTIO_PCI_VRING_ALIGN virtio_std) < 2 ^ 32)
    by (vm_compute; reflexivity).
  assert (Hfit64 : 0x100000 + layout_size virtio_std 4 (VIRTIO_PCI_VRING_ALIGN virtio_std)
                   + VIRTIO_PCI_VRING_ALIGN virtio_std < 2 ^ 64)
    by (vm_compute; reflexivity).
  split; [exact wf_virtio_std |]. split; [exact Hn |].
  split; [exact queue4_constructed |].
  destruct (vring_ctor_pointers virtio_std (malloc_ok 0x100000) 7 4 0 0x100000 queue4
              wf_virtio_std Hn Ha Hp Hdiv Hfit Hfit64 eq_refl queue4_constructed)
    as (H1 & H2 & H3 & _).
  split; [exact H1 |]. split; [exact H2 | exact H3].
Defined.


(** * The block: reads and writes *)

Module flat_mem.
Import flat.

Lemma put_length bs : forall n off x, length (put bs off n x) = length bs.
Proof.
  induction n as [| n IH]; intros off x; cbn [put]; [reflexivity |].
  rewrite length_insert. apply IH.
Qed.

Lemma put_lookup_ne bs k : forall n off x,
  (k < off \/ off + n <= k)%nat -> put bs off n x !! k = bs !! k.
Proof.
  induction n as [| n IH]; intros off x Hk; cbn [put]; [reflexivity |].
  rewrite list_lookup_insert_ne by lia. apply IH. lia.
Qed.

Lemma get_ext bs bs' : forall n off,
  (forall k, (off <= k < off + n)%nat -> bs !! k = bs' !! k) ->
  get bs off n = get bs' off n.
Proof.
  induction n as [| n IH]; intros off H; cbn [get]; [reflexivity |].
  rewrite (H off) by lia. rewrite (IH (S off)); [reflexivity |].
  intros k Hk. apply H. lia.
Qed.

Lemma get_bounds bs : forall n off, 0 <= get bs off n < 2 ^ (8 * Z.of_nat n).
Proof.
  induction n as [| n IH]; intros off; cbn [get]; [cbn; lia |].
  specialize (IH (S off)).
  replace (8 * Z.of_nat (S n)) with (8 + 8 * Z.of_nat n) by lia.
  rewrite Z.pow_add_r by lia. change (2 ^ 8) with 256.
  pose proof (Z.mod_pos_bound (default 0 (bs !! off)) 256). lia.
Qed.

Lemma get_put_eq bs : forall n off x,
  (off + n <= length bs)%nat ->
  get (put bs off n x) off n = x `mod` 2 ^ (8 * Z.of_nat n).
Proof.
  induction n as [| n IH]; intros off x Hl.
  - cbn. rewrite Z.mod_1_r. reflexivity.
  - cbn [get put].
    rewrite list_lookup_insert_eq by (rewrite put_length; lia).
    replace (default 0 (Some (x `mod` 256))) with (x `mod` 256) by reflexivity.
    rewrite (get_ext _ (put bs (S off) n (x / 256))).
    2:{ intros k Hk. apply list_lookup_insert_ne. lia. }
    rewrite IH by lia.
    replace (8 * Z.of_nat (S n)) with (8 + 8 * Z.of_nat n) by lia.
    rewrite Z.pow_add_r by lia. change (2 ^ 8) with 256.
    rewrite Z.mod_mod by lia.
    rewrite (Z.rem_mul_r x 256 (2 ^ (8 * Z.of_nat n))); [reflexivity | lia |].
    apply Z.pow_pos_nonneg; lia.
Qed.

Lemma get_put_ne bs n off x n' off' :
  (off' + n' <= off \/ off + n <= off')%nat ->
  get (put bs off n x) off' n' = get bs off' n'.
Proof.
  intros H. apply get_ext. intros k Hk. apply put_lookup_ne. lia.
Qed.

Lemma get_replicate k : forall n off, get (replicate k 0) off n = 0.
Proof.
  induction n as [| n IH]; intros off; cbn [get]; [reflexivity |].
  rewrite IH. destruct (replicate k 0 !! off) as [x |] eqn:Hx.
  - apply lookup_replicate in Hx as [-> _]. reflexivity.
  - reflexivity.
Qed.

Lemma write_Some b a n x :
  inside b a n ->
  write b a n x = Some (mk_block (base b) (put (bytes b) (Z.to_nat (a - base b)) n x)).
Proof. intros H. unfold write. rewrite bool_decide_eq_true_2 by exact H. reflexivity. Qed.

Lemma write_inv b a n x b' :
  write b a n x = Some b' ->
  inside b a n /\ base b' = base b /\ size b' = size b.
Proof.
  unfold write. case_bool_decide as Hin; [| discriminate]. intros [= <-].
  split; [exact Hin |]. split; [reflexivity |].
  unfold size. cbn. rewrite put_length. reflexivity.
Qed.

Lemma inside_write b a n x b' a' n' :
  write b a n x = Some b' -> inside b' a' n' <-> inside b a' n'.
Proof.
  intros (_ & Hb & Hs)%write_inv. unfold inside. rewrite Hb, Hs. reflexivity.
Qed.

Lemma read_Some b a n :
  inside b a n -> read b a n = Some (get (bytes b) (Z.to_nat (a - base b)) n).
Proof. intros H. unfold read. rewrite bool_decide_eq_true_2 by exact H. reflexivity. Qed.

Lemma read_inv b a n x :
  read b a n = Some x -> inside b a n /\ 0 <= x < 2 ^ (8 * Z.of_nat n).
Proof.
  unfold read. case_bool_decide as Hin; [| discriminate]. intros [= <-].
  split; [exact Hin | apply get_bounds].
Qed.

Lemma read_write_eq b a n x b' :
  write b a n x = Some b' -> read b' a n = Some (x `mod` 2 ^ (8 * Z.of_nat n)).
Proof.
  intros Hw. pose proof (write_inv _ _ _ _ _ Hw) as (Hin & Hb & Hs).
  rewrite read_Some by (apply (inside_write _ _ _ _ _ _ _ Hw), Hin).
  rewrite Hb. rewrite (write_Some _ _ _ _ Hin) in Hw. injection Hw as <-. cbn [bytes].
  f_equal. apply get_put_eq. destruct Hin as [H1 H2]. unfold size in H2. lia.
Qed.

Lemma read_write_ne b a n x b' a' n' :
  write b a n x = Some b' ->
  a' + Z.of_nat n' <= a \/ a + Z.of_nat n <= a' ->
  read b' a' n' = read b a' n'.
Proof.
  intros Hw Hd. pose proof (write_inv _ _ _ _ _ Hw) as (Hin & Hb & Hs).
  unfold read. rewrite (bool_decide_ext _ _ (inside_write _ _ _ _ _ a' n' Hw)).
  case_bool_decide as Hin'; [| reflexivity].
  rewrite Hb. rewrite (write_Some _ _ _ _ Hin) in Hw. injection Hw as <-. cbn [bytes].
  f_equal. apply get_put_ne. destruct Hin as [H1 H2], Hin' as [H3 H4]. lia.
Qed.

Lemma read_zero p k a n :
  inside (mk_block p (replicate k 0)) a n ->
  read (mk_block p (replicate k 0)) a n = Some 0.
Proof. intros H. rewrite read_Some by exact H. cbn [bytes]. f_equal. apply get_replicate. Qed.

Lemma read_u16_bounds b a x : read b a 2 = Some x -> is_u16 x.
Proof. intros H. apply read_inv in H as [_ H]. exact H. Qed.
End flat_mem.

(** * The arrays are the block, inside the descriptor table *)

Lemma u16_u16 x : u16 (u16 x) = u16 x.
Proof. unfold u16. apply Z.mod_mod. lia. Qed.

Lemma u32_u32 x : u32 (u32 x) = u32 x.
Proof. unfold u32. apply Z.mod_mod. lia. Qed.

Lemma ulong_ulong x : ulong (ulong x) = ulong x.
Proof. unfold ulong. apply Z.mod_mod. lia. Qed.

(** Reads behind writes, back to the block before them. *)
Ltac rd :=
  repeat match goal with
  | Hw : flat.write ?b ?a ?n ?x = Some ?b' |- context [flat.read ?b' ?a' ?n'] =>
      first [ rewrite (flat_mem.read_write_ne b a n x b' a' n' Hw) by lia
            | rewrite (flat_mem.read_write_eq b a n x b' Hw) ]
  end.

Ltac flat_unfold :=
  unfold flat.desc, flat.avail_flags, flat.avail_idx, flat.avail_ring,
    flat.used_flags, flat.used_idx, flat.used_elem,
    flat.desc_at, flat.idx_at, flat.ring_at, flat.elem_at,
    flat.desc_paddr, flat.desc_len, flat.desc_flags, flat.desc_next,
    flat.avail_flags_off, flat.avail_idx_off, flat.avail_ring_off,
    flat.used_flags_off, flat.used_idx_off, flat.used_ring_off,
    flat.elem_id, flat.elem_len, sizeof_u16 in *.

(** One write inside the block: name the block it leaves. *)
Ltac do_write H :=
  match goal with
  | |- context [flat.write ?b ?a ?n ?x] =>
      let m := fresh "m" in
      let Hin := fresh "Hin" in
      let Hb := fresh "Hb" in
      let Hs := fresh "Hs" in
      destruct (flat.write b a n x) as [m |] eqn:H;
      [ pose proof (flat_mem.write_inv _ _ _ _ _ H) as (Hin & Hb & Hs);
        cbn [mbind option_bind]
      | exfalso; revert H; rewrite flat_mem.write_Some;
        [ discriminate | unfold flat.inside; lia ] ]
  end.

Section Refinement.
Variable hh : virtio_hh.
Hypothesis Hsizes : std_sizes hh.

Lemma sim_body f v node i in_ s s' v' :
  sim hh f v ->
  add_buf_body hh node i in_ s v = Some (s', v') ->
  exists m,
    flat.add_buf_body hh node i in_ (flat.desc_at hh f s) f
    = Some (flat.desc_at hh f s', flat.set_mem m f) /\
    sim hh (flat.set_mem m f) v'.
Proof.
  destruct Hsizes as [Hsd Hse].
  intros Hsim Hbody. unfold add_buf_body in Hbody.
  destruct (load (desc_mem v) s) as [d0 |] eqn:Hd0; [| discriminate].
  cbn [mbind option_bind] in Hbody.
  destruct (load (vring_avail._ring (avail_mem v)) (vring_avail._idx (avail_mem v)))
    as [r |] eqn:Hr; [| discriminate].
  cbn [mbind option_bind] in Hbody.
  destruct (store (desc_mem v) s _) as [dm |] eqn:Hst; [| discriminate].
  cbn [mbind option_bind] in Hbody.
  apply store_Some_inv in Hst as [Hs ->].
  cbn in Hbody.
  destruct (load (vring_avail._ring (avail_mem v)) r) as [nxt |] eqn:Hnxt;
    [| discriminate].
  cbn [mbind option_bind] in Hbody. injection Hbody as <- <-.
  pose proof (load_Some_bounds _ _ _ Hr) as Hidx.
  pose proof (load_Some_bounds _ _ _ Hnxt) as Hrb.
  destruct Hsim as [[Hn Hbd Hba Hbu Hbe] ? ? ? Hnum ? ? ? Hdl Hdesc Hrl Hfl Hix Hring
                    Hul Hufl Huix Huel].
  pose proof (Hring _ _ Hr) as Hfr. pose proof (Hring _ _ Hnxt) as Hfn.
  pose proof (flat_mem.read_u16_bounds _ _ _ Hfr) as Hru. unfold is_u16 in Hru.
  unfold flat.add_buf_body.
  flat_unfold. rewrite Hsd, Hse in *. cbn [flat.mem flat.set_mem flat._avail flat._desc].
  do_write Hw1. do_write Hw2. do_write Hw3.
  rd. rewrite Hix. cbn [mbind option_bind]. rd. rewrite Hfr. cbn [mbind option_bind].
  do_write Hw4. rd. rewrite Hix. cbn [mbind option_bind].
  do_write Hw5. rd. rewrite (Z.mod_small r) by (cbn; lia). cbn [mbind option_bind].
  rd. rewrite Hfn. cbn [mbind option_bind].
  exists m3. split; [reflexivity |].
  split; cbn [flat.mem flat.set_mem flat._avail flat._desc flat._used flat._num
              flat._drv flat._q_index flat._vring_ptr
              _drv _q_index _vring_ptr _num _desc _avail _used
              desc_mem avail_mem used_mem set_desc_mem set_avail_mem
              vring_avail._flags vring_avail._idx vring_avail._ring
              vring_avail.set_idx];
    flat_unfold; rewrite ?Hsd, ?Hse;
    cbn [flat.mem flat.set_mem flat._avail flat._desc flat._used flat._num];
    try assumption.
  - split; cbn [flat.mem flat.set_mem flat._avail flat._desc flat._used flat._num];
      rewrite ?Hsd, ?Hse; flat_unfold; lia.
  - rewrite length_insert. exact Hdl.
  - intros s2 d2. rewrite load_insert by exact Hs. case_decide as Hsame.
    + subst s2. intros [= <-].
      cbn [flat.mem flat.set_mem flat._avail flat._desc]. rd.
      cbn [mbind option_bind]. rd. cbn [mbind option_bind]. rd.
      cbn [mbind option_bind]. rd. cbn [mbind option_bind].
      change (2 ^ (8 * Z.of_nat 8)) with (2 ^ 64).
      change (2 ^ (8 * Z.of_nat 4)) with (2 ^ 32).
      change (2 ^ (8 * Z.of_nat 2)) with (2 ^ 16).
      fold (ulong (ulong (sglist._paddr node))). fold (u32 (u32 (sglist._len node))).
      fold (u16 (u16 (desc_flags_expr hh i in_))).
      rewrite ulong_ulong, u32_u32, u16_u16, (Z.mod_small r) by lia.
      reflexivity.
    + intros Hl. pose proof (load_Some_bounds _ _ _ Hl) as Hbound2.
      specialize (Hdesc _ _ Hl). revert Hdesc.
      cbn [flat.mem flat.set_mem flat._avail flat._desc]. rd. auto.
  - rd. exact Hfl.
  - rd. change (2 ^ (8 * Z.of_nat 2)) with (2 ^ 16).
    fold (u16 (u16 (vring_avail._idx (avail_mem v) + 1))). rewrite u16_u16. reflexivity.
  - intros k x Hk. pose proof (load_Some_bounds _ _ _ Hk).
    specialize (Hring _ _ Hk). revert Hring. rd. auto.
  - rd. exact Hufl.
  - rd. exact Huix.
  - intros k e Hk. pose proof (load_Some_bounds _ _ _ Hk).
    specialize (Huel _ _ Hk). revert Huel.
    cbn [flat.mem flat.set_mem flat._used]. rd. auto.
Qed.

Lemma set_mem_id f : flat.set_mem (flat.mem f) f = f.
Proof. destruct f. reflexivity. Qed.

Lemma sim_loop ii : forall i in_ out s f v s' v',
  sim hh f v ->
  add_buf_loop hh ii i in_ out s v = Some (s', v') ->
  exists m,
    flat.add_buf_loop hh ii i in_ out (flat.desc_at hh f s) f
    = Some (flat.desc_at hh f s', flat.set_mem m f) /\
    sim hh (flat.set_mem m f) v'.
Proof.
  induction ii as [| node ii IH]; intros i in_ out s f v s' v' Hsim Hl;
    cbn [add_buf_loop flat.add_buf_loop] in *.
  - case_bool_decide; [discriminate |]. injection Hl as <- <-.
    exists (flat.mem f). rewrite set_mem_id. auto.
  - case_bool_decide.
    + destruct (add_buf_body hh node i in_ s v) as [[s1 v1] |] eqn:Hb; [| discriminate].
      cbn [mbind option_bind] in Hl.
      destruct (sim_body _ _ _ _ _ _ _ _ Hsim Hb) as (m1 & Hfb & Hsim1).
      rewrite Hfb. cbn [mbind option_bind].
      destruct (IH _ _ _ _ _ _ _ _ Hsim1 Hl) as (m & Hfl & Hsim').
      exists m. split; [exact Hfl | exact Hsim'].
    + injection Hl as <- <-. exists (flat.mem f). rewrite set_mem_id. auto.
Qed.

(** In-table calls: what [add_buf] does on the arrays, it does on the
    block. *)
Lemma add_buf_refines f v sg out in_ cookie r v' :
  sim hh f v ->
  add_buf hh v sg out in_ cookie = Some (r, v') ->
  exists m,
    flat.add_buf hh f sg out in_ cookie = Some (r, flat.set_mem m f) /\
    sim hh (flat.set_mem m f) v'.
Proof.
  intros Hsim Ha. unfold add_buf in Ha.
  destruct (load (vring_avail._ring (avail_mem v)) (vring_avail._idx (avail_mem v)))
    as [h |] eqn:Hh; [| discriminate].
  cbn [mbind option_bind] in Ha.
  destruct (add_buf_loop hh _ 0 in_ out h v) as [[s1 v1] |] eqn:Hl; [| discriminate].
  cbn [mbind option_bind] in Ha.
  destruct (load (desc_mem v1) s1) as [d |] eqn:Hd; [| discriminate].
  cbn [mbind option_bind] in Ha.
  destruct (store (desc_mem v1) s1 _) as [dm |] eqn:Hst; [| discriminate].
  cbn [mbind option_bind] in Ha. injection Ha as <- <-.
  apply store_Some_inv in Hst as [Hs ->].
  unfold flat.add_buf.
  pose proof (sim_aidx _ _ _ Hsim) as Hix. unfold flat.avail_idx in Hix.
  rewrite Hix. cbn [mbind option_bind].
  pose proof (sim_ring _ _ _ Hsim _ _ Hh) as Hfh. unfold flat.avail_ring in Hfh.
  rewrite Hfh. cbn [mbind option_bind].
  destruct (sim_loop _ _ _ _ _ _ _ _ _ Hsim Hl) as (m1 & Hfl & Hsim1).
  rewrite Hfl. cbn [mbind option_bind].
  clear Hsim Hix Hfh Hfl Hl Hh.
  destruct Hsizes as [Hsd Hse].
  pose proof (sim_desc _ _ _ Hsim1 _ _ Hd) as Hfd.
  destruct Hsim1 as [[Hn Hbd Hba Hbu Hbe] ? ? ? Hnum ? ? ? Hdl Hdesc Hrl Hfl Hix Hring
                     Hul Hufl Huix Huel].
  flat_unfold. rewrite Hsd, Hse in *.
  cbn [flat.mem flat.set_mem flat._avail flat._desc flat._used flat._num] in *.
  destruct (flat.read m1 (flat._desc f + 16 * s1 + 0) 8) as [pa |] eqn:Hpa;
    [| discriminate].
  cbn [mbind option_bind] in Hfd.
  destruct (flat.read m1 (flat._desc f + 16 * s1 + 8) 4) as [le |] eqn:Hle;
    [| discriminate].
  cbn [mbind option_bind] in Hfd.
  destruct (flat.read m1 (flat._desc f + 16 * s1 + 12) 2) as [fl |] eqn:Hfg;
    [| discriminate].
  cbn [mbind option_bind] in Hfd.
  destruct (flat.read m1 (flat._desc f + 16 * s1 + 14) 2) as [nx |] eqn:Hnx;
    [| discriminate].
  cbn [mbind option_bind] in Hfd. injection Hfd as <-.
  cbn [mbind option_bind vring_desc._flags vring_desc.set_flags
       vring_desc._paddr vring_desc._len vring_desc._next].
  do_write Hw.
  exists m. split; [reflexivity |].
  split; cbn [flat.mem flat.set_mem flat._avail flat._desc flat._used flat._num
              flat._drv flat._q_index flat._vring_ptr
              _drv _q_index _vring_ptr _num _desc _avail _used
              desc_mem avail_mem used_mem set_desc_mem set_avail_mem];
    flat_unfold; rewrite ?Hsd, ?Hse;
    cbn [flat.mem flat.set_mem flat._avail flat._desc flat._used flat._num];
    try assumption.
  - split; cbn [flat.mem flat.set_mem flat._avail flat._desc flat._used flat._num];
      rewrite ?Hsd, ?Hse; flat_unfold; lia.
  - rewrite length_insert. exact Hdl.
  - intros s2 d2. rewrite load_insert by exact Hs. case_decide as Hsame.
    + subst s2. intros [= <-]. rd. rewrite Hpa. cbn [mbind option_bind].
      rd. rewrite Hle. cbn [mbind option_bind]. rd. cbn [mbind option_bind].
      rd. rewrite Hnx. cbn [mbind option_bind].
      change (2 ^ (8 * Z.of_nat 2)) with (2 ^ 16).
      fold (u16 (u16 (Z.land fl (Z.lnot (VRING_DESC_F_NEXT hh))))).
      rewrite u16_u16. reflexivity.
    + intros Hl2. pose proof (load_Some_bounds _ _ _ Hl2) as Hbound2.
      specialize (Hdesc _ _ Hl2). revert Hdesc. rd. auto.
  - rd. exact Hfl.
  - rd. exact Hix.
  - intros k x Hk. pose proof (load_Some_bounds _ _ _ Hk).
    specialize (Hring _ _ Hk). revert Hring. rd. auto.
  - rd. exact Hufl.
  - rd. exact Huix.
  - intros k e Hk. pose proof (load_Some_bounds _ _ _ Hk).
    specialize (Huel _ _ Hk). revert Huel. rd. auto.
Qed.

Lemma run_refines calls : forall f v cs v' cs',
  sim hh f v ->
  run hh (v, cs) calls = Some (v', cs') ->
  exists m, flat.run hh f calls = Some (flat.set_mem m f) /\
            sim hh (flat.set_mem m f) v'.
Proof.
  induction calls as [| c calls IH]; intros f v cs v' cs' Hsim Hr;
    cbn [run flat.run] in *.
  - injection Hr as <- <-. exists (flat.mem f). rewrite set_mem_id. auto.
  - destruct (step hh (v, cs) c) as [[v1 cs1] |] eqn:Hs; [| discriminate].
    cbn [mbind option_bind] in Hr.
    destruct c as [sg out in_ cookie | len]; cbn [step flat.step] in *.
    + destruct (add_buf hh v sg out in_ cookie) as [[r v2] |] eqn:Ha; [| discriminate].
      cbn [mbind option_bind] in Hs. injection Hs as <- <-.
      destruct (add_buf_refines _ _ _ _ _ _ _ _ Hsim Ha) as (m1 & Hfa & Hsim1).
      rewrite Hfa. cbn [mbind option_bind].
      destruct (IH _ _ _ _ _ Hsim1 Hr) as (m & Hfr & Hsim').
      exists m. split; [exact Hfr | exact Hsim'].
    + unfold get_buf in Hs. injection Hs as <- <-.
      unfold flat.get_buf. cbn [snd mbind option_bind].
      exact (IH _ _ _ _ _ Hsim Hr).
Qed.
End Refinement.

(** ** The constructor on the block *)

Lemma flat_init_ring_spec avail n : forall i m,
  flat.inside m (flat.ring_at avail i) (2 * n) -> 0 <= i -> i + Z.of_nat n < 2 ^ 16 ->
  exists m',
    flat.init_ring n i avail m = Some m' /\
    flat.base m' = flat.base m /\ flat.size m' = flat.size m /\
    (forall j, i <= j < i + Z.of_nat n ->
               flat.read m' (flat.ring_at avail j) 2 = Some (j + 1)) /\
    (forall a k, a + Z.of_nat k <= flat.ring_at avail i \/
                 flat.ring_at avail (i + Z.of_nat n) <= a ->
                 flat.read m' a k = flat.read m a k).
Proof.
  induction n as [| n IH]; intros i m Hin Hi Hn; cbn [flat.init_ring].
  - exists m. do 3 (split; [reflexivity |]). split; [intros; lia | reflexivity].
  - unfold flat.inside, flat.ring_at, flat.avail_ring_off, sizeof_u16 in *.
    do_write Hw.
    destruct (IH (i + 1) m0) as (m' & Hr & Hb' & Hs' & Hring & Hframe).
    { unfold flat.inside, flat.ring_at, flat.avail_ring_off, sizeof_u16. lia. }
    { lia. } { lia. }
    unfold flat.ring_at, flat.avail_ring_off, sizeof_u16 in *.
    exists m'. split; [exact Hr |]. split; [congruence |]. split; [congruence |].
    split.
    + intros j Hj. destruct (decide (j = i)) as [-> | Hne].
      * rewrite Hframe by lia. rd.
        rewrite int_small by lia. unfold u16. rewrite Z.mod_mod by lia.
        rewrite Z.mod_small by lia. reflexivity.
      * apply Hring. lia.
    + intros a k Hk. rewrite Hframe by lia. rd. reflexivity.
Qed.

(** On a block at a multiple of the ring alignment the three pointers
    are the offsets of [get_size]'s layout. *)
Lemma vring_ctor_aligned hh malloc drv num q_index p v :
  block_env hh malloc num p ->
  vring_ctor hh malloc drv num q_index = Some v ->
  _desc v = p /\
  _avail v = p + desc_bytes hh num /\
  _used v = p + used_offset hh num (VIRTIO_PCI_VRING_ALIGN hh) /\
  _avail v + avail_bytes num <= _used v /\
  _used v + used_bytes hh num = p + get_size hh num (VIRTIO_PCI_VRING_ALIGN hh).
Proof.
  intros [Hwf _ Hnum Ha [Hp [q Hq]] Hfit _ Hfit64 Hm] Hv.
  pose proof Hnum as [Hn0 Hn1].
  pose proof (wf_sizeof_desc hh Hwf) as Hsd.
  pose proof (wf_sizeof_used_elem hh Hwf) as Hsu.
  pose proof (pow2_ulong_bounds _ Ha) as Hab.
  rewrite get_size_exact, used_offset_exact by (assumption || lia).
  unfold vring_ctor in Hv. rewrite Hm in Hv. cbn [mbind option_bind] in Hv.
  rewrite init_ring_zeroed in Hv by assumption. cbn [mbind option_bind] in Hv.
  injection Hv as <-. cbn.
  set (A := VIRTIO_PCI_VRING_ALIGN hh) in *.
  pose proof (round_up_ge (desc_bytes hh num + avail_bytes num) A ltac:(lia)) as Hr.
  unfold layout_size, used_bytes, desc_bytes, avail_bytes, sizeof_u16 in *.
  assert (0 <= sizeof_vring_desc hh * num) by nia.
  assert (0 <= sizeof_vring_used_elem hh * num) by nia.
  rewrite (Z.mul_comm num).
  set (D := sizeof_vring_desc hh * num) in *.
  set (U := sizeof_vring_used_elem hh * num) in *.
  set (R := round_up (D + 2 * (3 + num)) A) in *.
  rewrite (ulong_small D) by lia.
  rewrite (ulong_small (p + D)) by lia.
  rewrite (ulong_small (p + D + _ + _)) by lia.
  rewrite (ulong_small (p + D + _ + _ + 2)) by lia.
  rewrite (ulong_small (p + D + _ + _ + 2 + A)) by lia.
  rewrite (ulong_small (p + D + _ + _ + 2 + A - 1)) by lia.
  assert (Hland : Z.land (p + D + 2 * 2 + 2 * num + 2 + A - 1) (ulong (Z.lnot (A - 1)))
                  = p + R).
  { destruct Ha as (k & Hk & HA).
    rewrite HA at 2. rewrite land_not_pow2' by (rewrite <- ?HA; lia). rewrite <- HA.
    unfold R, round_up. rewrite Hq.
    replace (q * A + D + 2 * 2 + 2 * num + 2 + A - 1)
      with (q * A + (D + 2 * (3 + num) + A - 1)) by lia.
    rewrite Z.div_add_l by lia. apply Z.mul_add_distr_r. }
  rewrite !Hland. repeat split; lia.
Qed.

(** The constructor on the block: it completes, every byte of the block
    outside the ring array is zero, and the arrays of the constructor on
    arrays are what the block holds. *)
Lemma vring_ctor_refines hh malloc drv num q_index p :
  block_env hh malloc num p ->
  exists f v,
    flat.vring_ctor hh malloc drv num q_index = Some f /\
    vring_ctor hh malloc drv num q_index = Some v /\
    sim hh f v /\
    flat._drv f = drv /\ flat._q_index f = q_index /\ flat._num f = num /\
    flat._vring_ptr f = p /\
    flat.base (flat.mem f) = p /\
    flat.size (flat.mem f)
    = u32 (VIRTIO_ALIGN hh (get_size hh num (VIRTIO_PCI_VRING_ALIGN hh))) /\
    (forall a k, flat.inside (flat.mem f) a k ->
                 a + Z.of_nat k <= flat.ring_at (flat._avail f) 0 \/
                 flat.ring_at (flat._avail f) num <= a ->
                 flat.read (flat.mem f) a k = Some 0).
Proof.
  intros Henv.
  destruct (vring_ctor_Some hh malloc drv num q_index p (env_num _ _ _ _ Henv)
              (env_malloc _ _ _ _ Henv)) as (v & Hv & Hvn & Hvd & Hva & Hvu).
  destruct (vring_ctor_aligned _ _ _ _ _ _ _ Henv Hv) as (Hd & Hav & Hus & Hau & Hend).
  destruct Henv as [Hwf [Hsd Hse] Hnum Ha [Hp Hdiv] Hfit Hsz Hfit64 Hm].
  pose proof Hnum as [Hn0 Hn1].
  set (sz := u32 (VIRTIO_ALIGN hh (get_size hh num (VIRTIO_PCI_VRING_ALIGN hh)))) in *.
  assert (Hsz0 : 0 <= sz) by (unfold sz, u32; apply Z.mod_pos_bound; lia).
  unfold desc_bytes, avail_bytes, used_bytes, sizeof_u16 in *. rewrite Hsd, Hse in *.
  pose proof Hv as Hv'. unfold vring_ctor in Hv'. fold sz in Hv'.
  rewrite Hm in Hv'. cbn [mbind option_bind] in Hv'.
  rewrite init_ring_zeroed in Hv' by assumption. cbn [mbind option_bind] in Hv'.
  unfold flat.vring_ctor. fold sz. rewrite Hm. cbn [mbind option_bind].
  injection Hv' as Hv'. rewrite <- Hv' in Hd, Hav, Hus, Hau, Hend.
  cbn [_desc _avail _used] in Hd, Hav, Hus, Hau, Hend.
  set (avail_p := ulong (p + ulong (num * sizeof_vring_desc hh))) in *.
  set (used_p := Z.land _ _) in *.
  set (m0 := flat.mk_block p (replicate (Z.to_nat sz) 0)).
  assert (Hsize0 : flat.size m0 = sz).
  { unfold flat.size, m0. cbn. rewrite length_replicate. lia. }
  destruct (flat_init_ring_spec avail_p (Z.to_nat num) 0 m0)
    as (m & Hinit & Hb & Hs & Hring & Hframe).
  { unfold flat.inside, flat.ring_at, flat.avail_ring_off, sizeof_u16.
    rewrite Hsize0. cbn [flat.base m0]. lia. }
  { lia. } { lia. }
  rewrite Hinit. cbn [mbind option_bind].
  rewrite Z2Nat.id in Hring, Hframe by lia.
  assert (Hzero : forall a k, flat.inside m a k ->
                    a + Z.of_nat k <= flat.ring_at avail_p 0 \/
                    flat.ring_at avail_p num <= a ->
                    flat.read m a k = Some 0).
  { intros a k Hin Hk. rewrite Hframe by (rewrite ?Z.add_0_l; exact Hk).
    apply flat_mem.read_zero. change (flat.inside m0 a k).
    unfold flat.inside in *. rewrite <- Hb, <- Hs. exact Hin. }
  eexists _, v. split; [reflexivity |]. split; [exact Hv |].
  cbn [flat._drv flat._q_index flat._num flat._vring_ptr flat.mem flat._avail].
  rewrite Hb, Hs, Hsize0. cbn [flat.base m0].
  split; [| repeat split; try reflexivity; exact Hzero].
  assert (Hins : forall a k, p <= a -> a + Z.of_nat k <= p + sz -> flat.inside m a k).
  { intros a k H1 H2. unfold flat.inside. rewrite Hb, Hs, Hsize0. cbn [flat.base m0]. lia. }
  rewrite <- Hv'.
  split; cbn [flat.mem flat.set_mem flat._avail flat._desc flat._used flat._num
              flat._drv flat._q_index flat._vring_ptr
              _drv _q_index _vring_ptr _num _desc _avail _used
              desc_mem avail_mem used_mem
              vring_avail._flags vring_avail._idx vring_avail._ring
              vring_used._flags vring_used._idx vring_used._ring];
    try reflexivity.
  - split; cbn [flat.mem flat._avail flat._desc flat._used flat._num];
      rewrite ?Hsd, ?Hse, ?Hb, ?Hs, ?Hsize0; cbn [flat.base m0];
      unfold flat.avail_ring_off, flat.used_ring_off, sizeof_u16; lia.
  - rewrite length_replicate. lia.
  - intros s d Hl. pose proof (load_Some_bounds _ _ _ Hl) as Hsb.
    rewrite length_replicate in Hsb.
    rewrite load_replicate in Hl by lia. injection Hl as <-.
    flat_unfold. rewrite Hsd. cbn [flat.mem flat._desc].
    rewrite !Hzero by (try apply Hins; lia). reflexivity.
  - rewrite length_seqZ. lia.
  - flat_unfold. cbn [flat.mem flat._avail]. apply Hzero; [apply Hins |]; lia.
  - flat_unfold. cbn [flat.mem flat._avail]. apply Hzero; [apply Hins |]; lia.
  - intros k x Hl. pose proof (load_Some_bounds _ _ _ Hl) as Hkb.
    rewrite length_seqZ in Hkb.
    rewrite load_seqZ in Hl by lia. injection Hl as <-.
    flat_unfold. cbn [flat.mem flat._avail].
    specialize (Hring k ltac:(lia)). unfold flat.ring_at, flat.avail_ring_off, sizeof_u16 in Hring.
    rewrite Hring. f_equal. lia.
  - rewrite length_replicate. lia.
  - flat_unfold. cbn [flat.mem flat._used]. apply Hzero; [apply Hins |]; lia.
  - flat_unfold. cbn [flat.mem flat._used]. apply Hzero; [apply Hins |]; lia.
  - intros k e Hl. pose proof (load_Some_bounds _ _ _ Hl) as Hkb.
    rewrite length_replicate in Hkb.
    rewrite load_replicate in Hl by lia. injection Hl as <-.
    flat_unfold. rewrite Hse. cbn [flat.mem flat._used].
    rewrite !Hzero by (try apply Hins; lia). reflexivity.
Qed.

(** ** Runs inside the descriptor table *)

Lemma fits_wf_call c : fits_call c -> wf_call c.
Proof. destruct c; cbn; tauto. Qed.

Lemma submitted_total_nonneg calls :
  Forall fits_call calls -> 0 <= submitted_total calls.
Proof.
  induction 1 as [| c calls Hc _ IH]; cbn [submitted_total]; [lia |].
  destruct c; cbn in Hc; unfold is_u16 in Hc; lia.
Qed.

(** A run whose segments, one more counted, stay below the queue size
    completes on the arrays. *)
Lemma run_in_table hh calls : forall v cs,
  ring_inv v -> Forall fits_call calls ->
  vring_avail._idx (avail_mem v) + submitted_total calls + 1 < _num v ->
  exists v' cs',
    run hh (v, cs) calls = Some (v', cs') /\
    ring_inv v' /\ _num v' = _num v /\ used_mem v' = used_mem v /\
    vring_avail._idx (avail_mem v')
    = vring_avail._idx (avail_mem v) + submitted_total calls.
Proof.
  induction calls as [| c calls IH]; intros v cs Hinv Hfit Hlt; cbn [run].
  - exists v, cs. cbn [submitted_total]. split; [reflexivity |]. split; [exact Hinv |].
    split; [reflexivity |]. split; [reflexivity | lia].
  - apply Forall_cons_1 in Hfit as [Hc Hfit].
    pose proof (submitted_total_nonneg _ Hfit) as Hnn.
    destruct c as [sg out in_ cookie | len]; cbn [step submitted_total] in *.
    + destruct Hc as (Ho & Hi & Hlen). unfold is_u16 in Ho, Hi.
      destruct (add_buf_inv_some hh v sg out in_ cookie Hinv ltac:(lia) Hlen ltac:(lia))
        as (v1 & Ha & Hinv1 & Hnum1 & Hused1 & Hidx1 & _).
      rewrite Ha. cbn [mbind option_bind].
      destruct (IH v1 (cs ++ [(cookie, take (Z.to_nat (out + in_)) (free_list v))])
                  Hinv1 Hfit ltac:(lia))
        as (v' & cs' & Hr & Hinv' & Hnum' & Hused' & Hidx').
      exists v', cs'. split; [exact Hr |]. split; [exact Hinv' |].
      split; [congruence |]. split; [congruence |]. lia.
    + unfold get_buf. cbn [mbind option_bind].
      rewrite bool_decide_eq_true_2 by reflexivity.
      destruct (IH v cs Hinv Hfit ltac:(lia))
        as (v' & cs' & Hr & Hinv' & Hnum' & Hused' & Hidx').
      exists v', cs'. auto.
Qed.

(** The same run on the block, and what the block holds after it. *)
Lemma in_table_session hh malloc drv num q_index p calls :
  block_env hh malloc num p -> Forall fits_call calls ->
  submitted_total calls + 1 < num ->
  exists f v cs,
    flat.session hh malloc drv num q_index calls = Some f /\
    session hh malloc drv num q_index calls = Some (v, cs) /\
    sim hh f v /\ ring_inv v /\ _num v = num /\
    vring_avail._idx (avail_mem v) = submitted_total calls /\
    flat._num f = num /\ flat._drv f = drv /\ flat._q_index f = q_index.
Proof.
  intros Henv Hfit Hlt.
  destruct (vring_ctor_refines hh malloc drv num q_index p Henv)
    as (f0 & v0 & Hf0 & Hv0 & Hsim0 & Hdrv & Hq & Hnum0 & _).
  destruct (vring_ctor_inv hh malloc drv num q_index p (env_num _ _ _ _ Henv)
              (env_malloc _ _ _ _ Henv)) as (v0' & Hv0' & Hinv0 & Hn0 & Hidx0).
  rewrite Hv0 in Hv0'. injection Hv0' as <-.
  destruct (run_in_table hh calls v0 [] Hinv0 Hfit ltac:(lia))
    as (v & cs & Hr & Hinv & Hn & _ & Hidx).
  destruct (run_refines hh (env_sizes _ _ _ _ Henv) calls _ _ _ _ _ Hsim0 Hr)
    as (m & Hfr & Hsim).
  exists (flat.set_mem m f0), v, cs.
  unfold flat.session, session. rewrite Hf0, Hv0. cbn [mbind option_bind].
  split; [exact Hfr |]. split; [exact Hr |]. split; [exact Hsim |].
  split; [exact Hinv |]. split; [congruence |]. split; [lia |].
  cbn [flat.set_mem flat._num flat._drv flat._q_index]. auto.
Qed.

(** One more call inside the table, on the arrays and on the block. *)
Lemma in_table_add_buf hh f v sg out in_ cookie :
  std_sizes hh -> sim hh f v -> ring_inv v ->
  fits_call (AddBuf sg out in_ cookie) ->
  vring_avail._idx (avail_mem v) + (out + in_) + 1 < _num v ->
  exists f' v',
    flat.add_buf hh f sg out in_ cookie = Some (true, f') /\
    add_buf hh v sg out in_ cookie = Some (true, v') /\
    sim hh f' v' /\ ring_inv v' /\ _num v' = _num v /\
    used_mem v' = used_mem v /\
    vring_avail._idx (avail_mem v') = vring_avail._idx (avail_mem v) + (out + in_) /\
    flat._num f' = flat._num f /\ flat._avail f' = flat._avail f /\
    flat._desc f' = flat._desc f /\ flat._used f' = flat._used f.
Proof.
  intros Hsz Hsim Hinv (Ho & Hi & Hlen) Hlt. unfold is_u16 in Ho, Hi.
  destruct (add_buf_inv_some hh v sg out in_ cookie Hinv ltac:(lia) Hlen Hlt)
    as (v' & Ha & Hinv' & Hnum' & Hused' & Hidx' & _).
  destruct (add_buf_refines hh Hsz _ _ _ _ _ _ _ _ Hsim Ha) as (m & Hfa & Hsim').
  exists (flat.set_mem m f), v'. split; [exact Hfa |]. split; [exact Ha |].
  split; [exact Hsim' |]. split; [exact Hinv' |]. split; [exact Hnum' |].
  split; [exact Hused' |]. split; [exact Hidx' |]. cbn. auto.
Qed.

(** A submission that takes the last slot of the table, [_num - 1]: its
    loop stays inside the table, and the final
    [desc->_flags &= ~VRING_DESC_F_NEXT] falls on the bytes behind the
    table, which are inside the block. *)
Lemma last_slot_add_buf hh f v sg out in_ cookie :
  std_sizes hh -> sim hh f v -> ring_inv v ->
  fits_call (AddBuf sg out in_ cookie) ->
  vring_avail._idx (avail_mem v) + (out + in_) + 1 = _num v ->
  exists f', flat.add_buf hh f sg out in_ cookie = Some (true, f').
Proof.
  intros Hsz Hsim Hinv (Ho & Hi & Hlen) Heq. unfold is_u16 in Ho, Hi.
  pose proof (inv_num _ Hinv) as [Hn0 Hn1].
  pose proof (inv_idx _ Hinv) as [Hk0 _].
  set (k := vring_avail._idx (avail_mem v)) in *.
  unfold flat.add_buf.
  pose proof (sim_aidx _ _ _ Hsim) as Hix. unfold flat.avail_idx in Hix.
  rewrite Hix. cbn [mbind option_bind]. fold k.
  assert (Hh : load (vring_avail._ring (avail_mem v)) k = Some (k + 1)).
  { rewrite (inv_ring _ Hinv). rewrite load_seqZ by lia. f_equal. lia. }
  pose proof (sim_ring _ _ _ Hsim _ _ Hh) as Hfh. unfold flat.avail_ring in Hfh.
  rewrite Hfh. cbn [mbind option_bind].
  destruct (add_buf_loop_some hh (_num v) (sglist._nodes sg) 0 in_ out k v
              (ring_inv_cur _ Hinv) Hk0 Hn1 ltac:(lia) ltac:(lia))
    as (v1 & Hl & Hcur1 & _).
  pose proof (ci_num _ _ _ Hcur1) as Hnum1.
  destruct (sim_loop hh Hsz _ _ _ _ _ _ _ _ _ Hsim Hl) as (m1 & Hfl & Hsim1).
  rewrite Hfl. cbn [mbind option_bind].
  destruct Hsz as [Hsd Hse].
  destruct Hsim1 as [[Hn Hbd Hba Hbu Hbe] _ _ _ Hnum _ _ _ _ _ _ _ _ _ _ _ _ _].
  flat_unfold. rewrite Hsd, Hse in *.
  cbn [flat.mem flat.set_mem flat._avail flat._desc flat._used flat._num] in *.
  assert (Hin : flat.inside m1 (flat._desc f + 16 * (k + 1 + Z.max 0 (in_ + out - 0)) + 12) 2).
  { unfold flat.inside. lia. }
  rewrite (flat_mem.read_Some _ _ _ Hin). cbn [mbind option_bind].
  rewrite (flat_mem.write_Some _ _ _ _ Hin). cbn [mbind option_bind].
  eexists. reflexivity.
Qed.

(** * Further properties of submission on the block *)

(** ** What every call leaves alone *)

Lemma put_norm bs : forall n off x,
  Forall (fun b => 0 <= b < 256) bs ->
  Forall (fun b => 0 <= b < 256) (flat.put bs off n x).
Proof.
  induction n as [| n IH]; intros off x H; cbn [flat.put]; [exact H |].
  apply Forall_insert; [apply IH, H |]. apply Z.mod_pos_bound. lia.
Qed.

Lemma write_norm m a n x m' : flat.write m a n x = Some m' -> norm m -> norm m'.
Proof.
  unfold flat.write. case_bool_decide; [| discriminate]. intros [= <-] Hn.
  apply put_norm, Hn.
Qed.

Lemma put_get bs : forall n off,
  Forall (fun b => 0 <= b < 256) bs -> (off + n <= length bs)%nat ->
  flat.put bs off n (flat.get bs off n) = bs.
Proof.
  induction n as [| n IH]; intros off Hn Hl; cbn [flat.put flat.get]; [reflexivity |].
  destruct (lookup_lt_is_Some_2 bs off ltac:(lia)) as [b Hb].
  pose proof (proj1 (Forall_lookup _ _) Hn _ _ Hb) as Hb256. cbn beta in Hb256.
  rewrite Hb. replace (default 0 (Some b)) with b by reflexivity.
  rewrite (Z.mod_small b) by lia.
  replace ((b + 256 * flat.get bs (S off) n) `mod` 256) with b
    by (generalize (flat.get bs (S off) n); intros g; Z.div_mod_to_equations; lia).
  replace ((b + 256 * flat.get bs (S off) n) / 256) with (flat.get bs (S off) n)
    by (generalize (flat.get bs (S off) n); intros g; Z.div_mod_to_equations; lia).
  rewrite IH by (assumption || lia). apply list_insert_id. exact Hb.
Qed.

(** Writing back what was read changes no byte. *)
Lemma write_back m a n x :
  norm m -> flat.read m a n = Some x -> flat.write m a n x = Some m.
Proof.
  intros Hn Hr. pose proof (flat_mem.read_inv _ _ _ _ Hr) as [Hin _].
  rewrite (flat_mem.read_Some _ _ _ Hin) in Hr. injection Hr as <-.
  rewrite (flat_mem.write_Some _ _ _ _ Hin). f_equal.
  destruct m as [b bs]. cbn [flat.base flat.bytes]. f_equal.
  apply put_get; [exact Hn |]. destruct Hin as [H1 H2].
  unfold flat.size in H2. cbn [flat.base flat.bytes] in *. lia.
Qed.

(** One turn of the loop writes the 16 bytes [desc] points to and the two
    bytes of avail.idx, whatever [desc] is; it assigns no member. *)
Lemma flat_body_frame hh node i in_ desc v d' v' :
  flat.add_buf_body hh node i in_ desc v = Some (d', v') ->
  exists m,
    v' = flat.set_mem m v /\
    flat.base m = flat.base (flat.mem v) /\ flat.size m = flat.size (flat.mem v) /\
    (norm (flat.mem v) -> norm m) /\
    forall a k,
      a + Z.of_nat k <= desc \/ desc + 16 <= a ->
      a + Z.of_nat k <= flat.idx_at v \/ flat.idx_at v + 2 <= a ->
      flat.read m a k = flat.read (flat.mem v) a k.
Proof.
  unfold flat.add_buf_body. intros H.
  apply bind_Some in H; destruct H as (m1 & Hw1 & H). apply bind_Some in H; destruct H as (m2 & Hw2 & H).
  apply bind_Some in H; destruct H as (m3 & Hw3 & H). apply bind_Some in H; destruct H as (idx & _ & H).
  apply bind_Some in H; destruct H as (r & _ & H). apply bind_Some in H; destruct H as (m4 & Hw4 & H).
  apply bind_Some in H; destruct H as (idx' & _ & H). apply bind_Some in H; destruct H as (m5 & Hw5 & H).
  apply bind_Some in H; destruct H as (nxt & _ & H). apply bind_Some in H; destruct H as (r' & _ & H).
  injection H as <- <-.
  pose proof (flat_mem.write_inv _ _ _ _ _ Hw1) as (_ & Hb1 & Hs1).
  pose proof (flat_mem.write_inv _ _ _ _ _ Hw2) as (_ & Hb2 & Hs2).
  pose proof (flat_mem.write_inv _ _ _ _ _ Hw3) as (_ & Hb3 & Hs3).
  pose proof (flat_mem.write_inv _ _ _ _ _ Hw4) as (_ & Hb4 & Hs4).
  pose proof (flat_mem.write_inv _ _ _ _ _ Hw5) as (_ & Hb5 & Hs5).
  exists m5. split; [reflexivity |]. split; [congruence |]. split; [congruence |].
  split.
  - intros Hn. eapply write_norm; [exact Hw5 |]. eapply write_norm; [exact Hw4 |].
    eapply write_norm; [exact Hw3 |]. eapply write_norm; [exact Hw2 |].
    eapply write_norm; [exact Hw1 | exact Hn].
  - intros a k Hd Hi.
    unfold flat.desc_flags, flat.desc_paddr, flat.desc_len, flat.desc_next in *.
    rd. reflexivity.
Qed.

Lemma flat_loop_block hh ii : forall i in_ out desc v d' v',
  flat.add_buf_loop hh ii i in_ out desc v = Some (d', v') ->
  exists m,
    v' = flat.set_mem m v /\
    flat.base m = flat.base (flat.mem v) /\ flat.size m = flat.size (flat.mem v) /\
    (norm (flat.mem v) -> norm m).
Proof.
  induction ii as [| node ii IH]; intros i in_ out desc v d' v' H;
    cbn [flat.add_buf_loop] in H.
  - case_bool_decide; [discriminate |]. injection H as <- <-.
    exists (flat.mem v). rewrite set_mem_id. auto.
  - case_bool_decide.
    + apply bind_Some in H; destruct H as ([d1 v1] & Hb & H).
      destruct (flat_body_frame _ _ _ _ _ _ _ _ Hb) as (m1 & -> & Hb1 & Hs1 & Hn1 & _).
      destruct (IH _ _ _ _ _ _ _ H) as (m & -> & Hb2 & Hs2 & Hn2).
      cbn [flat.mem flat.set_mem] in *.
      exists m. split; [reflexivity |]. split; [congruence |]. split; [congruence |].
      auto.
    + injection H as <- <-. exists (flat.mem v). rewrite set_mem_id. auto.
Qed.

(** [add_buf] assigns no member of the vring and leaves the block where
    and as long as it is, whatever it writes. *)
Lemma flat_add_buf_block hh v sg out in_ cookie r v' :
  flat.add_buf hh v sg out in_ cookie = Some (r, v') ->
  exists m,
    v' = flat.set_mem m v /\
    flat.base m = flat.base (flat.mem v) /\ flat.size m = flat.size (flat.mem v) /\
    (norm (flat.mem v) -> norm m).
Proof.
  unfold flat.add_buf. intros H.
  apply bind_Some in H; destruct H as (idx & _ & H). apply bind_Some in H; destruct H as (h & _ & H).
  apply bind_Some in H; destruct H as ([d1 v1] & Hl & H).
  apply bind_Some in H; destruct H as (fl & _ & H). apply bind_Some in H; destruct H as (m & Hw & H).
  injection H as <- <-.
  destruct (flat_loop_block _ _ _ _ _ _ _ _ _ Hl) as (m1 & -> & Hb1 & Hs1 & Hn1).
  cbn [flat.mem flat.set_mem] in *.
  pose proof (flat_mem.write_inv _ _ _ _ _ Hw) as (_ & Hb & Hs).
  exists m. split; [reflexivity |]. split; [congruence |]. split; [congruence |].
  intros Hn. eapply write_norm; [exact Hw | auto].
Qed.

Lemma flat_run_block hh calls : forall v v',
  flat.run hh v calls = Some v' ->
  exists m,
    v' = flat.set_mem m v /\
    flat.base m = flat.base (flat.mem v) /\ flat.size m = flat.size (flat.mem v) /\
    (norm (flat.mem v) -> norm m).
Proof.
  induction calls as [| c calls IH]; intros v v' H; cbn [flat.run] in H.
  - injection H as <-. exists (flat.mem v). rewrite set_mem_id. auto.
  - apply bind_Some in H; destruct H as (v1 & Hs & H).
    assert (H1 : exists m1, v1 = flat.set_mem m1 v /\
                  flat.base m1 = flat.base (flat.mem v) /\
                  flat.size m1 = flat.size (flat.mem v) /\
                  (norm (flat.mem v) -> norm m1)).
    { destruct c as [sg out in_ cookie | len]; cbn [flat.step] in Hs.
      - apply bind_Some in Hs; destruct Hs as ([r v2] & Ha & Hs). injection Hs as <-.
        exact (flat_add_buf_block _ _ _ _ _ _ _ _ Ha).
      - injection Hs as <-. exists (flat.mem v). cbn. rewrite set_mem_id. auto. }
    destruct H1 as (m1 & -> & Hb1 & Hs1 & Hn1).
    destruct (IH _ _ H) as (m & -> & Hb2 & Hs2 & Hn2).
    cbn [flat.mem flat.set_mem] in *.
    exists m. split; [reflexivity |]. split; [congruence |]. split; [congruence |].
    auto.
Qed.

Lemma flat_init_ring_norm avail n : forall i m m',
  flat.init_ring n i avail m = Some m' -> norm m -> norm m'.
Proof.
  induction n as [| n IH]; intros i m m' H Hn; cbn [flat.init_ring] in H.
  - injection H as <-. exact Hn.
  - apply bind_Some in H; destruct H as (m1 & Hw & H). eapply IH; [exact H |].
    eapply write_norm; [exact Hw | exact Hn].
Qed.

Lemma flat_session_norm hh malloc drv num q_index calls f :
  flat.session hh malloc drv num q_index calls = Some f -> norm (flat.mem f).
Proof.
  unfold flat.session. intros H. apply bind_Some in H; destruct H as (f0 & Hc & H).
  destruct (flat_run_block _ _ _ _ H) as (m & -> & _ & _ & Hn).
  cbn [flat.mem flat.set_mem]. apply Hn. clear H Hn.
  unfold flat.vring_ctor in Hc. apply bind_Some in Hc; destruct Hc as (p & _ & Hc).
  apply bind_Some in Hc; destruct Hc as (m0 & Hi & Hc). injection Hc as <-. cbn [flat.mem].
  eapply flat_init_ring_norm; [exact Hi |].
  unfold norm. cbn [flat.bytes]. apply Forall_replicate. lia.
Qed.

(** ** Inside the descriptor table *)

Section InTable.
Variable hh : virtio_hh.
Hypothesis Hsizes : std_sizes hh.

(** The loop on the slots k+1, ..., k+n of the table: it ends at slot
    k+n+1 and writes these descriptors and avail.idx, no other byte. *)
Lemma flat_loop_in_table num ii : forall i in_ out k f v,
  sim hh f v -> cur_inv num k v -> 0 <= k -> num < 2 ^ 16 ->
  in_ + out - i <= Z.of_nat (length ii) ->
  in_ + out - i <= 0 \/ k + (in_ + out - i) < num ->
  exists m v',
    flat.add_buf_loop hh ii i in_ out (flat.desc_at hh f (k + 1)) f
    = Some (flat.desc_at hh f (k + 1 + Z.max 0 (in_ + out - i)), flat.set_mem m f) /\
    add_buf_loop hh ii i in_ out (k + 1) v
    = Some (k + 1 + Z.max 0 (in_ + out - i), v') /\
    sim hh (flat.set_mem m f) v' /\
    (forall a j,
       a + Z.of_nat j <= flat.desc_at hh f (k + 1) \/
       flat.desc_at hh f (k + 1 + Z.max 0 (in_ + out - i)) <= a ->
       a + Z.of_nat j <= flat.idx_at f \/ flat.idx_at f + 2 <= a ->
       flat.read m a j = flat.read (flat.mem f) a j).
Proof.
  destruct Hsizes as [Hsd Hse].
  induction ii as [| node ii IH]; intros i in_ out k f v Hsim Hv H0 Hnum Hlen Hfit.
  - cbn [length] in Hlen. cbn [add_buf_loop flat.add_buf_loop].
    rewrite !bool_decide_eq_false_2 by lia.
    rewrite Z.max_l, Z.add_0_r by lia.
    exists (flat.mem f), v. rewrite set_mem_id. auto.
  - cbn [add_buf_loop flat.add_buf_loop]. case_bool_decide as Hi.
    + destruct (add_buf_body_step hh num k v node i in_ Hv H0 ltac:(lia) Hnum)
        as (v1 & Hb & Hv1 & _).
      destruct (sim_body hh (conj Hsd Hse) _ _ _ _ _ _ _ _ Hsim Hb) as (m1 & Hfb & Hsim1).
      destruct (flat_body_frame _ _ _ _ _ _ _ _ Hfb) as (m1' & Heq & _ & _ & _ & Hfr1).
      assert (m1' = m1) as -> by (injection Heq as ->; reflexivity). clear Heq.
      rewrite Hb, Hfb. cbn [mbind option_bind]. cbn [length] in Hlen.
      destruct (IH (i + 1) in_ out (k + 1) (flat.set_mem m1 f) v1 Hsim1 Hv1
                  ltac:(lia) Hnum ltac:(lia) ltac:(lia))
        as (m & v' & Hfl & Hl & Hsim' & Hfr).
      rewrite (Z.max_r 0 (in_ + out - i)) by lia.
      rewrite (Z.max_r 0 (in_ + out - (i + 1))) in Hfl, Hl, Hfr by lia.
      replace (k + 1 + 1) with (k + 2) in Hfl, Hl, Hfr by lia.
      replace (k + 2 + (in_ + out - (i + 1))) with (k + 1 + (in_ + out - i))
        in Hfl, Hl, Hfr by lia.
      exists m, v'. split; [exact Hfl |]. split; [exact Hl |]. split; [exact Hsim' |].
      intros a j Hd Hx.
      unfold flat.desc_at, flat.idx_at in *. rewrite Hsd in *.
      cbn [flat.mem flat.set_mem flat._desc flat._avail] in *.
      rewrite Hfr by lia. apply Hfr1; lia.
    + rewrite Z.max_l, Z.add_0_r by lia.
      exists (flat.mem f), v. rewrite set_mem_id. auto.
Qed.

(** A submission inside the table on a vring the constructor and such
    submissions left: [add_buf] is its loop, the final
    [desc->_flags &= ~VRING_DESC_F_NEXT] finding a zero descriptor. *)
Lemma in_table_add_buf_frame f v sg out in_ cookie :
  sim hh f v -> ring_inv v -> fresh_past v -> norm (flat.mem f) ->
  fits_call (AddBuf sg out in_ cookie) ->
  vring_avail._idx (avail_mem v) + (out + in_) + 1 < _num v ->
  exists m v',
    flat.add_buf hh f sg out in_ cookie = Some (true, flat.set_mem m f) /\
    flat.add_buf_loop hh (sglist._nodes sg) 0 in_ out
      (flat.desc_at hh f (vring_avail._idx (avail_mem v) + 1)) f
    = Some (flat.desc_at hh f (vring_avail._idx (avail_mem v) + (out + in_) + 1),
            flat.set_mem m f) /\
    add_buf hh v sg out in_ cookie = Some (true, v') /\
    sim hh (flat.set_mem m f) v' /\ ring_inv v' /\ fresh_past v' /\ norm m /\
    _num v' = _num v /\
    vring_avail._idx (avail_mem v') = vring_avail._idx (avail_mem v) + (out + in_) /\
    flat.base m = flat.base (flat.mem f) /\ flat.size m = flat.size (flat.mem f) /\
    (forall a j,
       a + Z.of_nat j <= flat.desc_at hh f (vring_avail._idx (avail_mem v) + 1) \/
       flat.desc_at hh f (vring_avail._idx (avail_mem v) + (out + in_) + 1) <= a ->
       a + Z.of_nat j <= flat.idx_at f \/ flat.idx_at f + 2 <= a ->
       flat.read m a j = flat.read (flat.mem f) a j).
Proof.
  intros Hsim Hinv Hfresh Hnorm (Ho & Hi & Hlen) Hlt. unfold is_u16 in Ho, Hi.
  pose proof (inv_num _ Hinv) as [Hn0 Hn1].
  pose proof (inv_idx _ Hinv) as [Hk0 _].
  set (k := vring_avail._idx (avail_mem v)) in *.
  destruct (add_buf_inv_some hh v sg out in_ cookie Hinv ltac:(lia) Hlen Hlt)
    as (v' & Ha & Hinv' & Hnum' & _ & Hidx' & _).
  fold k in Hidx'.
  destruct (add_buf_fresh_past hh v sg out in_ cookie true v' Hinv Hfresh ltac:(lia) Ha)
    as [Hfresh' _].
  destruct (proj1 (add_buf_is_loop hh v sg out in_ cookie v' Hinv Hfresh ltac:(lia))
                  (ex_intro _ true Ha)) as [Hloop _].
  fold k in Hloop.
  destruct (flat_loop_in_table (_num v) (sglist._nodes sg) 0 in_ out k f v Hsim
              (ring_inv_cur _ Hinv) Hk0 Hn1 ltac:(lia) ltac:(lia))
    as (m & v1 & Hfl & Hl & Hsim1 & Hfr).
  rewrite Z.sub_0_r, (Z.max_r 0 (in_ + out)) in Hfl, Hl, Hfr by lia.
  replace (k + 1 + (in_ + out)) with (k + (out + in_) + 1) in Hfl, Hl, Hfr by lia.
  rewrite Hloop in Hl. injection Hl as <-.
  destruct (flat_loop_block _ _ _ _ _ _ _ _ _ Hfl) as (m' & Heq & Hb & Hs & Hn).
  assert (m' = m) as -> by (injection Heq as ->; reflexivity). clear Heq.
  exists m, v'.
  assert (Hfa : flat.add_buf hh f sg out in_ cookie = Some (true, flat.set_mem m f)).
  { unfold flat.add_buf.
    pose proof (sim_aidx _ _ _ Hsim) as Hix. unfold flat.avail_idx in Hix.
    rewrite Hix. cbn [mbind option_bind]. fold k.
    assert (Hh : load (vring_avail._ring (avail_mem v)) k = Some (k + 1)).
    { rewrite (inv_ring _ Hinv). rewrite load_seqZ by lia. f_equal. lia. }
    pose proof (sim_ring _ _ _ Hsim _ _ Hh) as Hfh. unfold flat.avail_ring in Hfh.
    rewrite Hfh. cbn [mbind option_bind].
    rewrite Hfl. cbn [mbind option_bind].
    assert (Hz : load (desc_mem v') (k + (out + in_) + 1) = Some vring_desc.zero).
    { apply Hfresh'; [right |]; lia. }
    pose proof (sim_desc _ _ _ Hsim1 _ _ Hz) as Hfz. unfold flat.desc in Hfz.
    apply bind_Some in Hfz; destruct Hfz as (pa & _ & Hfz).
    apply bind_Some in Hfz; destruct Hfz as (le & _ & Hfz).
    apply bind_Some in Hfz; destruct Hfz as (fl & Hfl0 & Hfz).
    apply bind_Some in Hfz; destruct Hfz as (nx & _ & Hfz).
    injection Hfz as _ _ -> _.
    cbn [flat.mem flat.set_mem] in *.
    unfold flat.desc_at in *. cbn [flat._desc flat.set_mem] in Hfl0.
    rewrite Hfl0. cbn [mbind option_bind].
    rewrite Z.land_0_l. change (u16 0) with 0.
    rewrite (write_back _ _ _ _ (Hn Hnorm) Hfl0). reflexivity. }
  split; [exact Hfa |]. split; [exact Hfl |]. split; [exact Ha |].
  split; [exact Hsim1 |]. split; [exact Hinv' |]. split; [exact Hfresh' |].
  split; [exact (Hn Hnorm) |]. split; [exact Hnum' |]. split; [exact Hidx' |].
  split; [exact Hb |]. split; [exact Hs |]. exact Hfr.
Qed.
End InTable.

(** The constructor and a run inside the table, on the arrays and on
    the block. *)
Lemma in_table_reached hh malloc drv num q_index p calls :
  block_env hh malloc num p -> Forall fits_call calls ->
  submitted_total calls + 1 < num ->
  exists f v,
    flat.session hh malloc drv num q_index calls = Some f /\
    sim hh f v /\ ring_inv v /\ fresh_past v /\ norm (flat.mem f) /\
    _num v = num /\ vring_avail._idx (avail_mem v) = submitted_total calls /\
    flat._num f = num /\ flat._drv f = drv /\ flat._q_index f = q_index.
Proof.
  intros Henv Hfit Hlt.
  destruct (in_table_session hh malloc drv num q_index p calls Henv Hfit Hlt)
    as (f & v & cs & Hf & Hs & Hsim & Hinv & Hnum & Hidx & Hfn & Hfd & Hfq).
  assert (Hwf : Forall wf_call calls).
  { eapply Forall_impl; [exact Hfit | apply fits_wf_call]. }
  destruct (session_reached hh malloc drv num q_index p calls v cs
              (env_num _ _ _ _ Henv) (env_malloc _ _ _ _ Henv) Hwf Hs)
    as (_ & Hfresh & _).
  exists f, v. split; [exact Hf |]. split; [exact Hsim |]. split; [exact Hinv |].
  split; [exact Hfresh |].
  split; [exact (flat_session_norm _ _ _ _ _ _ _ Hf) |]. auto.
Qed.

(** * The claims on the layout and on the block *)

(** ** Layout, for the queue sizes a vring can have *)

Section LayoutU16.
Variable hh : virtio_hh.
Hypothesis Hwf : wf_hh hh.
Hypothesis Hsd : sizeof_vring_desc hh <= 4096.
Hypothesis Hse : sizeof_vring_used_elem hh <= 4096.






End LayoutU16.



(** ** The constructor's block *)

Lemma pow2_4096 : pow2_ulong 4096.
Proof. exists 12. split; [lia | reflexivity]. Qed.

Lemma block_env_std (num : Z) :
  is_u16 num -> block_env virtio_std (malloc_ok 0x100000) num 0x100000.
Proof.
  intros Hn. pose proof Hn as [Hn0 Hn1].
  assert (Hl : layout_size virtio_std num 4096 < 2 ^ 22).
  { unfold layout_size, desc_bytes, avail_bytes, used_bytes, sizeof_u16. cbn.
    pose proof (round_up_ge (16 * num + 2 * (3 + num)) 4096 ltac:(lia)). lia. }
  split; cbn [VIRTIO_PCI_VRING_ALIGN virtio_std].
  - exact wf_virtio_std.
  - split; reflexivity.
  - exact Hn.
  - exact pow2_4096.
  - split; [lia | exists 256; reflexivity].
  - lia.
  - rewrite (get_size_exact virtio_std wf_virtio_std num 4096 Hn0 pow2_4096) by lia.
    cbn [VIRTIO_ALIGN virtio_std].
    set (g := layout_size virtio_std num 4096) in *.
    assert (Hg0 : 0 <= g).
    { unfold g, layout_size, desc_bytes, avail_bytes, used_bytes, sizeof_u16. cbn.
      pose proof (round_up_ge (16 * num + 2 * (3 + num)) 4096 ltac:(lia)). lia. }
    change 4095 with (2 ^ 12 - 1).
    replace (Z.lnot (2 ^ 12 - 1)) with (- 2 ^ 12) by reflexivity.
    assert (Hland : Z.land (g + (2 ^ 12 - 1)) (- 2 ^ 12) = (g + (2 ^ 12 - 1)) / 2 ^ 12 * 2 ^ 12).
    { rewrite <- (Z.shiftl_mul_pow2 _ 12), <- (Z.shiftr_div_pow2 _ 12) by lia.
      rewrite <- Z.ldiff_ones_r by lia. rewrite Z.ldiff_land.
      f_equal. }
    rewrite Hland.
    pose proof (round_down_bounds (g + (2 ^ 12 - 1)) (2 ^ 12) ltac:(lia)).
    rewrite u32_small by lia. lia.
  - lia.
  - reflexivity.
Qed.

Lemma block_env_ctor_env hh malloc num p :
  block_env hh malloc num p -> ctor_env hh malloc num p.
Proof. intros [? ? ? ? [? _] ? ? ? ?]. split; assumption. Qed.

Lemma ctor_env_block_env hh malloc num p :
  ctor_env hh malloc num p -> (VIRTIO_PCI_VRING_ALIGN hh | p) ->
  block_env hh malloc num p.
Proof. intros [? ? ? ? ? ? ? ? ?] Hd. split; try assumption. split; assumption. Qed.

(** The constructor on a block anywhere: the descriptor table and the
    available ring are inside the block, the used ring starts behind
    them, and every byte of the block outside the ring array is zero. *)
Lemma flat_ctor_any_base hh malloc drv num q_index p :
  ctor_env hh malloc num p ->
  exists f,
    flat.vring_ctor hh malloc drv num q_index = Some f /\
    flat._num f = num /\ flat._vring_ptr f = p /\ flat._desc f = p /\
    flat._avail f = p + 16 * num /\
    flat.ring_at (flat._avail f) num <= flat._used f /\
    flat.base (flat.mem f) = p /\
    flat.size (flat.mem f)
    = u32 (VIRTIO_ALIGN hh (get_size hh num (VIRTIO_PCI_VRING_ALIGN hh))) /\
    flat.ring_at (flat._avail f) num <= p + flat.size (flat.mem f) /\
    (forall a k, flat.inside (flat.mem f) a k ->
                 a + Z.of_nat k <= flat.ring_at (flat._avail f) 0 \/
                 flat.ring_at (flat._avail f) num <= a ->
                 flat.read (flat.mem f) a k = Some 0) /\
    (forall i, 0 <= i < num -> flat.avail_ring f i = Some (i + 1)).
Proof.
  intros [Hwf [Hsd Hse] Hnum Ha Hp Hfit Hsz Hfit64 Hm].
  pose proof Hnum as [Hn0 Hn1].
  pose proof (pow2_ulong_bounds _ Ha) as Hab.
  set (sz := u32 (VIRTIO_ALIGN hh (get_size hh num (VIRTIO_PCI_VRING_ALIGN hh)))) in *.
  rewrite (get_size_exact hh Hwf num _ Hn0 Ha Hfit) in Hsz.
  set (A := VIRTIO_PCI_VRING_ALIGN hh) in *.
  pose proof (round_up_ge (desc_bytes hh num + avail_bytes num) A ltac:(lia)) as Hr.
  unfold layout_size, desc_bytes, avail_bytes, used_bytes, sizeof_u16 in *.
  rewrite Hsd, Hse in *.
  unfold flat.vring_ctor.
  change (u32 (VIRTIO_ALIGN hh (get_size hh num (VIRTIO_PCI_VRING_ALIGN hh)))) with sz.
  change (VIRTIO_PCI_VRING_ALIGN hh) with A.
  rewrite Hm. cbn [mbind option_bind].
  rewrite Hsd. unfold sizeof_u16.
  rewrite (Z.mul_comm num 16).
  rewrite (ulong_small (16 * num)) by lia.
  rewrite (ulong_small (p + 16 * num)) by lia.
  rewrite (ulong_small (p + 16 * num + _ + _)) by lia.
  rewrite (ulong_small (p + 16 * num + _ + _ + 2)) by lia.
  rewrite (ulong_small (p + 16 * num + _ + _ + 2 + A)) by lia.
  rewrite (ulong_small (p + 16 * num + _ + _ + 2 + A - 1)) by lia.
  assert (Hland : p + 16 * num + 2 * 2 + 2 * num + 2 - 1
                  < Z.land (p + 16 * num + 2 * 2 + 2 * num + 2 + A - 1)
                           (ulong (Z.lnot (A - 1)))).
  { destruct Ha as (k & Hk & HA). rewrite HA at 2.
    rewrite land_not_pow2' by (rewrite <- ?HA; lia). rewrite <- HA.
    pose proof (round_down_bounds (p + 16 * num + 2 * 2 + 2 * num + 2 + A - 1) A
                  ltac:(lia)). lia. }
  set (used_p := Z.land _ _) in *.
  set (m0 := flat.mk_block p (replicate (Z.to_nat sz) 0)).
  assert (Hsz0 : 0 <= sz) by (unfold sz, u32; apply Z.mod_pos_bound; lia).
  assert (Hsize0 : flat.size m0 = sz).
  { unfold flat.size, m0. cbn. rewrite length_replicate. lia. }
  destruct (flat_init_ring_spec (p + 16 * num) (Z.to_nat num) 0 m0)
    as (m & Hinit & Hb & Hs & Hring & Hframe).
  { unfold flat.inside, flat.ring_at, flat.avail_ring_off, sizeof_u16.
    rewrite Hsize0. cbn [flat.base m0]. lia. }
  { lia. } { lia. }
  rewrite Hinit. cbn [mbind option_bind].
  rewrite Z2Nat.id in Hring, Hframe by lia.
  eexists. split; [reflexivity |].
  cbn [flat._num flat._vring_ptr flat._desc flat._avail flat._used flat.mem].
  rewrite Hb, Hs, Hsize0. cbn [flat.base m0].
  unfold flat.avail_ring. cbn [flat.mem flat._avail].
  unfold flat.ring_at, flat.avail_ring_off, sizeof_u16 in *.
  repeat (split; [first [reflexivity | lia] |]).
  split.
  - intros a k Hin Hk. rewrite Hframe by (rewrite ?Z.add_0_l; exact Hk).
    apply flat_mem.read_zero. change (flat.inside m0 a k).
    unfold flat.inside in *. rewrite <- Hb, <- Hs. exact Hin.
  - intros i Hi. rewrite Hring by lia. reflexivity.
Qed.

(** C10: right after construction with queue size [num] the block is
    the [sz] bytes [memset] has cleared with the ring array of the
    available ring written over them: slot i holds i+1, a nonzero value,
    for every i < num, and every other byte of the block is zero, so
    that avail.idx and avail.flags and every descriptor read as zero;
    with the block at a multiple of the ring alignment, as [get_size]
    lays the ring out, the whole used ring is inside the block and reads
    as zero. *)
Theorem vring_ctor_initial_state hh malloc drv num q_index p :
  ctor_env hh malloc num p ->
  exists f,
    flat.vring_ctor hh malloc drv num q_index = Some f /\
    flat._num f = num /\
    flat.base (flat.mem f) = p /\
    flat.size (flat.mem f)
    = u32 (VIRTIO_ALIGN hh (get_size hh num (VIRTIO_PCI_VRING_ALIGN hh))) /\
    (forall a k, flat.inside (flat.mem f) a k ->
                 a + Z.of_nat k <= flat.ring_at (flat._avail f) 0 \/
                 flat.ring_at (flat._avail f) num <= a ->
                 flat.read (flat.mem f) a k = Some 0) /\
    (forall i, 0 <= i < num -> flat.avail_ring f i = Some (i + 1) /\ i + 1 <> 0) /\
    flat.avail_idx f = Some 0 /\
    flat.avail_flags f = Some 0 /\
    (forall i, 0 <= i < num -> flat.desc hh f i = Some vring_desc.zero) /\
    ((VIRTIO_PCI_VRING_ALIGN hh | p) ->
     flat.used_idx f = Some 0 /\
     flat.used_flags f = Some 0 /\
     forall i, 0 <= i < num -> flat.used_elem hh f i = Some vring_used_elem.zero).
Proof.
  intros Henv.
  destruct (flat_ctor_any_base hh malloc drv num q_index p Henv)
    as (f & Hf & Hnum & _ & Hd & Hav & Hus & Hbase & Hsize & Hend & Hzero & Hring).
  pose proof (cenv_num _ _ _ _ Henv) as [Hn0 Hn1].
  destruct (cenv_sizes _ _ _ _ Henv) as [Hsd Hse].
  assert (Hins : forall a k, p <= a ->
                   a + Z.of_nat k <= flat.ring_at (flat._avail f) 0 ->
                   flat.read (flat.mem f) a k = Some 0).
  { intros a k H1 H2. apply Hzero; [| left; exact H2].
    unfold flat.inside. rewrite Hbase. split; [exact H1 |].
    unfold flat.ring_at, flat.avail_ring_off, sizeof_u16 in *. lia. }
  exists f. split; [exact Hf |]. split; [exact Hnum |]. split; [exact Hbase |].
  split; [exact Hsize |]. split; [exact Hzero |].
  split; [intros i Hi; split; [apply Hring; exact Hi | lia] |].
  unfold flat.ring_at, flat.avail_ring_off, sizeof_u16 in Hins.
  split; [flat_unfold; apply Hins; lia |].
  split; [flat_unfold; apply Hins; lia |].
  split.
  { intros i Hi. flat_unfold. rewrite Hsd, Hd. rewrite !Hins by lia. reflexivity. }
  intros Hdiv.
  destruct (vring_ctor_refines hh malloc drv num q_index p
              (ctor_env_block_env _ _ _ _ Henv Hdiv))
    as (f' & v & Hf' & Hv & Hsim & _).
  rewrite Hf in Hf'. injection Hf' as <-.
  destruct (vring_ctor_Some hh malloc drv num q_index p (cenv_num _ _ _ _ Henv)
              (cenv_malloc _ _ _ _ Henv)) as (v' & Hv' & Hvn & Hvd & Hva & Hvu).
  rewrite Hv in Hv'. injection Hv' as <-.
  split; [rewrite (sim_uidx _ _ _ Hsim), Hvu; reflexivity |].
  split; [rewrite (sim_uflags _ _ _ Hsim), Hvu; reflexivity |].
  intros i Hi. apply (sim_uelem _ _ _ Hsim). rewrite Hvu. cbn [vring_used._ring].
  apply load_replicate. lia.
Qed.

Lemma vring_ctor_initial_state_witness :
  ctor_env virtio_std (malloc_ok 0x100000) 4 0x100000 /\
  exists f,
    flat.vring_ctor virtio_std (malloc_ok 0x100000) 7 4 0 = Some f /\
    flat.size (flat.mem f) = 8192 /\
    flat.avail_ring f 3 = Some 4 /\
    flat.avail_idx f = Some 0 /\
    flat.desc virtio_std f 3 = Some vring_desc.zero /\
    flat.used_elem virtio_std f 3 = Some vring_used_elem.zero.
Proof.
  assert (H4 : is_u16 4) by (unfold is_u16; lia).
  assert (Hdiv : (VIRTIO_PCI_VRING_ALIGN virtio_std | 0x100000))
    by (exists 256; reflexivity).
  split; [exact (block_env_ctor_env _ _ _ _ (block_env_std 4 H4)) |].
  destruct (vring_ctor_initial_state virtio_std (malloc_ok 0x100000) 7 4 0 0x100000
              (block_env_ctor_env _ _ _ _ (block_env_std 4 H4)))
    as (f & Hf & _ & _ & Hsize & _ & Hring & Hidx & _ & Hdesc & Hused).
  exists f. split; [exact Hf |]. split; [exact Hsize |].
  split; [exact (proj1 (Hring 3 ltac:(lia))) |]. split; [exact Hidx |].
  split; [exact (Hdesc 3 ltac:(lia)) |].
  exact (proj2 (proj2 (Hused Hdiv)) 3 ltac:(lia)).
Defined.

(** ** Submission on the block *)

Lemma flat_add_buf_true hh f sg out in_ cookie r f' :
  flat.add_buf hh f sg out in_ cookie = Some (r, f') -> r = true.
Proof.
  unfold flat.add_buf. intros H.
  destruct (flat.read _ _ _); [| discriminate]. cbn [mbind option_bind] in H.
  destruct (flat.read _ _ _); [| discriminate]. cbn [mbind option_bind] in H.
  destruct (flat.add_buf_loop _ _ _ _ _ _ _) as [[d v1] |]; [| discriminate].
  cbn [mbind option_bind] in H.
  destruct (flat.read _ _ _); [| discriminate]. cbn [mbind option_bind] in H.
  destruct (flat.write _ _ _ _); [| discriminate]. cbn [mbind option_bind] in H.
  congruence.
Qed.




(** ** The loop and the list *)

Section FlatCompose.
Variable hh : virtio_hh.
Hypothesis Hwf : wf_hh hh.

Lemma flat_body_count node i in_ i' in_' desc v :
  flat.add_buf_body hh node i in_ desc v = flat.add_buf_body hh node i' in_' desc v.
Proof.
  unfold flat.add_buf_body. rewrite !desc_flags_expr_write by assumption. reflexivity.
Qed.

Lemma flat_loop_count ii : forall i in_ out desc v,
  flat.add_buf_loop hh ii i in_ out desc v
  = flat.add_buf_loop hh ii 0 0 (in_ + out - i) desc v.
Proof.
  induction ii as [| node ii IH]; intros i in_ out desc v; cbn [flat.add_buf_loop].
  - repeat case_bool_decide; first [reflexivity | lia].
  - rewrite (flat_body_count node i in_ 0 0).
    repeat case_bool_decide; try reflexivity; try lia.
    destruct (flat.add_buf_body hh node 0 0 desc v) as [[d1 v1] |]; [| reflexivity].
    cbn [mbind option_bind]. rewrite IH, (IH (0 + 1)). f_equal. lia.
Qed.

Lemma flat_loop_app l1 l2 m desc v :
  0 <= m ->
  flat.add_buf_loop hh (l1 ++ l2) 0 0 (Z.of_nat (length l1) + m) desc v
  = '(d1, v1) ← flat.add_buf_loop hh l1 0 0 (Z.of_nat (length l1)) desc v;
    flat.add_buf_loop hh l2 0 0 m d1 v1.
Proof.
  intros Hm. revert desc v. induction l1 as [| node l1 IH]; intros desc v.
  - cbn [app length]. change (Z.of_nat 0) with 0. rewrite Z.add_0_l.
    cbn [flat.add_buf_loop]. rewrite (bool_decide_eq_false_2 (0 < 0 + 0)) by lia.
    reflexivity.
  - cbn [app length flat.add_buf_loop]. rewrite !bool_decide_eq_true_2 by lia.
    destruct (flat.add_buf_body hh node 0 0 desc v) as [[d1 v1] |]; [| reflexivity].
    cbn [mbind option_bind]. rewrite flat_loop_count, (flat_loop_count l1).
    replace (0 + (Z.of_nat (S (length l1)) + m) - (0 + 1))
      with (Z.of_nat (length l1) + m) by lia.
    replace (0 + Z.of_nat (S (length l1)) - (0 + 1)) with (Z.of_nat (length l1)) by lia.
    apply IH.
Qed.
End FlatCompose.

(** ** The submissions a vring takes *)

(** C3 (as stated) fails in its own scenario: on a queue of size 2, two
    single-segment submissions return true, and so does the third, with
    no reclaim in between. The second has its descriptor at index 2,
    which is the available ring (flags 0x1000, ring entries cleared); the
    third writes descriptor 0. Likewise the submission of five segments
    on a fresh queue of 4 returns true. *)
Lemma add_buf_queue_full_counterexample :
  flat.vring_ctor virtio_std (malloc_ok 0x100000) 7 4 0 = Some fqueue4 /\
  flat.add_buf virtio_std fqueue4 sg5 3 2 cookie_A = Some (true, fqueue4_sg5) /\
  flat.vring_ctor virtio_std (malloc_ok 0x100000) 7 2 0 = Some fqueue2 /\
  flat.add_buf virtio_std fqueue2 sg1 1 0 cookie_A = Some (true, fqueue2_1) /\
  flat.add_buf virtio_std fqueue2_1 sg1 1 0 cookie_A = Some (true, fqueue2_2) /\
  flat.add_buf virtio_std fqueue2_2 sg1 1 0 cookie_A = Some (true, fqueue2_3) /\
  (forall f', flat.add_buf virtio_std fqueue2_2 sg1 1 0 cookie_A <> Some (false, f')) /\
  flat.desc virtio_std fqueue2_1 1 = Some (vring_desc.mk 0x1000 16 2 1) /\
  flat.avail_flags fqueue2_2 = Some 0x1000 /\
  flat.avail_ring fqueue2_2 0 = Some 0 /\ flat.avail_ring fqueue2_2 1 = Some 0 /\
  flat.avail_idx fqueue2_2 = Some 1 /\
  flat.desc virtio_std fqueue2_3 0 = Some (vring_desc.mk 0x1000 16 2 0) /\
  flat.avail_idx fqueue2_3 = Some 2.
Proof.
  assert (H3 : flat.add_buf virtio_std fqueue2_2 sg1 1 0 cookie_A
               = Some (true, fqueue2_3)) by (vm_compute; reflexivity).
  split; [vm_compute; reflexivity |]. split; [vm_compute; reflexivity |].
  split; [vm_compute; reflexivity |]. split; [vm_compute; reflexivity |].
  split; [vm_compute; reflexivity |]. split; [exact H3 |].
  split; [intros f'; rewrite H3; discriminate |].
  repeat split; vm_compute; reflexivity.
Qed.

(** C3 (amended): [add_buf] has no failure result: it checks no free
    slot and returns true whenever it returns. On a vring the
    constructor made and submissions inside the descriptor table have
    used it returns, with true, whenever its list holds out + in
    segments and out + in is at most the number of slots left behind
    avail.idx, num - 1 - avail.idx, the last slot of the table
    included. *)
Theorem add_buf_no_failure_result hh :
  (forall f sg out in_ cookie r f',
     flat.add_buf hh f sg out in_ cookie = Some (r, f') -> r = true) /\
  (forall malloc drv num q_index p calls sg out in_ cookie,
     block_env hh malloc num p ->
     Forall fits_call calls -> fits_call (AddBuf sg out in_ cookie) ->
     submitted_total calls + 1 < num ->
     out + in_ <= num - 1 - submitted_total calls ->
     exists f f',
       flat.session hh malloc drv num q_index calls = Some f /\
       flat.avail_idx f = Some (submitted_total calls) /\
       flat.add_buf hh f sg out in_ cookie = Some (true, f')).
Proof.
  split; [apply flat_add_buf_true |].
  intros malloc drv num q_index p calls sg out in_ cookie Henv Hfit Hc Hlt Hfree.
  pose proof Hc as (Ho & Hi & _). unfold is_u16 in Ho, Hi.
  destruct (in_table_session hh malloc drv num q_index p calls Henv Hfit Hlt)
    as (f & v & cs & Hf & _ & Hsim & Hinv & Hnum & Hidx & _).
  exists f.
  assert (Hix : flat.avail_idx f = Some (submitted_total calls))
    by (rewrite (sim_aidx _ _ _ Hsim); congruence).
  destruct (Z.eq_dec (submitted_total calls + (out + in_) + 1) num) as [Heq | Hne].
  - destruct (last_slot_add_buf hh f v sg out in_ cookie (env_sizes _ _ _ _ Henv)
                Hsim Hinv Hc ltac:(lia)) as (f' & Ha).
    exists f'. auto.
  - destruct (in_table_add_buf hh f v sg out in_ cookie (env_sizes _ _ _ _ Henv)
                Hsim Hinv Hc ltac:(lia)) as (f' & _ & Ha & _).
    exists f'. auto.
Qed.

Lemma fits_single : fits_call single.
Proof. cbn. unfold is_u16. repeat split; lia. Qed.

Lemma add_buf_no_failure_result_witness :
  block_env virtio_std (malloc_ok 0x100000) 2 0x100000 /\
  fits_call single /\ submitted_total [] + 1 < 2 /\
  1 + 0 <= 2 - 1 - submitted_total [] /\
  exists f f',
    flat.session virtio_std (malloc_ok 0x100000) 7 2 0 [] = Some f /\
    flat.avail_idx f = Some (submitted_total []) /\
    flat.add_buf virtio_std f sg1 1 0 cookie_A = Some (true, f').
Proof.
  assert (H2 : is_u16 2) by (unfold is_u16; lia).
  assert (Hlt : submitted_total [] + 1 < 2) by (cbn; lia).
  assert (Hfree : 1 + 0 <= 2 - 1 - submitted_total []) by (cbn; lia).
  split; [exact (block_env_std 2 H2) |]. split; [exact fits_single |].
  split; [exact Hlt |]. split; [exact Hfree |].
  exact (proj2 (add_buf_no_failure_result virtio_std) (malloc_ok 0x100000) 7 2 0
               0x100000 [] sg1 1 0 cookie_A (block_env_std 2 H2) (Forall_nil_2 _)
               fits_single Hlt Hfree).
Defined.

(** ** What a submission inside the table writes *)

Section Reached.
Variables (hh : virtio_hh) (malloc : Z -> option Z) (drv num q_index p : Z).
Variable calls : list call.
Hypothesis Henv : block_env hh malloc num p.
Hypothesis Hfit : Forall fits_call calls.

Lemma reached_add_buf sg out in_ cookie :
  fits_call (AddBuf sg out in_ cookie) ->
  submitted_total calls + (out + in_) + 1 < num ->
  exists f v m v',
    flat.session hh malloc drv num q_index calls = Some f /\
    sim hh f v /\ ring_inv v /\ fresh_past v /\ norm (flat.mem f) /\ _num v = num /\
    vring_avail._idx (avail_mem v) = submitted_total calls /\
    flat.add_buf hh f sg out in_ cookie = Some (true, flat.set_mem m f) /\
    flat.add_buf_loop hh (sglist._nodes sg) 0 in_ out
      (flat.desc_at hh f (submitted_total calls + 1)) f
    = Some (flat.desc_at hh f (submitted_total calls + (out + in_) + 1),
            flat.set_mem m f) /\
    add_buf hh v sg out in_ cookie = Some (true, v') /\
    sim hh (flat.set_mem m f) v' /\ ring_inv v' /\ fresh_past v' /\ norm m /\
    _num v' = num /\
    vring_avail._idx (avail_mem v') = submitted_total calls + (out + in_) /\
    flat.base m = flat.base (flat.mem f) /\ flat.size m = flat.size (flat.mem f) /\
    (forall a j,
       a + Z.of_nat j <= flat.desc_at hh f (submitted_total calls + 1) \/
       flat.desc_at hh f (submitted_total calls + (out + in_) + 1) <= a ->
       a + Z.of_nat j <= flat.idx_at f \/ flat.idx_at f + 2 <= a ->
       flat.read m a j = flat.read (flat.mem f) a j).
Proof.
  intros Hc Hlt. pose proof Hc as (Ho & Hi & _). unfold is_u16 in Ho, Hi.
  destruct (in_table_reached hh malloc drv num q_index p calls Henv Hfit ltac:(lia))
    as (f & v & Hf & Hsim & Hinv & Hfresh & Hnorm & Hnum & Hidx & _).
  destruct (in_table_add_buf_frame hh (env_sizes _ _ _ _ Henv) f v sg out in_ cookie
              Hsim Hinv Hfresh Hnorm Hc ltac:(lia))
    as (m & v' & Ha & Hl & Ha' & Hsim' & Hinv' & Hfresh' & Hnorm' & Hnum' & Hidx'
        & Hb & Hs & Hfr).
  rewrite Hidx in *.
  exists f, v, m, v'. repeat (split; [first [assumption | congruence] |]). exact Hfr.
Qed.
End Reached.

(** X7: a submission inside the descriptor table (on a vring the
    constructor made and such submissions have used; the segments
    submitted so far, out + in more and one are below the queue size)
    returns true, assigns no member of the vring and changes no byte of
    the block but the descriptors idx+1, ..., idx+out+in of its chain and
    the two bytes of avail.idx: the flags and the ring array of the
    available ring and the used ring are as before. *)
Theorem add_buf_in_table_frame hh malloc drv num q_index p calls sg out in_ cookie :
  block_env hh malloc num p ->
  Forall fits_call calls -> fits_call (AddBuf sg out in_ cookie) ->
  submitted_total calls + (out + in_) + 1 < num ->
  exists f f',
    flat.session hh malloc drv num q_index calls = Some f /\
    flat.add_buf hh f sg out in_ cookie = Some (true, f') /\
    f' = flat.set_mem (flat.mem f') f /\
    flat.base (flat.mem f') = flat.base (flat.mem f) /\
    flat.size (flat.mem f') = flat.size (flat.mem f) /\
    (forall a j,
       a + Z.of_nat j <= flat.desc_at hh f (submitted_total calls + 1) \/
       flat.desc_at hh f (submitted_total calls + (out + in_) + 1) <= a ->
       a + Z.of_nat j <= flat.idx_at f \/ flat.idx_at f + 2 <= a ->
       flat.read (flat.mem f') a j = flat.read (flat.mem f) a j) /\
    flat.avail_flags f' = flat.avail_flags f /\
    (forall k, 0 <= k -> flat.avail_ring f' k = flat.avail_ring f k) /\
    flat.used_flags f' = flat.used_flags f /\
    flat.used_idx f' = flat.used_idx f /\
    (forall k, 0 <= k -> flat.used_elem hh f' k = flat.used_elem hh f k).
Proof.
  intros Henv Hfit Hc Hlt. pose proof Hc as (Ho & Hi & _). unfold is_u16 in Ho, Hi.
  pose proof (submitted_total_nonneg _ Hfit) as Hnn.
  destruct (reached_add_buf hh malloc drv num q_index p calls Henv Hfit sg out in_ cookie
              Hc Hlt)
    as (f & v & m & v' & Hf & Hsim & _ & _ & _ & Hnum & _ & Ha & _ & _ & _ & _ & _ & _
        & _ & _ & Hb & Hs & Hfr).
  destruct (env_sizes _ _ _ _ Henv) as [Hsd Hse].
  destruct (sim_table _ _ _ Hsim) as [Hn Hbd Hba Hbu Hbe].
  pose proof (sim_num _ _ _ Hsim) as Hfn.
  exists f, (flat.set_mem m f). cbn [flat.mem flat.set_mem].
  split; [exact Hf |]. split; [exact Ha |]. split; [reflexivity |].
  split; [exact Hb |]. split; [exact Hs |]. split; [exact Hfr |].
  flat_unfold. rewrite Hsd, Hse in *.
  cbn [flat.mem flat.set_mem flat._avail flat._desc flat._used flat._num] in *.
  split; [apply Hfr; lia |].
  split; [intros k Hk; apply Hfr; lia |].
  split; [apply Hfr; lia |]. split; [apply Hfr; lia |].
  intros k Hk. rewrite !Hfr by lia. reflexivity.
Qed.

Lemma add_buf_in_table_frame_witness :
  block_env virtio_std (malloc_ok 0x100000) 4 0x100000 /\
  fits_call (AddBuf sg2 1 1 cookie_A) /\ submitted_total [] + (1 + 1) + 1 < 4 /\
  exists f f',
    flat.session virtio_std (malloc_ok 0x100000) 7 4 0 [] = Some f /\
    flat.add_buf virtio_std f sg2 1 1 cookie_A = Some (true, f') /\
    flat.used_idx f' = flat.used_idx f /\
    flat.avail_ring f' 3 = flat.avail_ring f 3.
Proof.
  assert (H4 : is_u16 4) by (unfold is_u16; lia).
  assert (Hc : fits_call (AddBuf sg2 1 1 cookie_A))
    by (cbn; unfold is_u16; repeat split; lia).
  assert (Hlt : submitted_total [] + (1 + 1) + 1 < 4) by (cbn; lia).
  split; [exact (block_env_std 4 H4) |]. split; [exact Hc |]. split; [exact Hlt |].
  destruct (add_buf_in_table_frame virtio_std (malloc_ok 0x100000) 7 4 0 0x100000 []
              sg2 1 1 cookie_A (block_env_std 4 H4) (Forall_nil_2 _) Hc Hlt)
    as (f & f' & Hf & Ha & _ & _ & _ & _ & _ & Hring & _ & Huidx & _).
  exists f, f'. split; [exact Hf |]. split; [exact Ha |]. split; [exact Huidx |].
  apply Hring. lia.
Defined.

(** X9: a submission inside the descriptor table writes the descriptors
    of its own chain and no other: slot idx+1+j gets the address and the
    length of segment j, the flags WRITE and its own index as next, and
    every other descriptor of the table, those of the chains submitted
    before included, is as it was. *)
Theorem add_buf_keeps_other_descriptors hh malloc drv num q_index p calls
        sg out in_ cookie :
  block_env hh malloc num p ->
  Forall fits_call calls -> fits_call (AddBuf sg out in_ cookie) ->
  submitted_total calls + (out + in_) + 1 < num ->
  exists f f',
    flat.session hh malloc drv num q_index calls = Some f /\
    flat.add_buf hh f sg out in_ cookie = Some (true, f') /\
    (forall s, 0 <= s < num ->
       ~ submitted_total calls + 1 <= s <= submitted_total calls + (out + in_) ->
       flat.desc hh f' s = flat.desc hh f s) /\
    (forall j node, sglist._nodes sg !! j = Some node -> Z.of_nat j < out + in_ ->
       flat.desc hh f' (submitted_total calls + 1 + Z.of_nat j)
       = Some (vring_desc.mk (ulong (sglist._paddr node)) (u32 (sglist._len node))
                             (VRING_DESC_F_WRITE hh)
                             (submitted_total calls + 1 + Z.of_nat j))).
Proof.
  intros Henv Hfit Hc Hlt. pose proof Hc as (Ho & Hi & Hlen). unfold is_u16 in Ho, Hi.
  pose proof (submitted_total_nonneg _ Hfit) as Hnn.
  destruct (reached_add_buf hh malloc drv num q_index p calls Henv Hfit sg out in_ cookie
              Hc Hlt)
    as (f & v & m & v' & Hf & Hsim & Hinv & _ & _ & Hnum & Hidx & Ha & _ & Ha' & Hsim'
        & _ & _ & _ & _ & _ & _ & _ & Hfr).
  destruct (env_sizes _ _ _ _ Henv) as [Hsd Hse].
  destruct (sim_table _ _ _ Hsim) as [Hn Hbd Hba Hbu Hbe].
  pose proof (sim_num _ _ _ Hsim) as Hfn.
  exists f, (flat.set_mem m f). split; [exact Hf |]. split; [exact Ha |]. split.
  - intros s Hs Hout. flat_unfold. rewrite Hsd, Hse in *.
    cbn [flat.mem flat.set_mem flat._avail flat._desc flat._used flat._num] in *.
    rewrite !Hfr by lia. reflexivity.
  - intros j node Hj Hjn.
    destruct (add_buf_chain_all_write hh v sg out in_ cookie (env_wf _ _ _ _ Henv) Hinv
                ltac:(lia) Hlen ltac:(lia)) as (v'' & Ha'' & Hch).
    rewrite Ha' in Ha''. injection Ha'' as <-.
    specialize (Hch j node Hj Hjn). rewrite Hidx in Hch.
    exact (sim_desc _ _ _ Hsim' _ _ Hch).
Qed.

Lemma add_buf_keeps_other_descriptors_witness :
  block_env virtio_std (malloc_ok 0x100000) 4 0x100000 /\
  Forall fits_call [single] /\ fits_call single /\
  submitted_total [single] + (1 + 0) + 1 < 4 /\
  exists f f',
    flat.session virtio_std (malloc_ok 0x100000) 7 4 0 [single] = Some f /\
    flat.add_buf virtio_std f sg1 1 0 cookie_A = Some (true, f') /\
    flat.desc virtio_std f' 1 = flat.desc virtio_std f 1 /\
    flat.desc virtio_std f' 2 = Some (vring_desc.mk 0x1000 16 2 2).
Proof.
  assert (H4 : is_u16 4) by (unfold is_u16; lia).
  assert (Hf : Forall fits_call [single]) by (repeat constructor; apply fits_single).
  assert (Hlt : submitted_total [single] + (1 + 0) + 1 < 4) by (cbn; lia).
  split; [exact (block_env_std 4 H4) |]. split; [exact Hf |].
  split; [exact fits_single |]. split; [exact Hlt |].
  destruct (add_buf_keeps_other_descriptors virtio_std (malloc_ok 0x100000) 7 4 0
              0x100000 [single] sg1 1 0 cookie_A (block_env_std 4 H4) Hf fits_single Hlt)
    as (f & f' & Hs & Ha & Hoth & Hch).
  exists f, f'. split; [exact Hs |]. split; [exact Ha |].
  split; [apply Hoth; cbn; lia |].
  exact (Hch 0%nat (sglist.mk_node 0x1000 16) eq_refl ltac:(lia)).
Defined.

(** X10: on a vring the constructor made and submissions inside the
    descriptor table have used, descriptor 0 and the descriptors behind
    avail.idx have never been written: they are zero. *)
Theorem session_unwritten_descriptors hh malloc drv num q_index p calls :
  block_env hh malloc num p -> Forall fits_call calls ->
  submitted_total calls + 1 < num ->
  exists f,
    flat.session hh malloc drv num q_index calls = Some f /\
    flat.avail_idx f = Some (submitted_total calls) /\
    forall s, s = 0 \/ submitted_total calls < s -> 0 <= s < num ->
              flat.desc hh f s = Some vring_desc.zero.
Proof.
  intros Henv Hfit Hlt.
  destruct (in_table_reached hh malloc drv num q_index p calls Henv Hfit Hlt)
    as (f & v & Hf & Hsim & _ & Hfresh & _ & Hnum & Hidx & _).
  exists f. split; [exact Hf |].
  split; [rewrite (sim_aidx _ _ _ Hsim); congruence |].
  intros s Hs Hb. apply (sim_desc _ _ _ Hsim). apply Hfresh; [| lia].
  rewrite Hidx. exact Hs.
Qed.

Lemma session_unwritten_descriptors_witness :
  block_env virtio_std (malloc_ok 0x100000) 4 0x100000 /\
  Forall fits_call [single] /\ submitted_total [single] + 1 < 4 /\
  exists f,
    flat.session virtio_std (malloc_ok 0x100000) 7 4 0 [single] = Some f /\
    flat.desc virtio_std f 0 = Some vring_desc.zero /\
    flat.desc virtio_std f 3 = Some vring_desc.zero.
Proof.
  assert (H4 : is_u16 4) by (unfold is_u16; lia).
  assert (Hf : Forall fits_call [single]) by (repeat constructor; apply fits_single).
  assert (Hlt : submitted_total [single] + 1 < 4) by (cbn; lia).
  split; [exact (block_env_std 4 H4) |]. split; [exact Hf |]. split; [exact Hlt |].
  destruct (session_unwritten_descriptors virtio_std (malloc_ok 0x100000) 7 4 0
              0x100000 [single] (block_env_std 4 H4) Hf Hlt) as (f & Hs & _ & Hz).
  exists f. split; [exact Hs |].
  split; [apply Hz; [left; reflexivity | lia] | apply Hz; [right; cbn; lia | lia]].
Defined.

(** X11: a submission of no segment (out = in = 0) inside the
    descriptor table returns true and changes nothing: the vring and
    every byte of the block are as before. *)
Theorem add_buf_empty hh malloc drv num q_index p calls :
  block_env hh malloc num p -> Forall fits_call calls ->
  submitted_total calls + 1 < num ->
  exists f,
    flat.session hh malloc drv num q_index calls = Some f /\
    forall sg cookie, flat.add_buf hh f sg 0 0 cookie = Some (true, f).
Proof.
  intros Henv Hfit Hlt.
  destruct (in_table_reached hh malloc drv num q_index p calls Henv Hfit Hlt)
    as (f & v & Hf & Hsim & Hinv & Hfresh & Hnorm & Hnum & Hidx & _).
  exists f. split; [exact Hf |]. intros sg cookie.
  assert (Hc : fits_call (AddBuf sg 0 0 cookie)).
  { cbn. unfold is_u16. repeat split; lia. }
  destruct (in_table_add_buf_frame hh (env_sizes _ _ _ _ Henv) f v sg 0 0 cookie
              Hsim Hinv Hfresh Hnorm Hc ltac:(lia)) as (m & v' & Ha & Hl & _).
  assert (Hm : flat.set_mem m f = f).
  { destruct (sglist._nodes sg); cbn [flat.add_buf_loop] in Hl;
      rewrite bool_decide_eq_false_2 in Hl by lia; injection Hl as _ Hl; auto. }
  rewrite Hm in Ha. exact Ha.
Qed.

Lemma add_buf_empty_witness :
  block_env virtio_std (malloc_ok 0x100000) 4 0x100000 /\
  Forall fits_call [single] /\ submitted_total [single] + 1 < 4 /\
  exists f,
    flat.session virtio_std (malloc_ok 0x100000) 7 4 0 [single] = Some f /\
    flat.add_buf virtio_std f sg2 0 0 cookie_A = Some (true, f).
Proof.
  assert (H4 : is_u16 4) by (unfold is_u16; lia).
  assert (Hf : Forall fits_call [single]) by (repeat constructor; apply fits_single).
  assert (Hlt : submitted_total [single] + 1 < 4) by (cbn; lia).
  split; [exact (block_env_std 4 H4) |]. split; [exact Hf |]. split; [exact Hlt |].
  destruct (add_buf_empty virtio_std (malloc_ok 0x100000) 7 4 0 0x100000 [single]
              (block_env_std 4 H4) Hf Hlt) as (f & Hs & He).
  exists f. split; [exact Hs | apply He].
Defined.

(** X12: two submissions in a row, both inside the descriptor table,
    leave the vring and the block that the one submission of the two
    lists joined leaves, however the joined call splits its segments
    into out and in: nothing in the block records where a chain ends. *)
Theorem add_buf_concat hh malloc drv num q_index p calls
        l1 l2 out1 in1 out2 in2 c1 c2 out in_ cookie :
  block_env hh malloc num p -> Forall fits_call calls ->
  is_u16 out1 -> is_u16 in1 -> is_u16 out2 -> is_u16 in2 -> is_u16 out -> is_u16 in_ ->
  out1 + in1 = Z.of_nat (length l1) -> out2 + in2 <= Z.of_nat (length l2) ->
  out + in_ = out1 + in1 + (out2 + in2) ->
  submitted_total calls + (out + in_) + 1 < num ->
  exists f f1 f2,
    flat.session hh malloc drv num q_index calls = Some f /\
    flat.add_buf hh f (sglist.mk l1) out1 in1 c1 = Some (true, f1) /\
    flat.add_buf hh f1 (sglist.mk l2) out2 in2 c2 = Some (true, f2) /\
    flat.add_buf hh f (sglist.mk (l1 ++ l2)) out in_ cookie = Some (true, f2).
Proof.
  intros Henv Hfit Ho1 Hi1 Ho2 Hi2 Ho Hi Hl1 Hl2 Hsum Hlt.
  pose proof (env_wf _ _ _ _ Henv) as Hwf.
  pose proof (env_sizes _ _ _ _ Henv) as Hsz.
  pose proof Ho1 as [? _]. pose proof Hi1 as [? _].
  pose proof Ho2 as [? _]. pose proof Hi2 as [? _].
  pose proof (submitted_total_nonneg _ Hfit) as Hnn.
  destruct (in_table_reached hh malloc drv num q_index p calls Henv Hfit ltac:(lia))
    as (f & v & Hf & Hsim & Hinv & Hfresh & Hnorm & Hnum & Hidx & _).
  assert (Hc1 : fits_call (AddBuf (sglist.mk l1) out1 in1 c1)).
  { cbn. repeat split; try apply Ho1; try apply Hi1. lia. }
  assert (Hc2 : fits_call (AddBuf (sglist.mk l2) out2 in2 c2)).
  { cbn. repeat split; try apply Ho2; try apply Hi2. lia. }
  assert (Hc : fits_call (AddBuf (sglist.mk (l1 ++ l2)) out in_ cookie)).
  { cbn. rewrite length_app. repeat split; try apply Ho; try apply Hi. lia. }
  destruct (in_table_add_buf_frame hh Hsz f v _ out1 in1 c1 Hsim Hinv Hfresh Hnorm Hc1
              ltac:(lia))
    as (m1 & v1 & Ha1 & Hlp1 & _ & Hsim1 & Hinv1 & Hfresh1 & Hnorm1 & Hnum1 & Hidx1 & _).
  destruct (in_table_add_buf_frame hh Hsz (flat.set_mem m1 f) v1 _ out2 in2 c2
              Hsim1 Hinv1 Hfresh1 Hnorm1 Hc2 ltac:(lia))
    as (m2 & v2 & Ha2 & Hlp2 & _).
  destruct (in_table_add_buf_frame hh Hsz f v _ out in_ cookie Hsim Hinv Hfresh Hnorm Hc
              ltac:(lia))
    as (m & v' & Ha & Hlp & _).
  cbn [sglist._nodes flat.set_mem flat.mem] in *.
  exists f, (flat.set_mem m1 f), (flat.set_mem m2 f).
  split; [exact Hf |]. split; [exact Ha1 |]. split; [exact Ha2 |].
  rewrite Ha. do 2 f_equal.
  rewrite (flat_loop_count hh Hwf) in Hlp, Hlp1, Hlp2.
  replace (in_ + out - 0) with (Z.of_nat (length l1) + (in2 + out2 - 0)) in Hlp by lia.
  rewrite (flat_loop_app hh Hwf) in Hlp by lia.
  replace (Z.of_nat (length l1)) with (in1 + out1 - 0) in Hlp by lia.
  rewrite Hlp1 in Hlp. cbn [mbind option_bind] in Hlp.
  unfold flat.desc_at in *. cbn [flat._desc flat.set_mem] in *.
  rewrite Hidx1 in Hlp2.
  rewrite Hlp2 in Hlp. injection Hlp as _ Hlp. subst m. reflexivity.
Qed.

Lemma add_buf_concat_witness :
  block_env virtio_std (malloc_ok 0x100000) 4 0x100000 /\
  submitted_total [] + (1 + 1) + 1 < 4 /\
  exists f f1 f2,
    flat.session virtio_std (malloc_ok 0x100000) 7 4 0 [] = Some f /\
    flat.add_buf virtio_std f (sglist.mk [node1]) 1 0 cookie_A = Some (true, f1) /\
    flat.add_buf virtio_std f1 (sglist.mk [node1]) 1 0 cookie_A = Some (true, f2) /\
    flat.add_buf virtio_std f (sglist.mk ([node1] ++ [node1])) 1 1 cookie_A
    = Some (true, f2).
Proof.
  assert (H4 : is_u16 4) by (unfold is_u16; lia).
  assert (H1 : is_u16 1) by (unfold is_u16; lia).
  assert (H0 : is_u16 0) by (unfold is_u16; lia).
  assert (Hlt : submitted_total [] + (1 + 1) + 1 < 4) by (cbn; lia).
  split; [exact (block_env_std 4 H4) |]. split; [exact Hlt |].
  exact (add_buf_concat virtio_std (malloc_ok 0x100000) 7 4 0 0x100000 []
           [node1] [node1] 1 0 1 0 cookie_A cookie_A 1 1 cookie_A
           (block_env_std 4 H4) (Forall_nil_2 _) H1 H0 H1 H0 H1 H1
           eq_refl ltac:(cbn; lia) eq_refl Hlt).
Defined.

(** ** The methods in sequence *)

(** X13: whatever methods are called on a vring, in whatever order, as
    long as the calls return: the driver is kicked once for each call of
    [kick] and never otherwise, with the index of the queue; no method
    assigns a member of the vring or moves the block; and without a call
    of [add_buf] among them no byte of the block is written:
    [disable_callback] asks for no interrupt suppression and [get_buf]
    takes nothing off the used ring. *)
Theorem methods_frame hh ms : forall f kicks f' kicks',
  flat.invoke_all hh (f, kicks) ms = Some (f', kicks') ->
  f' = flat.set_mem (flat.mem f') f /\
  flat.base (flat.mem f') = flat.base (flat.mem f) /\
  flat.size (flat.mem f') = flat.size (flat.mem f) /\
  kicks' = kicks ++ replicate (kick_count ms) (flat._drv f, flat._q_index f) /\
  (forallb (fun m => negb (writes_block m)) ms = true -> f' = f).
Proof.
  induction ms as [| m ms IH]; intros f kicks f' kicks' H.
  - cbn in H. injection H as <- <-. rewrite set_mem_id. cbn. rewrite app_nil_r. auto.
  - cbn [flat.invoke_all] in H.
    apply bind_Some in H; destruct H as ([f1 k1] & Hm & H).
    destruct (IH _ _ _ _ H) as (Hmem & Hb & Hs & Hk & Hid).
    assert (Hstep : f1 = flat.set_mem (flat.mem f1) f /\
                    flat.base (flat.mem f1) = flat.base (flat.mem f) /\
                    flat.size (flat.mem f1) = flat.size (flat.mem f) /\
                    k1 = kicks ++ replicate (kick_count [m]) (flat._drv f, flat._q_index f) /\
                    (writes_block m = false -> f1 = f)).
    { destruct m as [sg out in_ cookie | len | | |]; cbn in Hm.
      - apply bind_Some in Hm; destruct Hm as ([r f2] & Ha & Hm). injection Hm as <- <-.
        destruct (flat_add_buf_block _ _ _ _ _ _ _ _ Ha) as (m1 & -> & Hb1 & Hs1 & _).
        cbn. rewrite app_nil_r. repeat split; try assumption. discriminate.
      - injection Hm as <- <-. rewrite set_mem_id. cbn. rewrite app_nil_r. auto.
      - injection Hm as <- <-. rewrite set_mem_id. cbn. auto.
      - injection Hm as <- <-. rewrite set_mem_id. cbn. rewrite app_nil_r. auto.
      - injection Hm as <- <-. rewrite set_mem_id. cbn. rewrite app_nil_r. auto. }
    destruct Hstep as (Hmem1 & Hb1 & Hs1 & Hk1 & Hid1).
    split; [rewrite Hmem, Hmem1; reflexivity |].
    split; [congruence |]. split; [congruence |]. split.
    + rewrite Hk, Hk1. rewrite Hmem1. cbn [flat._drv flat._q_index flat.set_mem].
      rewrite <- app_assoc. f_equal.
      destruct m; cbn [kick_count replicate app]; reflexivity.
    + cbn [forallb]. intros [Hw Hrest]%andb_true_iff.
      rewrite (Hid Hrest). apply Hid1. destruct (writes_block m); [discriminate | reflexivity].
Qed.

Lemma methods_frame_witness :
  flat.invoke_all virtio_std (fqueue4, [])
    [M_kick; M_add_buf sg1 1 0 cookie_A; M_disable_callback; M_kick]
  = Some (fqueue4_sg1, [(7, 0); (7, 0)]) /\
  fqueue4_sg1 = flat.set_mem (flat.mem fqueue4_sg1) fqueue4 /\
  [(7, 0); (7, 0)] = [] ++ replicate 2 (flat._drv fqueue4, flat._q_index fqueue4).
Proof.
  assert (H : flat.invoke_all virtio_std (fqueue4, [])
                [M_kick; M_add_buf sg1 1 0 cookie_A; M_disable_callback; M_kick]
              = Some (fqueue4_sg1, [(7, 0); (7, 0)])) by (vm_compute; reflexivity).
  split; [exact H |].
  destruct (methods_frame virtio_std _ fqueue4 [] fqueue4_sg1 [(7, 0); (7, 0)] H)
    as (Hm & _ & _ & Hk & _).
  split; [exact Hm | exact Hk].
Defined.


(** ** The device registry *)

Module devfs_facts.
Import devfs.

Lemma set_refcnt_id d : set_refcnt (refcnt d) d = d.
Proof. destruct d. reflexivity. Qed.

Lemma on_list_deref l dev : on_list l dev = true <-> is_Some (deref l dev).
Proof.
  induction l as [| [p d] l IH]; cbn.
  - split; [discriminate | intros [? [=]]].
  - case_bool_decide as Hp; [| exact IH]. split; eauto.
Qed.

Lemma deref_elem_of l dev d : deref l dev = Some d -> (dev, d) ∈ l.
Proof.
  induction l as [| [p d0] l IH]; cbn; [discriminate |].
  case_bool_decide as Hp.
  - intros [= ->]. subst p. apply elem_of_cons. left. reflexivity.
  - intros H. apply elem_of_cons. right. apply IH, H.
Qed.

Lemma assign_same l dev d : deref l dev = Some d -> assign l dev d = l.
Proof.
  induction l as [| [p d0] l IH]; cbn; [reflexivity |].
  case_bool_decide as Hp; [intros [= ->]; reflexivity |].
  intros Hd. rewrite IH by assumption. reflexivity.
Qed.

Lemma assign_assign l dev d1 d2 : assign (assign l dev d1) dev d2 = assign l dev d2.
Proof.
  induction l as [| [p d0] l IH]; cbn; [reflexivity |].
  case_bool_decide as Hp; cbn; rewrite ?bool_decide_eq_true_2, ?bool_decide_eq_false_2
    by assumption; [reflexivity |]. rewrite IH. reflexivity.
Qed.

Lemma deref_assign l dev d d' :
  deref l dev = Some d -> deref (assign l dev d') dev = Some d'.
Proof.
  induction l as [| [p d0] l IH]; cbn; [discriminate |].
  case_bool_decide as Hp; cbn; rewrite ?bool_decide_eq_true_2, ?bool_decide_eq_false_2
    by assumption; [reflexivity | exact IH].
Qed.

Lemma device_valid_deref l dev :
  device_valid l dev = true <-> exists d, deref l dev = Some d /\ active d <> 0.
Proof.
  unfold device_valid. split.
  - intros [Hon Hd]%andb_prop. destruct (deref l dev) as [d |]; [| discriminate].
    exists d. split; [reflexivity |]. apply negb_true_iff, bool_decide_eq_false in Hd.
    exact Hd.
  - intros (d & Hd & Ha). rewrite Hd.
    rewrite (proj2 (on_list_deref l dev)) by (rewrite Hd; eauto).
    rewrite bool_decide_eq_false_2 by assumption. reflexivity.
Qed.

(** Taking a reference and releasing it again leaves the list as it
    was. *)
Lemma reference_release eh l dev d :
  deref l dev = Some d -> active d <> 0 -> 1 <= refcnt d < 2 ^ 31 - 1 ->
  exists l1,
    device_reference eh l dev = (0, l1) /\
    deref l1 dev = Some (set_refcnt (refcnt d + 1) d) /\
    device_release l1 dev = Done l.
Proof.
  intros Hd Ha Hr. unfold device_reference.
  rewrite (proj2 (device_valid_deref l dev)) by eauto. rewrite Hd.
  rewrite int_small by lia. eexists. split; [reflexivity |].
  split; [eapply deref_assign; exact Hd |].
  unfold device_release. rewrite (deref_assign l dev d) by assumption.
  cbn [refcnt set_refcnt]. replace (refcnt d + 1 - 1) with (refcnt d) by lia.
  rewrite int_small by lia. rewrite bool_decide_eq_true_2 by lia.
  rewrite assign_assign. f_equal.
  replace (set_refcnt (refcnt d) (set_refcnt (refcnt d + 1) d)) with d
    by (destruct d; reflexivity).
  apply assign_same, Hd.
Qed.

Lemma counts_ok_deref l dev d :
  counts_ok l -> deref l dev = Some d -> active d <> 0 /\ 1 <= refcnt d < 2 ^ 31 - 1.
Proof.
  intros Hc Hd. apply deref_elem_of in Hd.
  unfold counts_ok in Hc. rewrite Forall_forall in Hc. exact (Hc _ Hd).
Qed.

Lemma with_routine_balanced {R A} eh l dev d (routine : devops -> option R)
      (call : R -> A) :
  deref l dev = Some d -> active d <> 0 -> 1 <= refcnt d < 2 ^ 31 - 1 ->
  exists l1,
    device_reference eh l dev = (0, l1) /\
    with_routine l1 dev routine call
    = match routine (drv_devops (dev_driver d)) with
      | Some f => Done (call f, l)
      | None => Panic "assert"
      end.
Proof.
  intros Hd Ha Hr.
  destruct (reference_release eh l dev d Hd Ha Hr) as (l1 & Href & Hd1 & Hrel).
  exists l1. split; [exact Href |]. unfold with_routine. rewrite Hd1.
  cbn [dev_driver set_refcnt]. destruct (routine _) as [f |]; [| reflexivity].
  rewrite Hrel. reflexivity.
Qed.

Lemma deref_NoDup l p d : NoDup (l.*1) -> (p, d) ∈ l -> deref l p = Some d.
Proof.
  induction l as [| [p0 d0] l IH]; cbn; intros Hnd Hin.
  - apply elem_of_nil in Hin. destruct Hin.
  - apply NoDup_cons in Hnd as [Hp0 Hnd]. apply elem_of_cons in Hin as [[= -> ->] | Hin].
    + rewrite bool_decide_eq_true_2 by reflexivity. reflexivity.
    + rewrite bool_decide_eq_false_2; [apply IH; assumption |].
      intros ->. apply Hp0. apply (list_elem_of_fmap_2 fst) in Hin. exact Hin.
Qed.

(** Against a stored name, which has fewer than [MAXDEVNAME] characters,
    the comparison of [device_lookup] is equality of names. *)
Lemma strncmp_eq_name a b :
  Z.of_nat (length a) < MAXDEVNAME -> strncmp_eq a b MAXDEVNAME = true <-> a = b.
Proof.
  unfold MAXDEVNAME, strncmp_eq. intros Ha. rewrite bool_decide_eq_true.
  change (Z.to_nat 12) with 12%nat. rewrite (take_ge a) by lia. split.
  - intros H. pose proof (f_equal length H) as Hl. rewrite length_take in Hl.
    rewrite H. apply take_ge. lia.
  - intros <-. symmetry. apply take_ge. lia.
Qed.

Lemma device_lookup_None l nm :
  names_ok l ->
  device_lookup l nm = None <-> forall p d, (p, d) ∈ l -> name d <> nm.
Proof.
  intros Hok. induction l as [| [p0 d0] l IH]; cbn.
  - split; [intros _ p d Hin; apply elem_of_nil in Hin; destruct Hin | reflexivity].
  - apply Forall_cons_1 in Hok as [Hd0 Hok]. cbn in Hd0.
    destruct (strncmp_eq (name d0) nm MAXDEVNAME) eqn:Hcmp.
    + apply strncmp_eq_name in Hcmp; [| lia]. split; [discriminate |].
      intros H. exfalso. apply (H p0 d0); [apply elem_of_cons; auto | exact Hcmp].
    + rewrite (IH Hok). split.
      * intros H p d [[= -> ->] | Hin]%elem_of_cons; [| eauto].
        intros Heq. apply (proj2 (strncmp_eq_name (name d0) nm ltac:(lia))) in Heq.
        congruence.
      * intros H p d Hin. apply (H p d). apply elem_of_cons. auto.
Qed.

Lemma device_lookup_Some l nm p :
  names_ok l -> device_lookup l nm = Some p -> exists d, (p, d) ∈ l /\ name d = nm.
Proof.
  intros Hok. induction l as [| [p0 d0] l IH]; cbn; [discriminate |].
  apply Forall_cons_1 in Hok as [Hd0 Hok]. cbn in Hd0.
  destruct (strncmp_eq (name d0) nm MAXDEVNAME) eqn:Hcmp.
  - apply strncmp_eq_name in Hcmp; [| lia]. intros [= <-].
    exists d0. split; [apply elem_of_cons; auto | exact Hcmp].
  - intros Hp. destruct (IH Hok Hp) as (d & Hin & Hd).
    exists d. split; [apply elem_of_cons; auto | exact Hd].
Qed.

(** X14: [device_lookup] finds a device by its exact name: what it returns
    is a device of that name, and it returns [NULL] exactly when no
    device has that name; a name of [MAXDEVNAME] or more characters is
    never found. *)
Theorem device_lookup_exact l nm :
  names_ok l ->
  (forall p, device_lookup l nm = Some p -> exists d, (p, d) ∈ l /\ name d = nm) /\
  (device_lookup l nm = None <-> forall p d, (p, d) ∈ l -> name d <> nm) /\
  (MAXDEVNAME <= Z.of_nat (length nm) -> device_lookup l nm = None).
Proof.
  intros Hok. split; [intros p; apply device_lookup_Some; exact Hok |].
  split; [apply device_lookup_None; exact Hok |].
  intros Hlen. apply device_lookup_None; [exact Hok |]. intros p d Hin Heq.
  unfold names_ok in Hok. rewrite Forall_forall in Hok.
  specialize (Hok _ Hin). cbn in Hok. rewrite Heq in Hok. lia.
Qed.

(** X15: [device_create] returns [NULL] and leaves the list alone for an
    empty name and for a name of [MAXDEVNAME] or more characters, before
    it looks for a duplicate or allocates. *)
Theorem device_create_bad_name l drv nm fl new_dev new_private :
  nm = [] \/ MAXDEVNAME <= Z.of_nat (length nm) ->
  device_create l (Some drv) nm fl new_dev new_private = Done (None, l).
Proof.
  intros H. unfold device_create, strnlen, MAXDEVNAME in *.
  rewrite bool_decide_eq_true_2; [reflexivity |].
  destruct H as [-> | H]; [left; reflexivity | right; lia].
Qed.

(** X16: a name that a device on the list has makes [device_create]
    panic ("duplicate device"): the list never holds two devices of one
    name. *)
Theorem device_create_duplicate l drv nm fl new_dev new_private p d :
  names_ok l -> (p, d) ∈ l -> name d = nm ->
  device_create l (Some drv) nm fl new_dev new_private = Panic "duplicate device".
Proof.
  intros Hok Hin Hnm. pose proof Hok as Hok'. unfold names_ok in Hok'.
  rewrite Forall_forall in Hok'. specialize (Hok' _ Hin). cbn in Hok'. rewrite Hnm in Hok'.
  unfold device_create, strnlen, MAXDEVNAME in *.
  rewrite bool_decide_eq_false_2 by lia.
  rewrite bool_decide_eq_true_2; [reflexivity |].
  intros Hnone. exact (proj1 (device_lookup_None l nm Hok) Hnone p d Hin Hnm).
Qed.

(** X17: with a name of 1 to 11 characters that no device has,
    [device_create] puts a new device at the head of the list: active,
    with one reference, under the whole name. Looking the name up finds
    it, and the names, addresses and counts of the list stay in order;
    every other name is found as before. *)
Theorem device_create_lookup l drv nm fl p priv :
  names_ok l ->
  1 <= Z.of_nat (length nm) < MAXDEVNAME ->
  (forall q d, (q, d) ∈ l -> name d <> nm) ->
  (devsz drv <> 0 -> is_Some priv) ->
  let d := {| dev_driver := drv; name := nm; flags := fl; active := 1; refcnt := 1;
              private := if bool_decide (devsz drv <> 0) then priv else None |} in
  device_create l (Some drv) nm fl (Some p) priv = Done (Some p, (p, d) :: l) /\
  device_lookup ((p, d) :: l) nm = Some p /\
  (forall nm', nm' <> nm -> device_lookup ((p, d) :: l) nm' = device_lookup l nm') /\
  names_ok ((p, d) :: l) /\
  (counts_ok l -> counts_ok ((p, d) :: l)) /\
  (NoDup (l.*1) -> p ∉ l.*1 -> NoDup (((p, d) :: l).*1)).
Proof.
  intros Hok Hlen Hfresh Hpriv d.
  assert (Hcmp : forall nm', strncmp_eq nm nm' MAXDEVNAME = bool_decide (nm = nm')).
  { intros nm'. destruct (strncmp_eq nm nm' MAXDEVNAME) eqn:E.
    - apply strncmp_eq_name in E; [| lia]. rewrite bool_decide_eq_true_2; auto.
    - rewrite bool_decide_eq_false_2; [reflexivity |]. intros Heq.
      apply (proj2 (strncmp_eq_name nm nm' ltac:(lia))) in Heq. congruence. }
  split; [| split; [| split; [| split; [| split]]]].
  - unfold device_create, strnlen. unfold MAXDEVNAME in *.
    rewrite bool_decide_eq_false_2 by lia.
    rewrite (proj2 (device_lookup_None l nm Hok)) by exact Hfresh.
    rewrite bool_decide_eq_false_2 by (intros H; apply H; reflexivity).
    assert (Hnm : strlcpy nm (Z.of_nat (length nm) `min` 12 + 1) = nm).
    { unfold strlcpy. apply take_ge. lia. }
    rewrite Hnm. subst d. case_bool_decide as Hsz; [| reflexivity].
    destruct (Hpriv Hsz) as [q ->]. reflexivity.
  - cbn. rewrite Hcmp, bool_decide_eq_true_2 by reflexivity. reflexivity.
  - intros nm' Hne. cbn. rewrite Hcmp, bool_decide_eq_false_2 by congruence. reflexivity.
  - apply Forall_cons. split; [cbn; exact Hlen | exact Hok].
  - intros Hc. apply Forall_cons. split; [cbn; lia | exact Hc].
  - intros Hnd Hp. cbn. apply NoDup_cons. split; assumption.
Qed.

(** X18: [device_open] answers [ENXIO] for a name no device has and
    changes nothing. For the name of a device it returns what the
    driver's [open] returns, stores the device in [*devp] whatever that
    is, and leaves the list, the reference count included, as it was. *)
Theorem device_open_spec eh l nm mode devp :
  NoDup (l.*1) -> names_ok l -> counts_ok l ->
  match device_lookup l nm with
  | None => device_open eh l nm mode devp = Done (ENXIO eh, devp, l)
  | Some dev =>
      exists d, deref l dev = Some d /\ name d = nm /\
        device_open eh l nm mode devp
        = match open (drv_devops (dev_driver d)) with
          | Some f => Done (f dev mode, Some dev, l)
          | None => Panic "assert"
          end
  end.
Proof.
  intros Hnd Hok Hc. unfold device_open.
  destruct (device_lookup l nm) as [dev |] eqn:Hl; [| reflexivity].
  destruct (device_lookup_Some l nm dev Hok Hl) as (d & Hin & Hnm).
  pose proof (deref_NoDup l dev d Hnd Hin) as Hd.
  destruct (counts_ok_deref l dev d Hc Hd) as [Ha Hr].
  exists d. split; [exact Hd |]. split; [exact Hnm |].
  destruct (with_routine_balanced eh l dev d open (fun f => f dev mode) Hd Ha Hr)
    as (l1 & -> & ->).
  rewrite bool_decide_eq_false_2 by (intros H; apply H; reflexivity).
  destruct (open _); reflexivity.
Qed.

(** X19: on a device that is not on the list or not active,
    [device_close], [device_read], [device_write] and [device_ioctl]
    answer [ENODEV] without calling the driver, and change neither the
    list nor the count. *)
Theorem device_io_invalid eh l dev buf count blkno cmd arg :
  wf_errno eh -> device_valid l dev = false ->
  device_close eh l dev = Done (ENODEV eh, l) /\
  device_read eh l dev buf count blkno = Done (ENODEV eh, count, l) /\
  device_write eh l dev buf count blkno = Done (ENODEV eh, count, l) /\
  device_ioctl eh l dev cmd arg = Done (ENODEV eh, l).
Proof.
  intros Heh Hv. pose proof (wf_ENODEV eh Heh).
  unfold device_close, device_read, device_write, device_ioctl, device_reference.
  rewrite Hv. rewrite bool_decide_eq_true_2 by lia. repeat split.
Qed.

(** X20: on an active device of the list, [device_close], [device_read],
    [device_write] and [device_ioctl] return what the driver's routine
    returns and leave the list, the reference count included, as it
    was; a driver without the routine fails the [assert]. *)
Theorem device_io_valid eh l dev d buf count blkno cmd arg :
  counts_ok l -> deref l dev = Some d ->
  device_close eh l dev
  = match close (drv_devops (dev_driver d)) with
    | Some f => Done (f dev, l) | None => Panic "assert" end /\
  device_read eh l dev buf count blkno
  = match read (drv_devops (dev_driver d)) with
    | Some f => Done (f dev buf count blkno, l) | None => Panic "assert" end /\
  device_write eh l dev buf count blkno
  = match write (drv_devops (dev_driver d)) with
    | Some f => Done (f dev buf count blkno, l) | None => Panic "assert" end /\
  device_ioctl eh l dev cmd arg
  = match ioctl (drv_devops (dev_driver d)) with
    | Some f => Done (f dev cmd arg, l) | None => Panic "assert" end.
Proof.
  intros Hc Hd. destruct (counts_ok_deref l dev d Hc Hd) as [Ha Hr].
  destruct (reference_release eh l dev d Hd Ha Hr) as (l1 & Href & Hd1 & Hrel).
  unfold device_close, device_read, device_write, device_ioctl.
  rewrite Href. rewrite bool_decide_eq_false_2 by (intros H; apply H; reflexivity).
  unfold with_routine. rewrite Hd1. cbn [dev_driver set_refcnt]. rewrite Hrel.
  repeat split;
    match goal with |- match ?x with _ => _ end = _ => destruct x end; reflexivity.
Qed.

Lemma deref_unlink l dev dev' :
  NoDup (l.*1) ->
  deref (unlink l dev) dev' = if bool_decide (dev' = dev) then None else deref l dev'.
Proof.
  induction l as [| [p d] l IH]; cbn; intros Hnd.
  - destruct (bool_decide (dev' = dev)); reflexivity.
  - apply NoDup_cons in Hnd as [Hp Hnd].
    destruct (decide (p = dev)) as [-> | Hpd].
    + rewrite (bool_decide_eq_true_2 (dev = dev)) by reflexivity.
      destruct (decide (dev' = dev)) as [-> | Hd'].
      * rewrite bool_decide_eq_true_2 by reflexivity.
        destruct (deref l dev) as [d0 |] eqn:Hd0; [| reflexivity].
        exfalso. apply Hp. apply deref_elem_of in Hd0.
        apply (list_elem_of_fmap_2 fst) in Hd0. exact Hd0.
      * rewrite !bool_decide_eq_false_2 by congruence. reflexivity.
    + rewrite (bool_decide_eq_false_2 (p = dev)) by assumption. cbn.
      destruct (decide (p = dev')) as [-> | Hpd'].
      * rewrite bool_decide_eq_true_2 by reflexivity.
        rewrite bool_decide_eq_false_2 by congruence. reflexivity.
      * rewrite (bool_decide_eq_false_2 (p = dev')) by assumption. apply IH, Hnd.
Qed.

Lemma deref_assign_ne l dev dev' d' :
  dev' <> dev -> deref (assign l dev d') dev' = deref l dev'.
Proof.
  intros Hne. induction l as [| [p d] l IH]; cbn; [reflexivity |].
  destruct (decide (p = dev)) as [-> | Hp].
  - rewrite (bool_decide_eq_true_2 (dev = dev)) by reflexivity. cbn.
    rewrite !bool_decide_eq_false_2 by congruence. reflexivity.
  - rewrite (bool_decide_eq_false_2 (p = dev)) by assumption. cbn.
    destruct (bool_decide (p = dev')); [reflexivity | exact IH].
Qed.

Lemma length_unlink l dev d :
  deref l dev = Some d -> S (length (unlink l dev)) = length l.
Proof.
  induction l as [| [p d0] l IH]; cbn; [discriminate |].
  case_bool_decide as Hp; [reflexivity |]. intros Hd. cbn.
  rewrite IH by assumption. reflexivity.
Qed.

(** X21: [device_release] on a device with more than one reference only
    counts down; on the last reference it takes the device, and no
    other, off the list. *)
Theorem device_release_spec l dev d :
  NoDup (l.*1) -> deref l dev = Some d -> 1 <= refcnt d < 2 ^ 31 ->
  exists l',
    device_release l dev = Done l' /\
    (forall dev', dev' <> dev -> deref l' dev' = deref l dev') /\
    (1 < refcnt d ->
     deref l' dev = Some (set_refcnt (refcnt d - 1) d) /\ length l' = length l) /\
    (refcnt d = 1 ->
     deref l' dev = None /\ on_list l' dev = false /\ S (length l') = length l).
Proof.
  intros Hnd Hd Hr. unfold device_release. rewrite Hd. rewrite int_small by lia.
  case_bool_decide as Hpos; eexists; (split; [reflexivity |]).
  - split; [intros dev' Hne; apply deref_assign_ne; exact Hne |].
    split; [| lia]. intros _. split; [eapply deref_assign; exact Hd |].
    clear. induction l as [| [p d0] l IH]; cbn; [reflexivity |].
    case_bool_decide; cbn; congruence.
  - split; [intros dev' Hne; rewrite deref_unlink, bool_decide_eq_false_2 by assumption;
            reflexivity |].
    split; [lia |]. intros _.
    assert (Hnone : deref (unlink l dev) dev = None)
      by (rewrite deref_unlink, bool_decide_eq_true_2 by (assumption || reflexivity);
          reflexivity).
    split; [exact Hnone |]. split; [| eapply length_unlink; exact Hd].
    destruct (on_list (unlink l dev) dev) eqn:Hon; [| reflexivity].
    apply on_list_deref in Hon. rewrite Hnone in Hon. destruct Hon as [? [=]].
Qed.

Lemma device_info_loop_spec eh l : forall i target info,
  0 <= i <= target -> i + Z.of_nat (length l) < 2 ^ 64 ->
  device_info_loop eh l i target info
  = match l !! Z.to_nat (target - i) with
    | Some (p, d) => (0, mk_devinfo (target + 1) (Some p) (flags d)
                                    (strlcpy (name d) MAXDEVNAME))
    | None => (ESRCH eh, info)
    end.
Proof.
  induction l as [| [p d] l IH]; intros i target info Hi Hlen; cbn [device_info_loop].
  - reflexivity.
  - cbn [length] in Hlen. case_bool_decide as Heq.
    + subst i. rewrite Z.sub_diag. cbn. rewrite ulong_small by lia. reflexivity.
    + rewrite ulong_small by lia. rewrite IH by lia.
      replace (Z.to_nat (target - i)) with (S (Z.to_nat (target - (i + 1)))) by lia.
      reflexivity.
Qed.

(** X22: [device_info] with cookie [n] describes the device at place [n]
    of the list, the device created last at place 0, and moves the
    cookie to [n + 1]; with a cookie at or behind the end of the list it
    answers [ESRCH] and leaves [*info] alone. Stepping the cookie from 0
    so visits every device once. *)
Theorem device_info_spec eh l info :
  names_ok l -> Z.of_nat (length l) < 2 ^ 64 -> 0 <= cookie info ->
  device_info eh l info
  = match l !! Z.to_nat (cookie info) with
    | Some (p, d) => (0, mk_devinfo (cookie info + 1) (Some p) (flags d) (name d))
    | None => (ESRCH eh, info)
    end.
Proof.
  intros Hok Hlen Hc. unfold device_info.
  rewrite device_info_loop_spec by lia.
  replace (cookie info - 0) with (cookie info) by lia.
  destruct (l !! Z.to_nat (cookie info)) as [[p d] |] eqn:Hl; [| reflexivity].
  apply list_elem_of_lookup_2 in Hl. unfold names_ok in Hok.
  rewrite Forall_forall in Hok. specialize (Hok _ Hl). cbn in Hok.
  unfold strlcpy, MAXDEVNAME in *. rewrite take_ge by lia. reflexivity.
Qed.
End devfs_facts.

Module devfs_witnesses.
Import devfs devfs_facts devfs_fixtures.

Lemma names_ok_devs1 : names_ok devs1.
Proof. repeat constructor; cbn; unfold MAXDEVNAME; lia. Qed.

Lemma counts_ok_devs1 : counts_ok devs1.
Proof. repeat constructor; cbn; lia. Qed.

Lemma NoDup_devs1 : NoDup (devs1.*1).
Proof. cbn. apply NoDup_singleton. Qed.

Lemma wf_errno_std : wf_errno errno_std.
Proof. split; cbn; lia. Qed.

Lemma device_lookup_exact_witness :
  names_ok devs1 /\
  device_lookup devs1 vblk0 = Some 0x2000 /\
  exists d, (0x2000, d) ∈ devs1 /\ name d = vblk0.
Proof.
  split; [exact names_ok_devs1 |]. split; [reflexivity |].
  exact (proj1 (device_lookup_exact devs1 vblk0 names_ok_devs1) 0x2000 eq_refl).
Defined.

Lemma device_create_bad_name_witness :
  (([] : list ascii) = [] \/ MAXDEVNAME <= Z.of_nat (length ([] : list ascii))) /\
  device_create devs1 (Some drv0) [] 0 (Some 0x3000) None = Done (None, devs1).
Proof.
  assert (H : ([] : list ascii) = [] \/ MAXDEVNAME <= Z.of_nat (length ([] : list ascii)))
    by (left; reflexivity).
  split; [exact H |].
  exact (device_create_bad_name devs1 drv0 [] 0 (Some 0x3000) None H).
Defined.

Lemma dev0_on_devs1 : (0x2000, dev0) ∈ devs1.
Proof. apply elem_of_cons. left. reflexivity. Qed.

Lemma device_create_duplicate_witness :
  names_ok devs1 /\ (0x2000, dev0) ∈ devs1 /\ name dev0 = vblk0 /\
  device_create devs1 (Some drv0) vblk0 0 (Some 0x3000) None = Panic "duplicate device".
Proof.
  split; [exact names_ok_devs1 |]. split; [exact dev0_on_devs1 |].
  split; [reflexivity |].
  exact (device_create_duplicate devs1 drv0 vblk0 0 (Some 0x3000) None 0x2000 dev0
           names_ok_devs1 dev0_on_devs1 eq_refl).
Defined.

Lemma vblk1_fresh : forall q d, (q, d) ∈ devs1 -> name d <> vblk1.
Proof.
  intros q d [[= -> ->] | Hin]%elem_of_cons; [discriminate |].
  apply elem_of_nil in Hin. destruct Hin.
Qed.

Lemma device_create_lookup_witness :
  names_ok devs1 /\ 1 <= Z.of_nat (length vblk1) < MAXDEVNAME /\
  exists d,
    device_create devs1 (Some drv0) vblk1 1 (Some 0x3000) None
    = Done (Some 0x3000, (0x3000, d) :: devs1) /\
    device_lookup ((0x3000, d) :: devs1) vblk1 = Some 0x3000.
Proof.
  assert (Hlen : 1 <= Z.of_nat (length vblk1) < MAXDEVNAME) by (cbn; unfold MAXDEVNAME; lia).
  assert (Hpriv : devsz drv0 <> 0 -> is_Some (None : option Z))
    by (intros H; exfalso; apply H; reflexivity).
  split; [exact names_ok_devs1 |]. split; [exact Hlen |].
  destruct (device_create_lookup devs1 drv0 vblk1 1 0x3000 None
              names_ok_devs1 Hlen vblk1_fresh Hpriv) as (Hc & Hl & _).
  eexists. split; [exact Hc | exact Hl].
Defined.

Lemma device_open_spec_witness :
  NoDup (devs1.*1) /\ names_ok devs1 /\ counts_ok devs1 /\
  device_open errno_std devs1 vblk0 0 None = Done (0, Some 0x2000, devs1) /\
  device_open errno_std devs1 vblk1 0 None = Done (6, None, devs1).
Proof.
  split; [exact NoDup_devs1 |]. split; [exact names_ok_devs1 |].
  split; [exact counts_ok_devs1 |]. split.
  - destruct (device_open_spec errno_std devs1 vblk0 0 None
                NoDup_devs1 names_ok_devs1 counts_ok_devs1) as (d & Hd & _ & Ho).
    cbn in Hd. injection Hd as <-. exact Ho.
  - exact (device_open_spec errno_std devs1 vblk1 0 None
             NoDup_devs1 names_ok_devs1 counts_ok_devs1).
Defined.

Lemma device_io_invalid_witness :
  wf_errno errno_std /\ device_valid devs1 0x9000 = false /\
  device_close errno_std devs1 0x9000 = Done (19, devs1) /\
  device_read errno_std devs1 0x9000 0 512 0 = Done (19, 512, devs1).
Proof.
  assert (Hv : device_valid devs1 0x9000 = false) by reflexivity.
  split; [exact wf_errno_std |]. split; [exact Hv |].
  destruct (device_io_invalid errno_std devs1 0x9000 0 512 0 0 0 wf_errno_std Hv)
    as (Hc & Hr & _).
  split; [exact Hc | exact Hr].
Defined.

Lemma device_io_valid_witness :
  counts_ok devs1 /\ deref devs1 0x2000 = Some dev0 /\
  device_close errno_std devs1 0x2000 = Done (0, devs1) /\
  device_read errno_std devs1 0x2000 0 512 0 = Done (19, 512, devs1).
Proof.
  assert (Hd : deref devs1 0x2000 = Some dev0) by reflexivity.
  split; [exact counts_ok_devs1 |]. split; [exact Hd |].
  destruct (device_io_valid errno_std devs1 0x2000 dev0 0 512 0 0 0 counts_ok_devs1 Hd)
    as (Hc & Hr & _).
  split; [exact Hc | exact Hr].
Defined.

Lemma device_release_spec_witness :
  NoDup (devs1.*1) /\ deref devs1 0x2000 = Some dev0 /\ 1 <= refcnt dev0 < 2 ^ 31 /\
  exists l', device_release devs1 0x2000 = Done l' /\ deref l' 0x2000 = None.
Proof.
  assert (Hd : deref devs1 0x2000 = Some dev0) by reflexivity.
  assert (Hr : 1 <= refcnt dev0 < 2 ^ 31) by (cbn; lia).
  split; [exact NoDup_devs1 |]. split; [exact Hd |]. split; [exact Hr |].
  destruct (device_release_spec devs1 0x2000 dev0 NoDup_devs1 Hd Hr)
    as (l' & Hrel & _ & _ & Hlast).
  exists l'. split; [exact Hrel |]. exact (proj1 (Hlast eq_refl)).
Defined.

Lemma device_info_spec_witness :
  names_ok devs1 /\ Z.of_nat (length devs1) < 2 ^ 64 /\
  device_info errno_std devs1 (mk_devinfo 0 None 0 [])
  = (0, mk_devinfo 1 (Some 0x2000) 2 vblk0) /\
  device_info errno_std devs1 (mk_devinfo 1 None 0 [])
  = (3, mk_devinfo 1 None 0 []).
Proof.
  assert (Hlen : Z.of_nat (length devs1) < 2 ^ 64) by (cbn; lia).
  split; [exact names_ok_devs1 |]. split; [exact Hlen |]. split.
  - exact (device_info_spec errno_std devs1 (mk_devinfo 0 None 0 [])
             names_ok_devs1 Hlen ltac:(cbn; lia)).
  - exact (device_info_spec errno_std devs1 (mk_devinfo 1 None 0 [])
             names_ok_devs1 Hlen ltac:(cbn; lia)).
Defined.
End devfs_witnesses.

(** ** Directory streams *)

Module dir_facts.
Import dir.

(** X23: [readdir] reports no error: whatever [ll_readdir] returns,
    [errno] is 0 afterwards; the entry comes back when [ll_readdir]
    returns 0, and [NULL], as at the end of the directory, when it
    fails. *)
Theorem readdir_never_fails (dirent : Type) (ll_readdir : Z -> dirent -> Z * dirent)
        (d : DIR) (st : readdir_state dirent) :
  errno (readdir dirent ll_readdir d st).2 = 0 /\
  entry (readdir dirent ll_readdir d st).2 = (ll_readdir (fd d) (entry st)).2 /\
  (readdir dirent ll_readdir d st).1
  = if bool_decide (int_ (ll_readdir (fd d) (entry st)).1 = 0)
    then Some (ll_readdir (fd d) (entry st)).2 else None.
Proof.
  unfold readdir, readdir_r. destruct (ll_readdir (fd d) (entry st)) as [ret e'].
  cbn. repeat split.
Qed.

(** X24: [opendir] gives [NULL] exactly when [open] fails and then leaves
    no stream behind; a stream it gives holds the descriptor of [open],
    and [closedir] on it closes that descriptor and leaves the streams
    as they were before [opendir]. *)
Theorem opendir_closedir (open : list ascii -> Z -> Z) (O_RDONLY : Z)
        (p : Z) (path : list ascii) (w : world) :
  streams w !! p = None ->
  let fd0 := int_ (open path O_RDONLY) in
  (fd0 < 0 -> opendir open O_RDONLY p path w = (None, w)) /\
  (0 <= fd0 ->
   exists w1,
     opendir open O_RDONLY p path w = (Some p, w1) /\
     streams w1 !! p = Some (mk_DIR fd0) /\
     closedir p w1 = Some (0, mk_world (streams w) (closed w ++ [fd0]))).
Proof.
  intros Hp fd0. unfold opendir. fold fd0. split; intros Hfd.
  - rewrite bool_decide_eq_true_2 by lia. cbn.
    rewrite delete_insert_id by exact Hp. destruct w; reflexivity.
  - rewrite bool_decide_eq_false_2 by lia. eexists. split; [reflexivity |]. cbn.
    split; [apply lookup_insert_eq |].
    unfold closedir. cbn. rewrite lookup_insert_eq. cbn.
    rewrite delete_insert_id by exact Hp. reflexivity.
Qed.
End dir_facts.

Module dir_witnesses.
Import dir dir_facts.

Lemma opendir_closedir_witness :
  streams (mk_world ∅ []) !! 0x5000 = None /\
  exists w1,
    opendir (fun _ _ => 3) 0 0x5000 [] (mk_world ∅ []) = (Some 0x5000, w1) /\
    closedir 0x5000 w1 = Some (0, mk_world ∅ [3]).
Proof.
  assert (Hp : streams (mk_world ∅ []) !! 0x5000 = None) by apply lookup_empty.
  split; [exact Hp |].
  destruct (proj2 (opendir_closedir (fun _ _ => 3) 0 0x5000 [] (mk_world ∅ []) Hp)
              ltac:(vm_compute; discriminate)) as (w1 & Ho & _ & Hc).
  exists w1. split; [exact Ho | exact Hc].
Defined.
End dir_witnesses.
